(** * Adjusted counts for Kneser-Ney language models (lm/builder/adjust_counts.cc)

    A shallow embedding of the four pieces of [adjust_counts.cc]:
    [FindDifference], [StatCollector], [CollapseStream] and the driver
    [AdjustCounts::Run], followed by the properties established about them.

    Conventions of the embedding.
    - A [WordIndex] and every unsigned 64-bit quantity is a [Z]; the only
      arithmetic the source performs on 64-bit values is [++] and [- 1], whose
      wrap-around is written out ([incr64], [decr64]).
    - A pointer into a record, into a block or into the array of streams is
      the [Z] offset from the start of that object, counted in elements
      (words, records, streams).
    - Accesses the C++ leaves undefined (an index outside an array) and the
      [assert] are outcomes of an error monad, [result].
    - A loop whose number of turns is not the size of a datum is a recursion
      on a bound on its turns; the bound each caller passes is shown to
      suffice. *)

From Stdlib Require Import ZArith List Lia Bool Permutation.
From Stdlib Require Import Floats.SpecFloat.
From stdpp Require Import base numbers list.

Open Scope Z_scope.

(** ** Outcomes *)

Inductive error : Type :=
| OutOfBounds      (* an array or buffer is indexed outside its extent *)
| AssertionFailed  (* an [assert] of the source does not hold *)
| OutOfFuel.       (* a loop of the embedding was given too few turns *)

Inductive result (A : Type) : Type :=
| Ok (a : A)
| Err (e : error).
Arguments Ok {A} a.
Arguments Err {A} e.

Definition rbind {A B : Type} (m : result A) (k : A -> result B) : result B :=
  match m with
  | Ok a => k a
  | Err e => Err e
  end.

Notation "'let*' x ':=' m 'in' k" := (rbind m (fun x => k))
  (at level 10, x pattern, m at level 100, k at level 200).

(** ** Unsigned 64-bit arithmetic *)

Definition two64 : Z := 2 ^ 64.
Definition incr64 (x : Z) : Z := (x + 1) mod two64.
Definition decr64 (x : Z) : Z := (x - 1) mod two64.

(** ** Records *)

(** Modelled from the spec: a word identifier (lm/word_index.hh), an unsigned
    integer naming a vocabulary entry. *)
Definition WordIndex : Type := Z.

(** Modelled from the spec: [NGram] (lm/builder/ngram.hh), a record of
    [order] word identifiers followed by one mutable 64-bit count. *)
Record NGram : Type := mkNGram { words : list WordIndex; Count : Z }.

(** [Order()], so that [end()] is [begin() + Order()]. *)
Definition Order (g : NGram) : Z := Z.of_nat (length (words g)).

(** [begin()[i]]; every use below keeps [i] inside the record. *)
Definition word (g : NGram) (i : Z) : WordIndex := nth (Z.to_nat i) (words g) 0.

(** ** FindDifference *)

(** The loop of [FindDifference].  [pre] is the offset of [pre_word] from
    [lower_last.begin()] plus one, so that [pre_word >= lower_last.begin()]
    reads [pre <> 0]; [cur_word] is the offset from [full.begin()]. *)
Fixpoint FindDifference_loop (full lower_last : NGram) (pre : nat) (cur_word : Z) : Z :=
  match pre with
  | O => cur_word
  | S pre_word =>
      if word lower_last (Z.of_nat pre_word) =? word full cur_word
      then FindDifference_loop full lower_last pre_word (cur_word - 1)
      else cur_word
  end.

Definition FindDifference (full lower_last : NGram) : Z :=
  FindDifference_loop full lower_last (length (words lower_last)) (Order full - 1).

(** Number of trailing words two records share: the length of the longest
    common prefix of the reversed word sequences. *)
Fixpoint common_prefix (a b : list WordIndex) : nat :=
  match a, b with
  | x :: a', y :: b' => if x =? y then S (common_prefix a' b') else O
  | _, _ => O
  end.

Definition matching_trailing (full lower : NGram) : Z :=
  Z.of_nat (common_prefix (rev (words full)) (rev (words lower))).

(** The reading of the contract of [FindDifference] in which a complete match
    is answered by the first word of [full]. *)
Definition contract_first_word (full lower : NGram) (d : Z) : Prop :=
  (matching_trailing full lower < Order lower /\
   d = Order full - 1 - matching_trailing full lower)
  \/ (matching_trailing full lower = Order lower /\ d = 0).

(** ** Indexing with the extent written out *)

(** [v[i]] for an unsigned or pointer-derived index [i]; outside the extent
    the C++ is undefined, which the embedding reports. *)
Definition at_index {A : Type} (v : list A) (i : Z) : result A :=
  if (0 <=? i) && (i <? Z.of_nat (length v)) then
    match v !! Z.to_nat i with
    | Some x => Ok x
    | None => Err OutOfBounds
    end
  else Err OutOfBounds.

(** [v[i] = x], same convention. *)
Definition set_index {A : Type} (v : list A) (i : Z) (x : A) : result (list A) :=
  let* _ := at_index v i in Ok (<[Z.to_nat i := x]> v).

(** ** Single and double precision arithmetic

    IEEE 754 binary32 and binary64 with round-to-nearest-even, from the
    Standard Library's executable specification of floats.  [float]
    expressions are evaluated in single precision. *)
Module Float.

Definition float : Type := spec_float.
Definition double : Type := spec_float.

Definition zero : float := S754_zero false.
Definition of_u64 (x : Z) : float := binary_normalize 24 128 x 0 false.
Definition double_of_u64 (x : Z) : double := binary_normalize 53 1024 x 0 false.
Definition of_double (d : double) : float :=
  match d with
  | S754_finite s m e => binary_normalize 24 128 (cond_Zopp s (Zpos m)) e s
  | _ => d
  end.
Definition sub : float -> float -> float := SFsub 24 128.
Definition mul : float -> float -> float := SFmul 24 128.
Definition div : float -> float -> float := SFdiv 24 128.
Definition dadd : double -> double -> double := SFadd 53 1024.
Definition dmul : double -> double -> double := SFmul 53 1024.
Definition two : double := double_of_u64 2.

End Float.

(** ** StatCollector *)

Module StatCollector.

(** [struct OrderStat { uint64_t n[4]; uint64_t count; }]; [n] always has
    four buckets. *)
Record OrderStat : Type := mkOrderStat { n : list Z; count : Z }.

Definition zeroed : OrderStat := {| n := [0; 0; 0; 0]; count := 0 |}.

(** The collector is its vector [orders_]; [full_] aliases [orders_.back()]. *)
Record t : Type := mk { orders_ : list OrderStat }.

(** [StatCollector(order)]: [order] zeroed slots. *)
Definition new (order : nat) : t := {| orders_ := replicate order zeroed |}.

(** The body shared by [Add] and [AddFull], on the referenced slot:
    [++stat.count; if (count < 5) ++stat.n[count - 1];] *)
Definition bump (stat : OrderStat) (c : Z) : result OrderStat :=
  let stat1 := {| n := n stat; count := incr64 (count stat) |} in
  if c <? 5 then
    let* b := at_index (n stat1) (decr64 c) in
    let* n' := set_index (n stat1) (decr64 c) (incr64 b) in
    Ok {| n := n'; count := count stat1 |}
  else Ok stat1.

Definition Add (order_minus_1 : Z) (c : Z) (stats : t) : result t :=
  let* stat := at_index (orders_ stats) order_minus_1 in
  let* stat' := bump stat c in
  let* orders' := set_index (orders_ stats) order_minus_1 stat' in
  Ok {| orders_ := orders' |}.

Definition AddFull (c : Z) (stats : t) : result t :=
  Add (Z.of_nat (length (orders_ stats)) - 1) c stats.

(** Modelled from the spec: [Discount] (lm/builder/discount.hh), the
    discount coefficient set of one order, four floating-point amounts. *)
Record Discount : Type := mkDiscount { amount : list Float.float }.

(** [s.n[j]] in [Complete], where [j] ranges over 0..3. *)
Definition n_at (s : OrderStat) (j : Z) : Z := nth (Z.to_nat j) (n s) 0.

Definition Y (s : OrderStat) : Float.float :=
  Float.div (Float.of_u64 (n_at s 0))
            (Float.of_double
               (Float.dadd (Float.double_of_u64 (n_at s 0))
                           (Float.dmul Float.two (Float.double_of_u64 (n_at s 1))))).

(** The right-hand side of the assignment to [discounts[i].amount[j]]. *)
Definition amount_of (i : Z) (y : Float.float) (s : OrderStat) (j : Z) : Float.float :=
  Float.sub (Float.of_u64 i)
            (Float.div
               (Float.mul (Float.mul (Float.of_u64 (incr64 i)) y)
                          (Float.of_u64 (n_at s j)))
               (Float.of_u64 (n_at s (j - 1)))).

(** One turn of the loop over [i], the loop over [j] unrolled. *)
Definition discount_of (i : Z) (s : OrderStat) : Discount :=
  let y := Y s in
  {| amount := [Float.zero; amount_of i y s 1; amount_of i y s 2; amount_of i y s 3] |}.

Fixpoint Complete_loop (i : Z) (orders : list OrderStat) : list Z * list Discount :=
  match orders with
  | [] => ([], [])
  | s :: rest =>
      let '(counts, discounts) := Complete_loop (i + 1) rest in
      (count s :: counts, discount_of i s :: discounts)
  end.

(** [Complete(counts, discounts)]: both vectors are resized to the number of
    orders and every entry is assigned. *)
Definition Complete (stats : t) : list Z * list Discount :=
  Complete_loop 0 (orders_ stats).

(** Every slot has its four buckets. *)
Definition wf (stats : t) : Prop :=
  Forall (fun s => length (n s) = 4%nat) (orders_ stats).

(** The slot after [Add] or [AddFull] with a count [c] of at least one:
    one more record, and one more in bucket [c - 1] when [c] is below 5. *)
Definition bumped (stat : OrderStat) (c : Z) : OrderStat :=
  {| n := if c <? 5
          then <[Z.to_nat (c - 1) := incr64 (nth (Z.to_nat (c - 1)) (n stat) 0)]> (n stat)
          else n stat;
     count := incr64 (count stat) |}.

End StatCollector.

(** ** Constants of headers outside this file

    [kBOS] (lm/word_index.hh) is the reserved identifier of the
    sentence-start marker and [sizeof_WordIndex] the size in bytes of a word
    identifier; both are parameters of the development. *)
Class Config : Type := {
  kBOS : WordIndex;
  sizeof_WordIndex : Z;
  sizeof_WordIndex_pos : 0 < sizeof_WordIndex
}.

(** The values of the kenlm sources: [<s>] is word 1 and [WordIndex] is
    [unsigned int]. *)
Definition kenlm_config : Config :=
  {| kBOS := 1; sizeof_WordIndex := 4; sizeof_WordIndex_pos := eq_refl |}.

(** ** Blocks and links of the transport layer *)

(** Modelled from the spec: [NGram::TotalSize] (lm/builder/ngram.hh), the
    bytes of one record: [order] word identifiers followed by one 64-bit
    count, laid out contiguously. *)
Definition TotalSize `{Config} (order : Z) : Z := order * sizeof_WordIndex + 8.

(** Modelled from the spec: a record block (util/stream/block.hh), a
    contiguous buffer of same-order records with a valid size in bytes that
    can shrink.  [mem] lists the record slots of the buffer from its base. *)
Record Block : Type := mkBlock { mem : list NGram; ValidSize : Z }.

Definition SetValidSize (b : Block) (bytes : Z) : Block :=
  {| mem := mem b; ValidSize := bytes |}.

(** The record stored in slot [i] of the buffer. *)
Definition record_at (b : Block) (i : Z) : NGram :=
  nth (Z.to_nat i) (mem b) (mkNGram [] 0).

(** [memcpy(dst, src, TotalSize)] between two slots of one buffer. *)
Definition memcpy_record (b : Block) (dst src : Z) : Block :=
  {| mem := <[Z.to_nat dst := record_at b src]> (mem b); ValidSize := ValidSize b |}.

(** Modelled from the spec: [util::stream::Link] (util/stream/chain.hh), the
    position of one stage in a chain of blocks: the blocks already handed
    downstream, the block held ([None] once the end-of-data marker has been
    received) and the blocks still to come from upstream. *)
Record Link : Type := mkLink {
  passed : list Block;
  held : option Block;
  upstream : list Block
}.

(** [Link(position)]: the first block of the chain is held. *)
Definition Link_new (input : list Block) : Link :=
  match input with
  | [] => {| passed := []; held := None; upstream := [] |}
  | b :: rest => {| passed := []; held := Some b; upstream := rest |}
  end.

(** [operator bool] *)
Definition Link_bool (l : Link) : bool :=
  match held l with Some _ => true | None => false end.

(** [operator++]: hand the held block downstream and take the next one. *)
Definition Link_next (l : Link) : Link :=
  match held l with
  | None => l
  | Some b =>
      match upstream l with
      | [] => {| passed := passed l ++ [b]; held := None; upstream := [] |}
      | b' :: rest => {| passed := passed l ++ [b]; held := Some b'; upstream := rest |}
      end
  end.

(** ** CollapseStream *)

Module CollapseStream.
Section WithConfig.
Context `{Config}.

(** [current_] is a record pointer: its order and, as [current_Base], the
    slot of the held block it points at; [copy_from_] is a slot of the same
    block and may step one slot before the base.  Both count record slots of
    [TotalSize] bytes; the valid size of a block stays in bytes. *)
Record t : Type := mk {
  current_Order : Z;
  current_Base : Z;
  copy_from_ : Z;
  block_ : Link
}.

Definition set_block (cs : t) (b : Block) : t :=
  {| current_Order := current_Order cs; current_Base := current_Base cs;
     copy_from_ := copy_from_ cs;
     block_ := {| passed := passed (block_ cs); held := Some b;
                  upstream := upstream (block_ cs) |} |}.

(** [begin()[1] == kBOS] *)
Definition bos_at_1 (g : NGram) : bool := word g 1 =? kBOS.

(** The loop of [UpdateCopyFrom] after its initialising decrement; [turns]
    bounds the slots from [copy_from] down to [base]. *)
Fixpoint UpdateCopyFrom_loop (turns : nat) (b : Block) (base copy_from : Z) : Z :=
  match turns with
  | O => copy_from
  | S turns' =>
      if base <=? copy_from then
        if negb (bos_at_1 (record_at b copy_from)) then copy_from
        else UpdateCopyFrom_loop turns' b base (copy_from - 1)
      else copy_from
  end.

Definition UpdateCopyFrom (cs : t) : t :=
  match held (block_ cs) with
  | None => cs
  | Some b =>
      let start := copy_from_ cs - 1 in
      {| current_Order := current_Order cs; current_Base := current_Base cs;
         copy_from_ := UpdateCopyFrom_loop (Z.to_nat (start - current_Base cs + 1))
                         b (current_Base cs) start;
         block_ := block_ cs |}
  end.

(** The loop of [StartBlock]: skip blocks without valid bytes. *)
Fixpoint StartBlock_loop (turns : nat) (l : Link) : Link :=
  match turns with
  | O => l
  | S turns' =>
      match held l with
      | None => l
      | Some b => if ValidSize b =? 0 then StartBlock_loop turns' (Link_next l) else l
      end
  end.

Definition StartBlock (cs : t) : t :=
  let l := StartBlock_loop (S (length (upstream (block_ cs)))) (block_ cs) in
  match held l with
  | None =>
      {| current_Order := current_Order cs; current_Base := current_Base cs;
         copy_from_ := copy_from_ cs; block_ := l |}
  | Some b =>
      UpdateCopyFrom
        {| current_Order := current_Order cs; current_Base := 0;
           copy_from_ := ValidSize b / TotalSize (current_Order cs);
           block_ := l |}
  end.

(** [CollapseStream(position)] for a chain of records of order [order]. *)
Definition new (order : Z) (input : list Block) : t :=
  StartBlock {| current_Order := order; current_Base := 0; copy_from_ := 0;
                block_ := Link_new input |}.

(** [operator*]: the record [current_] points at. *)
Definition deref (cs : t) : NGram :=
  match held (block_ cs) with
  | Some b => record_at b (current_Base cs)
  | None => mkNGram [] 0
  end.

(** [operator bool] *)
Definition valid (cs : t) : bool := Link_bool (block_ cs).

(** The first statement of [operator++]: a record with the marker at
    word-position 1 that lies before [copy_from_] is overwritten by the
    record at [copy_from_], which then moves back. *)
Definition overwrite (cs : t) (b : Block) : t :=
  if bos_at_1 (record_at b (current_Base cs)) && (current_Base cs <? copy_from_ cs)
  then UpdateCopyFrom (set_block cs (memcpy_record b (current_Base cs) (copy_from_ cs)))
  else cs.

(** [current_.NextInMemory()] *)
Definition NextInMemory (cs : t) : t :=
  {| current_Order := current_Order cs; current_Base := current_Base cs + 1;
     copy_from_ := copy_from_ cs; block_ := block_ cs |}.

(** The last statement of [operator++]: at the end of the valid region the
    valid size is set from [copy_from_] and the next block is started. *)
Definition end_of_block (cs : t) (b : Block) : t :=
  if current_Base cs * TotalSize (current_Order cs) =? ValidSize b then
    let b' := SetValidSize b ((copy_from_ cs + 1) * TotalSize (current_Order cs)) in
    StartBlock
      {| current_Order := current_Order cs; current_Base := current_Base cs;
         copy_from_ := copy_from_ cs;
         block_ := Link_next (block_ (set_block cs b')) |}
  else cs.

(** [operator++] *)
Definition next (cs : t) : result t :=
  match held (block_ cs) with
  | None => Err AssertionFailed
  | Some b =>
      let cs' := NextInMemory (overwrite cs b) in
      match held (block_ cs') with
      | None => Err AssertionFailed
      | Some b' => Ok (end_of_block cs' b')
      end
  end.

(** [for (; full; ++full)] with a body that reads the record [full] points
    at, threading the state of the caller; [turns] bounds the records still
    to come. *)
Fixpoint for_each {State : Type} (turns : nat) (body : NGram -> State -> result State)
    (full : t) (st : State) : result (t * State) :=
  match turns with
  | O => if valid full then Err OutOfFuel else Ok (full, st)
  | S turns' =>
      if valid full then
        let* st' := body (deref full) st in
        let* full' := next full in
        for_each turns' body full' st'
      else Ok (full, st)
  end.

(** Number of records in the valid regions of a chain of blocks. *)
Definition entries (order : Z) (input : list Block) : nat :=
  Z.to_nat (fold_right (fun b acc => ValidSize b / TotalSize order + acc) 0 input).

(** The records the dereference operation yields over a whole chain, in
    order, and the stream once it is exhausted. *)
Definition yields (order : Z) (input : list Block) : result (t * list NGram) :=
  for_each (entries order input) (fun g seen => Ok (seen ++ [g])) (new order input) [].

(** *** Vocabulary of the statements about the stream *)

(** A block whose buffer holds exactly its valid records.  The stream
    neither reads nor writes a slot beyond the valid size, so [mem] lists the
    valid slots only. *)
Definition exact (order : Z) (b : Block) : Prop :=
  ValidSize b = Z.of_nat (length (mem b)) * TotalSize order.

(** The records of the valid region of a block. *)
Definition valid_region (order : Z) (b : Block) : list NGram :=
  take (Z.to_nat (ValidSize b / TotalSize order)) (mem b).

(** The records without, and with, the marker at word-position 1. *)
Definition survivors (l : list NGram) : list NGram :=
  List.filter (fun g => negb (bos_at_1 g)) l.
Definition removed (l : list NGram) : list NGram := List.filter bos_at_1 l.

(** The marker at word-position 1 or later. *)
Definition interior_marker (g : NGram) : Prop :=
  exists i : nat, (1 <= i)%nat /\ words g !! i = Some kBOS.

(** What the stream has done to block [b] when it hands it downstream as
    [b']: the valid size has shrunk by the removed records and the valid
    region holds the survivors in some order. *)
Definition compacted (order : Z) (b b' : Block) : Prop :=
  length (mem b') = length (mem b) /\
  ValidSize b' = ValidSize b - Z.of_nat (length (removed (mem b))) * TotalSize order /\
  valid_region order b' ≡ₚ survivors (mem b).

(** The link that has handed [pas] downstream and has [bs] still to go. *)
Definition link_of (pas bs : list Block) : Link :=
  match bs with
  | [] => {| passed := pas; held := None; upstream := [] |}
  | b :: rest => {| passed := pas; held := Some b; upstream := rest |}
  end.

(** *** The stream inside one block *)

(** The stream with the pointer [current_] on slot [c] of the held block,
    whose buffer currently reads [m] and whose valid size is that of [k]
    records, and [copy_from_] on slot [live - 1]. *)
Definition inside (order : Z) (pas up : list Block) (k c live : nat)
    (m : list NGram) : t :=
  {| current_Order := order; current_Base := Z.of_nat c;
     copy_from_ := Z.of_nat live - 1;
     block_ := {| passed := pas;
                  held := Some {| mem := m;
                                  ValidSize := Z.of_nat k * TotalSize order |};
                  upstream := up |} |}.

(** The stream on leaving that block, before [StartBlock] looks for the next
    one: the valid size has been set from [copy_from_]. *)
Definition leaving (order : Z) (pas up : list Block) (k live : nat)
    (m : list NGram) : t :=
  {| current_Order := order; current_Base := Z.of_nat k;
     copy_from_ := Z.of_nat live - 1;
     block_ := Link_next
                 {| passed := pas;
                    held := Some {| mem := m;
                                    ValidSize := Z.of_nat live * TotalSize order |};
                    upstream := up |} |}.

(** The invariant of the iteration inside a block that held [orig] when the
    stream entered it: the slots from [c] on are as they were; the slots
    before [live] hold all the survivors of the block; those of them the
    pointer has passed are survivors; and [copy_from_], while ahead of the
    pointer, is on a survivor. *)
Definition invariant (orig m : list NGram) (c live : nat) : Prop :=
  length m = length orig /\
  (c <= length orig)%nat /\ (live <= length orig)%nat /\
  drop c m = drop c orig /\
  survivors (take live m) ≡ₚ survivors orig /\
  Forall (fun g => bos_at_1 g = false) (take (c `min` live) m) /\
  ((c < live)%nat -> exists g, m !! (live - 1)%nat = Some g /\ bos_at_1 g = false).

End WithConfig.
End CollapseStream.

(** A loop body run over a list of records in order. *)
Fixpoint foldM {State : Type} (body : NGram -> State -> result State)
    (l : list NGram) (st : State) : result State :=
  match l with
  | [] => Ok st
  | g :: l' => let* st' := body g st in foldM body l' st'
  end.

(** ** Streams of the lower orders *)

(** What a stage publishes on the channel of one order. *)
Inductive message : Type :=
| Entry (g : NGram)   (* a record of the valid region handed downstream *)
| Poison.             (* the end-of-data signal *)

(** Modelled from the spec: [NGramStream] (lm/builder/ngram_stream.hh) used
    as a writer.  [gram] is the record the stream points at, which the driver
    fills in; [operator++] publishes it and moves to the next slot of the
    buffer, whose content is not read before it is written and is taken to be
    zeros; [Poison] signals end-of-data.  [sent] is the channel, oldest first. *)
Record NGramStream : Type := mkNGramStream { gram : NGram; sent : list message }.

Definition blank (order : nat) : NGram := {| words := replicate order 0; Count := 0 |}.

Definition NGramStream_new (order : nat) : NGramStream :=
  {| gram := blank order; sent := [] |}.

Definition NGramStream_next (s : NGramStream) : NGramStream :=
  {| gram := blank (length (words (gram s))); sent := sent s ++ [Entry (gram s)] |}.

Definition NGramStream_Poison (s : NGramStream) : NGramStream :=
  {| gram := gram s; sent := sent s ++ [Poison] |}.

Definition set_Count (s : NGramStream) (c : Z) : NGramStream :=
  {| gram := {| words := words (gram s); Count := c |}; sent := sent s |}.

Definition set_words (s : NGramStream) (w : list WordIndex) : NGramStream :=
  {| gram := {| words := w; Count := Count (gram s) |}; sent := sent s |}.

(** [streams.Init(positions, n)]: one stream per order 1..n. *)
Definition NGramStreams_Init (n : nat) : list NGramStream :=
  map (fun i => NGramStream_new (S i)) (seq 0 n).

(** Modelled from the spec: [NGramStream] used as a reader presents the
    records of the valid regions of the chain in order. *)
Definition NGramStream_read `{Config} (order : Z) (input : list Block) : list NGram :=
  concat (map (fun b => take (Z.to_nat (ValidSize b / TotalSize order)) (mem b)) input).

(** [std::copy(first, last, dst)] into a record of [length dst] words. *)
Definition std_copy (src dst : list WordIndex) : result (list WordIndex) :=
  if (length src <=? length dst)%nat then Ok (src ++ drop (length src) dst)
  else Err OutOfBounds.

(** [P i x] holds of every element [x] of the list, [i] being its index
    counted from [i0]. *)
Fixpoint all_from {A : Type} (i0 : nat) (P : nat -> A -> bool) (l : list A) : bool :=
  match l with
  | [] => true
  | x :: l' => P i0 x && all_from (S i0) P l'
  end.

(** ** AdjustCounts::Run *)

Module AdjustCounts.
Section WithConfig.
Context `{Config}.

(** The variables of [Run] that live across the loop over the N-grams:
    the lower-order streams, the pointer [lower_valid] as an offset from
    [streams.begin()], and the collector. *)
Record state : Type := mkState {
  streams : list NGramStream;
  lower_valid : Z;
  stats : StatCollector.t
}.

(** [if (same) ++streams[same - 1]->Count();] *)
Definition increment (same : Z) (st : state) : result state :=
  if same =? 0 then Ok st
  else
    let* s := at_index (streams st) (same - 1) in
    let* streams' := set_index (streams st) (same - 1)
                       (set_Count s (incr64 (Count (gram s)))) in
    Ok {| streams := streams'; lower_valid := lower_valid st; stats := stats st |}.

(** [for (; lower_valid >= &streams[same]; --lower_valid)]: output all the
    valid ones that changed. *)
Fixpoint output_changed (turns : nat) (same : Z) (st : state) : result state :=
  match turns with
  | O => Err OutOfFuel
  | S turns' =>
      if same <=? lower_valid st then
        let* s := at_index (streams st) (lower_valid st) in
        let* stats' := StatCollector.Add (lower_valid st) (Count (gram s)) (stats st) in
        let* streams' := set_index (streams st) (lower_valid st) (NGramStream_next s) in
        output_changed turns' same
          {| streams := streams'; lower_valid := lower_valid st - 1; stats := stats' |}
      else Ok st
  end.

(** [++lower_valid], then [std::copy] of the words from [bos] to the end of
    [full] into the record of that stream, whose count becomes [c]. *)
Definition open_next (full : NGram) (bos : Z) (c : Z) (st : state) : result state :=
  let lower_valid' := lower_valid st + 1 in
  let* s := at_index (streams st) lower_valid' in
  let* w := std_copy (drop (Z.to_nat bos) (words full)) (words (gram s)) in
  let* streams' := set_index (streams st) lower_valid' (set_Count (set_words s w) c) in
  Ok {| streams := streams'; lower_valid := lower_valid'; stats := stats st |}.

(** The loop over [bos] from [different] downward, which continues while
    [bos > full->begin()] and the word at [bos] is not [kBOS]: initialize and
    mark as valid up to bos.  Answers the final [bos]. *)
Fixpoint mark_valid (turns : nat) (full : NGram) (bos : Z) (st : state)
  : result (Z * state) :=
  match turns with
  | O => Err OutOfFuel
  | S turns' =>
      if (0 <? bos) && negb (word full bos =? kBOS) then
        let* st' := open_next full bos 1 st in
        mark_valid turns' full (bos - 1) st'
      else Ok (bos, st)
  end.

(** The body of the loop over the N-grams. *)
Definition body (full : NGram) (st : state) : result state :=
  let* lower_last := at_index (streams st) (lower_valid st) in
  let different := FindDifference full (gram lower_last) in
  let same := Order full - 1 - different in
  let* st1 := increment same st in
  let* st2 := output_changed (S (length (streams st1))) same st1 in
  let* (bos, st3) := mark_valid (S (length (words full))) full different st2 in
  let* st4 :=
    if negb (bos =? 0) then open_next full bos (Count full) st3
    else
      let* stats' := StatCollector.AddFull (Count full) (stats st3) in
      Ok {| streams := streams st3; lower_valid := lower_valid st3; stats := stats' |} in
  if 0 <=? lower_valid st4 then Ok st4 else Err AssertionFailed.

(** Initialization: unigrams are valid. *)
Definition initialize (full : NGram) (streams0 : list NGramStream)
    (stats0 : StatCollector.t) : result state :=
  let* s := at_index streams0 0 in
  let* w := std_copy [word full (Order full - 1)] (words (gram s)) in
  let* streams' := set_index streams0 0 (set_words (set_Count s 0) w) in
  Ok {| streams := streams'; lower_valid := 0; stats := stats0 |}.

(** [for (NGramStream *s = streams.begin(); s <= lower_valid; ++s)]: output
    everything valid. *)
Fixpoint output_valid (turns : nat) (s : Z) (st : state) : result state :=
  match turns with
  | O => Err OutOfFuel
  | S turns' =>
      if s <=? lower_valid st then
        let* str := at_index (streams st) s in
        let* stats' := StatCollector.Add s (Count (gram str)) (stats st) in
        let* streams' := set_index (streams st) s (NGramStream_next str) in
        output_valid turns' (s + 1)
          {| streams := streams'; lower_valid := lower_valid st; stats := stats' |}
      else Ok st
  end.

(** What [Run] leaves behind: the members [counts_] and [discounts_], the
    channels of the lower orders and the chain of the N-grams. *)
Record output : Type := mkOutput {
  counts_ : list Z;
  discounts_ : list StatCollector.Discount;
  lower : list NGramStream;
  ngrams : list Block
}.

Definition complete (st : StatCollector.t) (lower_streams : list NGramStream)
    (chain : list Block) : output :=
  let '(counts, discounts) := StatCollector.Complete st in
  {| counts_ := counts; discounts_ := discounts; lower := lower_streams; ngrams := chain |}.

(** The statements of [Run] after the loop over the N-grams. *)
Definition finish (full : CollapseStream.t) (st : state) : result output :=
  let* st' := output_valid (S (length (streams st))) 0 st in
  let poisoned := map NGramStream_Poison (streams st') in
  Ok (complete (stats st') poisoned (passed (CollapseStream.block_ full))).

(** [AdjustCounts::Run(positions)] for [order = positions.size()] chains, the
    last of which carries the blocks [input]. *)
Definition Run (order : nat) (input : list Block) : result output :=
  match order with
  | O => Err OutOfBounds
  | 1%nat =>
      let* stats' :=
        fold_left (fun acc g => let* st := acc in StatCollector.AddFull (Count g) st)
                  (NGramStream_read 1 input) (Ok (StatCollector.new 1)) in
      Ok (complete stats' [] input)
  | S lower_orders =>
      let stats0 := StatCollector.new order in
      let streams0 := NGramStreams_Init lower_orders in
      let full := CollapseStream.new (Z.of_nat order) input in
      if negb (CollapseStream.valid full) then
        Ok (complete stats0 streams0 (passed (CollapseStream.block_ full)))
      else
        let* st0 := initialize (CollapseStream.deref full) streams0 stats0 in
        let* (full', st) :=
          CollapseStream.for_each (CollapseStream.entries (Z.of_nat order) input)
            body full st0 in
        finish full' st
  end.

(** *** Vocabulary of the statements about the driver *)

(** The shape of the variables of [Run] between two turns of the loop over
    N-grams of order [N]: one stream per lower order, the stream of order
    [i + 1] pointing at a record of [i + 1] words; [lower_valid] on one of
    them; one slot of four buckets per order; the counts of the open records
    are 64-bit values. *)
Definition wf (N : Z) (st : state) : bool :=
  (Z.of_nat (length (streams st)) =? N - 1) &&
  all_from 0 (fun i s => (length (words (gram s)) =? S i)%nat) (streams st) &&
  (0 <=? lower_valid st) && (lower_valid st <=? N - 2) &&
  (Z.of_nat (length (StatCollector.orders_ (stats st))) =? N) &&
  forallb (fun o => (length (StatCollector.n o) =? 4)%nat)
          (StatCollector.orders_ (stats st)) &&
  all_from 0 (fun i s => (lower_valid st <? Z.of_nat i)
                         || ((0 <=? Count (gram s)) && (Count (gram s) <? two64)))
           (streams st).

(** The open records of order above [same] have a count of at least one. *)
Definition nonzero_from (same : Z) (st : state) : bool :=
  all_from 0 (fun i s => (Z.of_nat i <? same) || (lower_valid st <? Z.of_nat i)
                         || (1 <=? Count (gram s)))
           (streams st).

(** The counts of the open records lie between [lo] and [hi]. *)
Definition counts_within (lo hi : Z) (st : state) : bool :=
  all_from 0 (fun i s => (lower_valid st <? Z.of_nat i)
                         || ((lo <=? Count (gram s)) && (Count (gram s) <=? hi)))
           (streams st).

(** Where the walk from word [bos] of [full] toward its first word stops: on
    the first word, or before it on the sentence-start marker. *)
Fixpoint stop_from (full : NGram) (bos : nat) : nat :=
  match bos with
  | O => O
  | S bos' => if word full (Z.of_nat bos) =? kBOS then bos else stop_from full bos'
  end.

(** The steps of the general case, for the stream of order [i + 1]: with
    [same] the number of trailing words [full] shares with the highest open
    record, [lv] the offset of that record and [b] the word where the walk
    from the divergence point stops.  Lower orders are left alone; order
    [same] gains one occurrence; the open records above are published and
    closed; a record of count 1 is opened for every word of the walk and, if
    the walk stopped on the marker before the first word, a record with the
    raw count of [full] at the marker. *)
Definition spec_stream (full : NGram) (same lv b : Z) (i : nat) (s : NGramStream)
  : NGramStream :=
  let N := Order full in
  if Z.of_nat i <? same - 1 then s
  else if Z.of_nat i =? same - 1 then set_Count s (incr64 (Count (gram s)))
  else
    let s1 := if Z.of_nat i <=? lv then NGramStream_next s else s in
    let p := N - 1 - Z.of_nat i in
    if b <? p then
      {| gram := {| words := drop (Z.to_nat p) (words full); Count := 1 |};
         sent := sent s1 |}
    else if b =? p then
      {| gram := {| words := drop (Z.to_nat p) (words full); Count := Count full |};
         sent := sent s1 |}
    else s1.

(** The same steps for the slot [i] of the collector: the published records
    are added under the slot of their order, and the raw count of [full] is
    added to the last slot if the walk reached the first word. *)
Definition spec_slot (full : NGram) (same lv b : Z) (strs : list NGramStream)
    (i : nat) (o : StatCollector.OrderStat) : StatCollector.OrderStat :=
  if (same <=? Z.of_nat i) && (Z.of_nat i <=? lv) then
    match strs !! i with
    | Some s => StatCollector.bumped o (Count (gram s))
    | None => o
    end
  else if (Z.of_nat i =? Order full - 1) && (b =? 0) then
    StatCollector.bumped o (Count full)
  else o.

(** *** The loops of the body taken one at a time *)

(** The effect of the loop that outputs the valid records that changed. *)
Definition flushed (same lv : Z) (i : nat) (s : NGramStream) : NGramStream :=
  if (same <=? Z.of_nat i) && (Z.of_nat i <=? lv) then NGramStream_next s else s.

Definition fed (same lv : Z) (strs : list NGramStream) (i : nat)
    (o : StatCollector.OrderStat) : StatCollector.OrderStat :=
  if (same <=? Z.of_nat i) && (Z.of_nat i <=? lv) then
    match strs !! i with
    | Some s => StatCollector.bumped o (Count (gram s))
    | None => o
    end
  else o.

(** The effect of the walk from word [d] of [full] that stops on word [b]. *)
Definition opened (full : NGram) (b d : nat) (i : nat) (s : NGramStream) : NGramStream :=
  let p := Order full - 1 - Z.of_nat i in
  if (Z.of_nat b <? p) && (p <=? Z.of_nat d) then
    {| gram := {| words := drop (Z.to_nat p) (words full); Count := 1 |}; sent := sent s |}
  else s.

(** The state the loop over the N-grams starts from. *)
Definition initial (n : nat) (full : NGram) : state :=
  {| streams := <[0%nat := {| gram := {| words := [word full (Order full - 1)]; Count := 0 |};
                              sent := [] |}]> (NGramStreams_Init (S n));
     lower_valid := 0;
     stats := StatCollector.new (S (S n)) |}.

(** No end-of-data signal has been sent on any channel. *)
Definition is_Entry (m : message) : bool :=
  match m with Entry _ => true | Poison => false end.

Definition unpoisoned (strs : list NGramStream) : bool :=
  forallb (fun s => forallb is_Entry (sent s)) strs.

(** The number of trailing words [full] shares with the highest open record. *)
Definition same_of (full : NGram) (st : state) : Z :=
  match streams st !! Z.to_nat (lower_valid st) with
  | Some lower_last => matching_trailing full (gram lower_last)
  | None => 0
  end.

(** The word of [full] where the walk from the divergence point stops. *)
Definition stop_of (full : NGram) (st : state) : Z :=
  Z.of_nat (stop_from full (Z.to_nat (Order full - 1 - same_of full st))).

Definition spec_body (full : NGram) (st : state) : state :=
  let same := same_of full st in
  let b := stop_of full st in
  {| streams := imap (spec_stream full same (lower_valid st) b) (streams st);
     lower_valid := Order full - 1 - (if b =? 0 then 1 else b);
     stats := {| StatCollector.orders_ :=
                   imap (spec_slot full same (lower_valid st) b (streams st))
                        (StatCollector.orders_ (stats st)) |} |}.

End WithConfig.
End AdjustCounts.

(** ** Concrete inputs

    Records, blocks and states used by the examples that close the
    development; word 1 is the sentence-start marker of [kenlm_config]. *)

(** A trigram and the unigram of its last word. *)
Definition C6_full : NGram := {| words := [5; 6; 7]; Count := 1 |}.
Definition C6_lower : NGram := {| words := [7]; Count := 1 |}.

(** A collector of two orders with filled histograms. *)
Definition C5_stats : StatCollector.t :=
  {| StatCollector.orders_ :=
       [ {| StatCollector.n := [10; 4; 2; 1]; StatCollector.count := 30 |};
         {| StatCollector.n := [0; 0; 3; 1]; StatCollector.count := 9 |} ] |}.

(** A block of trigrams; the second and third records have the marker at
    word-position 1. *)
Definition sample_block : Block :=
  {| mem := [ {| words := [5; 6; 7]; Count := 1 |};
              {| words := [5; 1; 7]; Count := 2 |};
              {| words := [8; 1; 9]; Count := 3 |};
              {| words := [1; 6; 9]; Count := 4 |} ];
     ValidSize := 80 |}.

(** A block holding the single record [(w, <s>, x)]. *)
Definition marker_block : Block :=
  {| mem := [ {| words := [5; 1; 7]; Count := 2 |} ]; ValidSize := 20 |}.

(** A chain of unigrams whose single record has a raw count of zero. *)
Definition zero_count_block : Block :=
  {| mem := [ {| words := [5]; Count := 0 |} ]; ValidSize := 12 |}.

(** A block without valid bytes. *)
Definition empty_block : Block := {| mem := []; ValidSize := 0 |}.

(** The three trigrams of the scenario "the cat": [(<s>, the, cat)],
    [(a, the, cat)] and [(saw, the, cat)]. *)
Definition first_trigram : NGram := {| words := [1; 10; 11]; Count := 1 |}.
Definition shares_two : NGram := {| words := [13; 10; 11]; Count := 2 |}.
Definition the_cat : list NGram :=
  [ first_trigram; {| words := [12; 10; 11]; Count := 1 |}; shares_two ].

(** [(<s>, <s>, dog)] with raw count 4: the marker at word-position 1. *)
Definition with_marker : NGram := {| words := [1; 1; 12]; Count := 4 |}.
Definition marker_run : list NGram := [ first_trigram; with_marker ].

(** ** Vocabulary of the further properties *)

(** A sequence of calls [Add(order_minus_1, count)] on one collector. *)
Fixpoint Add_all (calls : list (Z * Z)) (stats : StatCollector.t)
  : result StatCollector.t :=
  match calls with
  | [] => Ok stats
  | (i, c) :: rest => let* stats' := StatCollector.Add i c stats in Add_all rest stats'
  end.

(** How many of the calls satisfy [P]. *)
Definition tally (P : Z * Z -> bool) (calls : list (Z * Z)) : Z :=
  Z.of_nat (length (List.filter P calls)).

(** Number of records whose count is [c]. *)
Definition histogram (c : Z) (grams : list NGram) : Z :=
  Z.of_nat (length (List.filter (fun g => Count g =? c) grams)).

(** The slot of a collector that was fed the counts of the records [es], one
    call of [Add] or [AddFull] each. *)
Definition tallied (es : list NGram) : StatCollector.OrderStat :=
  fold_left (fun o g => StatCollector.bumped o (Count g)) es StatCollector.zeroed.

(** The histogram and total the collector is meant to hold of [es]. *)
Definition statistics (es : list NGram) : StatCollector.OrderStat :=
  {| StatCollector.n := [histogram 1 es; histogram 2 es; histogram 3 es; histogram 4 es];
     StatCollector.count := Z.of_nat (length es) |}.

(** The last [k] words of a record. *)
Definition last_words (k : nat) (r : NGram) : list WordIndex :=
  drop (length (words r) - k) (words r).

(** The books of the driver between two turns of its loop, [done] being the
    N-grams seen so far out of [pool]: every channel carries records only,
    each the last words of an N-gram of the pool with a count of at least
    one; the collector's slot of that order has been fed exactly these
    records; an open record is the last words of an N-gram of the pool; a
    channel carries at most one record per N-gram seen, the open record
    included once it has a count.  The last slot has been fed some of the
    N-grams seen, all of them if none has the marker after its first word. *)
Definition accounted `{Config} (pool done : list NGram) (st : AdjustCounts.state) : Prop :=
  (forall (i : nat) s, AdjustCounts.streams st !! i = Some s ->
     exists es,
       sent s = map Entry es /\
       StatCollector.orders_ (AdjustCounts.stats st) !! i = Some (tallied es) /\
       Forall (fun g => 1 <= Count g < two64 /\
                        exists r, r ∈ pool /\ words g = last_words (S i) r) es /\
       (Z.of_nat i <= AdjustCounts.lower_valid st ->
        exists r, r ∈ pool /\ words (gram s) = last_words (S i) r) /\
       Z.of_nat (length es)
       + (if (Z.of_nat i <=? AdjustCounts.lower_valid st) && (1 <=? Count (gram s))
          then 1 else 0) <= Z.of_nat (length done)) /\
  exists top,
    sublist top done /\
    StatCollector.orders_ (AdjustCounts.stats st) !! length (AdjustCounts.streams st)
    = Some (tallied top) /\
    (Forall (fun r => ~ CollapseStream.interior_marker r) pool -> top = done).

(** The open records of the driver after it has processed the N-gram [r]:
    each is the last words of [r], and they reach down to the second word of
    [r] or to a sentence-start marker. *)
Definition open_suffixes `{Config} (r : NGram) (st : AdjustCounts.state) : Prop :=
  (forall (i : nat) s,
     Z.of_nat i <= AdjustCounts.lower_valid st -> AdjustCounts.streams st !! i = Some s ->
     words (gram s) = last_words (S i) r) /\
  (AdjustCounts.lower_valid st = Order r - 2 \/
   word r (Order r - 1 - AdjustCounts.lower_valid st) = kBOS).

(** *** Adjusted counts read as a function of the N-grams

    The two definitions below are not taken from the source: they state what
    the records of a lower order and their counts are meant to be, so that
    the output of the driver can be compared with them. *)

(** The trailing words an N-gram shares with its predecessor, as far as the
    lower orders can tell: at most N - 1 of them. *)
Definition shared (r prev : NGram) : Z :=
  Z.min (Order prev - 1) (matching_trailing r prev).

(** The records of order [i + 1] for the N-grams [prev :: rest], the record
    of [prev] having count [cnt] so far.  A record lasts while the N-grams
    keep its words as their last [i + 1] words; it counts one for the N-gram
    that started it and one more for every later N-gram for which [shared]
    is exactly [i + 1]: below order N - 1, every N-gram that puts a different
    word in front of the record's words; at order N - 1, every N-gram that
    keeps the record's words. *)
Fixpoint adjusted_records (i : nat) (cnt : Z) (prev : NGram) (rest : list NGram)
  : list NGram :=
  match rest with
  | [] => [ {| words := last_words (S i) prev; Count := cnt |} ]
  | r :: rest' =>
      if shared r prev <=? Z.of_nat i then
        {| words := last_words (S i) prev; Count := cnt |} :: adjusted_records i 1 r rest'
      else if shared r prev =? Z.of_nat i + 1 then adjusted_records i (cnt + 1) r rest'
      else adjusted_records i cnt r rest'
  end.

(** ** Further concrete inputs *)

(** Four calls of [Add] on a collector of two orders. *)
Definition sample_calls : list (Z * Z) := [ (0, 1); (1, 3); (0, 1); (0, 7) ].

(** A collector whose only order has no singleton. *)
Definition no_singleton_stats : StatCollector.t :=
  {| StatCollector.orders_ :=
       [ {| StatCollector.n := [0; 5; 2; 1]; StatCollector.count := 8 |} ] |}.

(** A chain of two blocks of unigrams. *)
Definition unigram_chain : list Block :=
  [ {| mem := [ {| words := [5]; Count := 1 |}; {| words := [6]; Count := 3 |} ];
       ValidSize := 24 |};
    {| mem := [ {| words := [7]; Count := 1 |} ]; ValidSize := 12 |} ].

(** A block of trigrams none of which has the marker after its first word. *)
Definition clean_block : Block :=
  {| mem := [ {| words := [1; 6; 7]; Count := 2 |};
              {| words := [5; 6; 7]; Count := 1 |};
              {| words := [5; 8; 9]; Count := 1 |} ];
     ValidSize := 60 |}.

(** The stream of [kenlm_config] on the first record of [sample_block], with
    [copy_from_] at the end of the valid region. *)
Definition at_start_of_sample : CollapseStream.t :=
  {| CollapseStream.current_Order := 3; CollapseStream.current_Base := 0;
     CollapseStream.copy_from_ := 4;
     CollapseStream.block_ :=
       {| passed := []; held := Some sample_block; upstream := [] |} |}.

(** A chain of unigrams whose fourth record has a raw count of zero. *)
Definition zero_count_chain : list Block :=
  unigram_chain
  ++ [ zero_count_block;
       {| mem := [ {| words := [9]; Count := 2 |} ]; ValidSize := 12 |} ].
Lemma common_prefix_nil_r (a : list WordIndex) : common_prefix a [] = O.
Proof. destruct a; reflexivity. Qed.

Lemma common_prefix_le_r (a b : list WordIndex) :
  (common_prefix a b <= length b)%nat.
Proof.
  revert b; induction a as [|x a IH]; intros [|y b]; simpl; try lia.
  destruct (x =? y); [specialize (IH b)|]; lia.
Qed.

Lemma word_take_last (g : NGram) (p : nat) :
  (p < length (words g))%nat ->
  rev (take (S p) (words g)) = word g (Z.of_nat p) :: rev (take p (words g)).
Proof.
  intros Hp. unfold word. rewrite Nat2Z.id.
  destruct (lookup_lt_is_Some_2 (words g) p Hp) as [x Hx].
  rewrite (take_S_r _ _ _ Hx), rev_app_distr. simpl.
  f_equal. symmetry. apply nth_lookup_Some with (d := 0) in Hx. exact Hx.
Qed.

Lemma FindDifference_loop_spec (full lower : NGram) :
  forall (p q : nat),
    (p <= q)%nat -> (q <= length (words full))%nat ->
    (p <= length (words lower))%nat ->
    FindDifference_loop full lower p (Z.of_nat q - 1) =
    Z.of_nat q - 1
    - Z.of_nat (common_prefix (rev (take q (words full))) (rev (take p (words lower)))).
Proof.
  induction p as [|p IH]; intros q Hpq Hq Hp.
  - simpl. rewrite common_prefix_nil_r. lia.
  - destruct q as [|q]; [lia|].
    rewrite (word_take_last full q) by lia.
    rewrite (word_take_last lower p) by lia.
    simpl FindDifference_loop. simpl common_prefix.
    replace (Z.of_nat (S q) - 1) with (Z.of_nat q) by lia.
    rewrite (Z.eqb_sym (word lower _)).
    destruct (word full (Z.of_nat q) =? word lower (Z.of_nat p)).
    + rewrite IH by lia. lia.
    + lia.
Qed.

(** [FindDifference] answers the offset of the last word of [full] minus the
    number of trailing words shared (shared by the other lemmas below). *)
Lemma FindDifference_offset (full lower : NGram) :
  Order lower <= Order full ->
  FindDifference full lower = Order full - 1 - matching_trailing full lower.
Proof.
  unfold FindDifference, matching_trailing, Order. intros Hle.
  rewrite (FindDifference_loop_spec full lower
             (length (words lower)) (length (words full))) by lia.
  rewrite !firstn_all. reflexivity.
Qed.

Lemma matching_trailing_bounds (full lower : NGram) :
  0 <= matching_trailing full lower <= Order lower.
Proof.
  unfold matching_trailing, Order.
  pose proof (common_prefix_le_r (rev (words full)) (rev (words lower))) as H.
  rewrite length_rev in H. lia.
Qed.


Lemma common_prefix_split (a b : list WordIndex) :
  exists c a' b',
    a = c ++ a' /\ b = c ++ b' /\ length c = common_prefix a b /\
    (a' = [] \/ b' = [] \/
     exists x a'' y b'', a' = x :: a'' /\ b' = y :: b'' /\ x <> y).
Proof.
  revert b; induction a as [|x a IH]; intros b.
  - exists [], [], b. simpl. repeat split; auto.
  - destruct b as [|y b].
    + exists [], (x :: a), []. simpl. repeat split; auto.
    + simpl. destruct (Z.eqb_spec x y) as [->|Hne].
      * destruct (IH b) as (c & a' & b' & -> & -> & Hlen & Hrest).
        exists (y :: c), a', b'. simpl. rewrite Hlen. repeat split; auto.
      * exists [], (x :: a), (y :: b). simpl.
        repeat split; try reflexivity. right; right.
        exists x, a, y, b. auto.
Qed.

(** The common suffix of two records and what precedes it in each. *)
Lemma matching_trailing_split (full lower : NGram) :
  exists pf pl suf,
    words full = pf ++ suf /\ words lower = pl ++ suf /\
    matching_trailing full lower = Z.of_nat (length suf) /\
    (pf = [] \/ pl = [] \/
     exists pf' x pl' y, pf = pf' ++ [x] /\ pl = pl' ++ [y] /\ x <> y).
Proof.
  destruct (common_prefix_split (rev (words full)) (rev (words lower)))
    as (c & a' & b' & Ha & Hb & Hlen & Hrest).
  exists (rev a'), (rev b'), (rev c).
  apply (f_equal (@rev _)) in Ha, Hb.
  rewrite rev_involutive, rev_app_distr in Ha, Hb.
  unfold matching_trailing. rewrite length_rev, Hlen.
  repeat split; try assumption.
  destruct Hrest as [->|[->|(x & a'' & y & b'' & -> & -> & Hne)]]; auto.
  right; right. exists (rev a''), x, (rev b''), y. simpl. auto.
Qed.

(** ** C6: FindDifference *)


(** C6, as stated, fails: for a trigram and the unigram of its last word the
    two records match over the whole of the shorter one, and [FindDifference]
    answers the word at offset 1 of the trigram, not its first word. *)
Lemma FindDifference_first_word_counterexample :
  Order C6_lower < Order C6_full /\
  FindDifference C6_full C6_lower = 1 /\
  ~ contract_first_word C6_full C6_lower (FindDifference C6_full C6_lower).
Proof.
  split; [reflexivity|]. split; [reflexivity|].
  unfold contract_first_word. vm_compute. intros [[H _]|[_ H]]; discriminate.
Qed.

(** C6, amended: for [full] of order N and [lower] of order m < N,
    [FindDifference] answers the offset in [full] of the word just before the
    longest suffix that [full] shares with [lower].  That word is the first
    one, scanning from the end, at which the records differ when [lower] has
    a word left to compare; when the whole of [lower] matched it is the word
    at offset N - 1 - m, which is the first word of [full] only for
    m = N - 1.  The number of matching trailing words is the offset from the
    last word of [full] to the answer.  The function is pure, so neither
    record changes. *)
Theorem FindDifference_longest_common_suffix (full lower : NGram) :
  Order lower < Order full ->
  exists pf pl suf,
    words full = pf ++ suf /\ words lower = pl ++ suf /\
    FindDifference full lower = Z.of_nat (length pf) - 1 /\
    matching_trailing full lower = Order full - 1 - FindDifference full lower /\
    matching_trailing full lower = Z.of_nat (length suf) /\
    ((pl = [] /\ FindDifference full lower = Order full - 1 - Order lower) \/
     (exists pf' x pl' y, pf = pf' ++ [x] /\ pl = pl' ++ [y] /\ x <> y)).
Proof.
  intros Hlt.
  destruct (matching_trailing_split full lower)
    as (pf & pl & suf & Hf & Hl & Hk & Hrest).
  pose proof (FindDifference_offset full lower ltac:(lia)) as Hd.
  assert (HN : Order full = Z.of_nat (length pf) + Z.of_nat (length suf)).
  { unfold Order. rewrite Hf, length_app. lia. }
  assert (Hm : Order lower = Z.of_nat (length pl) + Z.of_nat (length suf)).
  { unfold Order. rewrite Hl, length_app. lia. }
  exists pf, pl, suf. repeat split; try assumption; try lia.
  destruct Hrest as [->|[->|Hne]].
  - simpl in HN. lia.
  - left. split; [reflexivity|]. simpl in Hm. lia.
  - right. exact Hne.
Qed.

Lemma FindDifference_longest_common_suffix_witness :
  exists pf pl suf,
    words C6_full = pf ++ suf /\ words C6_lower = pl ++ suf /\
    FindDifference C6_full C6_lower = Z.of_nat (length pf) - 1 /\
    matching_trailing C6_full C6_lower
      = Order C6_full - 1 - FindDifference C6_full C6_lower /\
    matching_trailing C6_full C6_lower = Z.of_nat (length suf) /\
    ((pl = [] /\ FindDifference C6_full C6_lower = Order C6_full - 1 - Order C6_lower) \/
     (exists pf' x pl' y, pf = pf' ++ [x] /\ pl = pl' ++ [y] /\ x <> y)).
Proof.
  apply (FindDifference_longest_common_suffix C6_full C6_lower).
  reflexivity.
Defined.

(** ** Indexing *)

Lemma at_index_Ok {A : Type} (v : list A) (i : Z) (x : A) :
  at_index v i = Ok x <-> 0 <= i /\ v !! Z.to_nat i = Some x.
Proof.
  unfold at_index. split.
  - destruct (0 <=? i) eqn:H0; simpl; [|discriminate].
    destruct (i <? Z.of_nat (length v)); [|discriminate].
    destruct (v !! Z.to_nat i); [|discriminate].
    intros [= ->]. split; [lia|reflexivity].
  - intros [H0 Hx]. pose proof (lookup_lt_Some _ _ _ Hx) as Hlt.
    destruct (Z.leb_spec 0 i); [|lia].
    destruct (Z.ltb_spec i (Z.of_nat (length v))); [|lia].
    simpl. rewrite Hx. reflexivity.
Qed.

Lemma at_index_nat {A : Type} (v : list A) (i : nat) (x : A) :
  v !! i = Some x -> at_index v (Z.of_nat i) = Ok x.
Proof. intros Hx. apply at_index_Ok. rewrite Nat2Z.id. split; [lia|exact Hx]. Qed.

Lemma set_index_Ok {A : Type} (v : list A) (i : Z) (x y : A) :
  0 <= i -> v !! Z.to_nat i = Some y ->
  set_index v i x = Ok (<[Z.to_nat i := x]> v).
Proof.
  intros H0 Hy. unfold set_index.
  rewrite (proj2 (at_index_Ok v i y)) by auto. reflexivity.
Qed.

Lemma incr64_small (x : Z) : 0 <= x < two64 - 1 -> incr64 x = x + 1.
Proof. intros Hx. unfold incr64. apply Z.mod_small. lia. Qed.

Lemma incr64_range (x : Z) : 0 <= incr64 x < two64.
Proof. unfold incr64. apply Z.mod_pos_bound. reflexivity. Qed.

Lemma decr64_small (x : Z) : 1 <= x < two64 -> decr64 x = x - 1.
Proof. intros Hx. unfold decr64. apply Z.mod_small. lia. Qed.

(** ** StatCollector *)

Lemma StatCollector_bump_Ok (stat : StatCollector.OrderStat) (c : Z) :
  length (StatCollector.n stat) = 4%nat -> 1 <= c < two64 ->
  StatCollector.bump stat c = Ok (StatCollector.bumped stat c).
Proof.
  intros Hn Hc. unfold StatCollector.bump, StatCollector.bumped. simpl.
  destruct (Z.ltb_spec c 5); [|reflexivity].
  rewrite decr64_small by lia.
  assert (Hlt : (Z.to_nat (c - 1) < length (StatCollector.n stat))%nat) by lia.
  destruct (lookup_lt_is_Some_2 _ _ Hlt) as [b Hb].
  rewrite (proj2 (at_index_Ok _ (c - 1) b)) by (split; [lia|exact Hb]). simpl.
  rewrite (set_index_Ok _ (c - 1) _ b) by (lia || exact Hb). simpl.
  rewrite (nth_lookup_Some _ _ 0 _ Hb). reflexivity.
Qed.

Lemma StatCollector_bumped_wf (stat : StatCollector.OrderStat) (c : Z) :
  length (StatCollector.n stat) = 4%nat ->
  length (StatCollector.n (StatCollector.bumped stat c)) = 4%nat.
Proof.
  intros Hn. unfold StatCollector.bumped. simpl.
  destruct (c <? 5); [rewrite length_insert|]; exact Hn.
Qed.

(** [Add] with a count of at least one succeeds and changes its slot only. *)
Lemma StatCollector_Add_Ok (stats : StatCollector.t) (i : Z) (c : Z)
    (stat : StatCollector.OrderStat) :
  0 <= i -> StatCollector.orders_ stats !! Z.to_nat i = Some stat ->
  length (StatCollector.n stat) = 4%nat -> 1 <= c < two64 ->
  StatCollector.Add i c stats =
  Ok {| StatCollector.orders_ :=
          <[Z.to_nat i := StatCollector.bumped stat c]> (StatCollector.orders_ stats) |}.
Proof.
  intros Hi Hs Hn Hc. unfold StatCollector.Add.
  rewrite (proj2 (at_index_Ok _ i stat)) by auto. simpl.
  rewrite StatCollector_bump_Ok by assumption. simpl.
  rewrite (set_index_Ok _ i _ stat) by assumption. reflexivity.
Qed.

Lemma StatCollector_new_wf (order : nat) : StatCollector.wf (StatCollector.new order).
Proof.
  unfold StatCollector.wf, StatCollector.new. simpl.
  apply Forall_replicate. reflexivity.
Qed.


(** ** C5: StatCollector::Complete *)

Lemma StatCollector_Complete_loop_lookup (orders : list StatCollector.OrderStat) :
  forall (i0 : Z) (k : nat) (s : StatCollector.OrderStat),
    orders !! k = Some s ->
    (StatCollector.Complete_loop i0 orders).1 !! k = Some (StatCollector.count s) /\
    (StatCollector.Complete_loop i0 orders).2 !! k
      = Some (StatCollector.discount_of (i0 + Z.of_nat k) s).
Proof.
  induction orders as [|s0 rest IH]; intros i0 k s Hk; [discriminate|].
  simpl. destruct (StatCollector.Complete_loop (i0 + 1) rest) as [cs ds] eqn:Hrec.
  destruct k as [|k]; simpl in *.
  - injection Hk as ->. rewrite Z.add_0_r. auto.
  - specialize (IH (i0 + 1) k s Hk). rewrite Hrec in IH. simpl in IH.
    replace (i0 + Z.of_nat (S k)) with (i0 + 1 + Z.of_nat k) by lia.
    exact IH.
Qed.

Lemma StatCollector_Complete_loop_length (orders : list StatCollector.OrderStat) :
  forall i0 : Z,
    length (StatCollector.Complete_loop i0 orders).1 = length orders /\
    length (StatCollector.Complete_loop i0 orders).2 = length orders.
Proof.
  induction orders as [|s0 rest IH]; intros i0; [auto|].
  simpl. specialize (IH (i0 + 1)).
  destruct (StatCollector.Complete_loop (i0 + 1) rest) as [cs ds]. simpl in *.
  lia.
Qed.

(** C5: for every zero-based slot [i] of the collector, [Complete] outputs
    [counts[i]] equal to the slot's distinct-record total and a discount set
    whose [amount[0]] is [+0.0] and whose [amount[j]], for j = 1, 2, 3, is
    [i - (i+1) * Y * n[j] / n[j-1]] with [Y = n[0] / (n[0] + 2 * n[1])] taken
    from the histogram of slot [i].  Every operation is the IEEE one, with no
    guard: a division by zero yields the infinity or NaN of the division. *)
Theorem StatCollector_Complete_formula (stats : StatCollector.t) (i : nat)
    (s : StatCollector.OrderStat) :
  Z.of_nat (length (StatCollector.orders_ stats)) < two64 ->
  StatCollector.orders_ stats !! i = Some s ->
  let n := fun j : nat => Float.of_u64 (nth j (StatCollector.n s) 0) in
  let Y := Float.div (n 0%nat)
             (Float.of_double
                (Float.dadd (Float.double_of_u64 (nth 0%nat (StatCollector.n s) 0))
                   (Float.dmul Float.two
                      (Float.double_of_u64 (nth 1%nat (StatCollector.n s) 0))))) in
  let amount := fun j : nat =>
    Float.sub (Float.of_u64 (Z.of_nat i))
      (Float.div (Float.mul (Float.mul (Float.of_u64 (Z.of_nat i + 1)) Y) (n j))
                 (n (j - 1)%nat)) in
  length (StatCollector.Complete stats).1 = length (StatCollector.orders_ stats) /\
  length (StatCollector.Complete stats).2 = length (StatCollector.orders_ stats) /\
  (StatCollector.Complete stats).1 !! i = Some (StatCollector.count s) /\
  exists d,
    (StatCollector.Complete stats).2 !! i = Some d /\
    StatCollector.amount d
      = [S754_zero false; amount 1%nat; amount 2%nat; amount 3%nat].
Proof.
  intros Hsize Hi n Y amount. unfold StatCollector.Complete.
  destruct (StatCollector_Complete_loop_length (StatCollector.orders_ stats) 0) as [Hl1 Hl2].
  destruct (StatCollector_Complete_loop_lookup _ 0 i s Hi) as [Hc Hd].
  repeat split; try assumption.
  eexists. split; [exact Hd|].
  pose proof (lookup_lt_Some _ _ _ Hi) as Hlt.
  unfold StatCollector.discount_of, StatCollector.amount_of, StatCollector.Y,
    StatCollector.n_at. simpl StatCollector.amount.
  rewrite Z.add_0_l, incr64_small by lia.
  reflexivity.
Qed.


Lemma StatCollector_Complete_formula_witness :
  (StatCollector.Complete C5_stats).1 !! 1%nat = Some 9 /\
  exists d,
    (StatCollector.Complete C5_stats).2 !! 1%nat = Some d /\
    StatCollector.amount d = [S754_zero false; S754_nan; S754_nan; S754_nan].
Proof.
  destruct (StatCollector_Complete_formula C5_stats 1
              {| StatCollector.n := [0; 0; 3; 1]; StatCollector.count := 9 |}
              eq_refl eq_refl) as (_ & _ & Hc & d & Hd & Ha).
  split; [exact Hc|]. exists d. split; [exact Hd|]. rewrite Ha. vm_compute. reflexivity.
Defined.

(** ** CollapseStream *)

Section CollapseStreamFacts.
Context `{Config}.

Import CollapseStream.

Lemma TotalSize_pos (order : Z) : 0 <= order -> 0 < TotalSize order.
Proof.
  intros Ho. unfold TotalSize. pose proof sizeof_WordIndex_pos. nia.
Qed.

Lemma record_at_lookup (b : Block) (i : nat) (g : NGram) :
  mem b !! i = Some g -> record_at b (Z.of_nat i) = g.
Proof.
  intros Hg. unfold record_at. rewrite Nat2Z.id. apply nth_lookup_Some. exact Hg.
Qed.

Lemma survivors_app (l1 l2 : list NGram) :
  survivors (l1 ++ l2) = survivors l1 ++ survivors l2.
Proof. apply List.filter_app. Qed.

Lemma survivors_cons (g : NGram) (l : list NGram) :
  survivors (g :: l) = if bos_at_1 g then survivors l else g :: survivors l.
Proof. unfold survivors. simpl. destruct (bos_at_1 g); reflexivity. Qed.

Lemma survivors_all (l : list NGram) :
  Forall (fun g => bos_at_1 g = false) l -> survivors l = l.
Proof.
  induction 1 as [|g l Hg _ IH]; [reflexivity|].
  unfold survivors in *. simpl. rewrite Hg. simpl. f_equal. exact IH.
Qed.

Lemma survivors_none (l : list NGram) :
  Forall (fun g => bos_at_1 g = true) l -> survivors l = [].
Proof.
  induction 1 as [|g l Hg _ IH]; [reflexivity|].
  unfold survivors in *. simpl. rewrite Hg. simpl. exact IH.
Qed.

Lemma survivors_removed_length (l : list NGram) :
  (length (survivors l) + length (removed l) = length l)%nat.
Proof.
  induction l as [|g l IH]; [reflexivity|].
  unfold survivors, removed in *. simpl. destruct (bos_at_1 g); simpl; lia.
Qed.

(** Slots [a .. b) that all hold the marker add no survivor. *)
Lemma survivors_take_marked (l : list NGram) (a b : nat) :
  (a <= b)%nat ->
  (forall j g, (a <= j < b)%nat -> l !! j = Some g -> bos_at_1 g = true) ->
  survivors (take b l) = survivors (take a l).
Proof.
  intros Hab Hm.
  rewrite <- (take_drop a (take b l)), take_take, survivors_app.
  replace (a `min` b)%nat with a by lia.
  rewrite (survivors_none (drop a (take b l))); [apply app_nil_r|].
  apply Forall_lookup. intros j g Hj.
  rewrite lookup_drop in Hj. apply lookup_take_Some in Hj as [Hj Hlt].
  apply (Hm (a + j)%nat); [lia|exact Hj].
Qed.

(** Overwriting a marked record by a survivor adds that survivor. *)
Lemma survivors_insert (l : list NGram) (c : nat) (x y : NGram) :
  l !! c = Some x -> bos_at_1 x = true -> bos_at_1 y = false ->
  survivors (<[c := y]> l) ≡ₚ y :: survivors l.
Proof.
  intros Hx Hbx Hby.
  rewrite <- (take_drop_middle l c x Hx) at 2.
  rewrite (insert_take_drop l c y) by (eapply lookup_lt_Some; exact Hx).
  rewrite !survivors_app, !survivors_cons, Hbx, Hby.
  symmetry. apply Permutation_middle.
Qed.

(** The loop of [UpdateCopyFrom] from slot [s - 1] down to slot [c]: it
    stops on the last survivor of slots [c .. s), or one slot before [c]. *)
Lemma UpdateCopyFrom_loop_spec (b : Block) (c : nat) :
  forall (turns s : nat),
    (c <= s)%nat -> turns = (s - c)%nat ->
    exists live : nat,
      UpdateCopyFrom_loop turns b (Z.of_nat c) (Z.of_nat s - 1) = Z.of_nat live - 1 /\
      (c <= live <= s)%nat /\
      (forall j g, (live <= j < s)%nat -> mem b !! j = Some g -> bos_at_1 g = true) /\
      ((c < live)%nat -> bos_at_1 (record_at b (Z.of_nat live - 1)) = false).
Proof.
  induction turns as [|turns IH]; intros s Hcs Ht.
  - exists s. simpl. repeat split; intros; lia.
  - simpl. destruct (Z.leb_spec (Z.of_nat c) (Z.of_nat s - 1)); [|lia].
    destruct (bos_at_1 (record_at b (Z.of_nat s - 1))) eqn:Hb; simpl.
    + destruct (IH (s - 1)%nat ltac:(lia) ltac:(lia)) as (live & Heq & Hr & Hm & Hl).
      exists live. replace (Z.of_nat (s - 1) - 1) with (Z.of_nat s - 1 - 1) in Heq by lia.
      repeat split; try assumption; try lia.
      intros j g Hj Hg. destruct (decide (j = (s - 1)%nat)) as [->|Hne].
      * rewrite <- Hb. f_equal. symmetry.
        replace (Z.of_nat s - 1) with (Z.of_nat (s - 1)) by lia.
        apply record_at_lookup. exact Hg.
      * apply (Hm j); [lia|exact Hg].
    + exists s. repeat split; intros; try lia. exact Hb.
Qed.


Lemma invariant_current (orig m : list NGram) (c live : nat) :
  invariant orig m c live -> (c < length orig)%nat ->
  exists g, orig !! c = Some g /\ m !! c = Some g.
Proof.
  intros (Hlen & Hc & Hl & Hdrop & _) Hlt.
  destruct (lookup_lt_is_Some_2 orig c Hlt) as [g Hg].
  exists g. split; [exact Hg|].
  rewrite <- (Nat.add_0_r c), <- lookup_drop, Hdrop, lookup_drop, Nat.add_0_r.
  exact Hg.
Qed.

Lemma drop_S_eq {A : Type} (l1 l2 : list A) (c : nat) :
  drop c l1 = drop c l2 -> drop (S c) l1 = drop (S c) l2.
Proof.
  intros Heq. replace (S c) with (c + 1)%nat by lia.
  rewrite <- !drop_drop, Heq. reflexivity.
Qed.

(** [UpdateCopyFrom] with the pointer on slot [c] and [copy_from_] on slot
    [s]: [copy_from_] moves to the last survivor of slots [c .. s). *)
Lemma UpdateCopyFrom_inside (order : Z) (pas up : list Block) (k c s : nat)
    (m : list NGram) :
  (c <= s <= length m)%nat ->
  exists live : nat,
    UpdateCopyFrom
      {| current_Order := order; current_Base := Z.of_nat c; copy_from_ := Z.of_nat s;
         block_ := {| passed := pas;
                      held := Some {| mem := m; ValidSize := Z.of_nat k * TotalSize order |};
                      upstream := up |} |}
    = inside order pas up k c live m /\
    (c <= live <= s)%nat /\
    (forall j g, (live <= j < s)%nat -> m !! j = Some g -> bos_at_1 g = true) /\
    ((c < live)%nat -> exists g, m !! (live - 1)%nat = Some g /\ bos_at_1 g = false).
Proof.
  intros Hcs. unfold UpdateCopyFrom, inside. cbn [block_ held current_Base copy_from_ current_Order].
  set (b := {| mem := m; ValidSize := Z.of_nat k * TotalSize order |}).
  destruct (UpdateCopyFrom_loop_spec b c (s - c)%nat s ltac:(lia) eq_refl)
    as (live & Heq & Hr & Hm & Hl).
  exists live.
  replace (Z.to_nat (Z.of_nat s - 1 - Z.of_nat c + 1)) with (s - c)%nat by lia.
  rewrite Heq. repeat split; try lia; try assumption.
  intros Hlt. specialize (Hl Hlt).
  destruct (lookup_lt_is_Some_2 m (live - 1)%nat ltac:(lia)) as [g Hg].
  exists g. split; [exact Hg|].
  rewrite <- Hl. f_equal. symmetry.
  replace (Z.of_nat live - 1) with (Z.of_nat (live - 1)) by lia.
  apply record_at_lookup. exact Hg.
Qed.

Lemma overwrite_inside (order : Z) (pas up : list Block) (orig m : list NGram)
    (c live : nat) :
  invariant orig m c live -> (c < length orig)%nat ->
  exists m' live',
    invariant orig m' (S c) live' /\
    overwrite (inside order pas up (length orig) c live m)
      {| mem := m; ValidSize := Z.of_nat (length orig) * TotalSize order |}
    = inside order pas up (length orig) c live' m'.
Proof.
  intros Hinv Hlt.
  destruct (invariant_current _ _ _ _ Hinv Hlt) as (g & Hog & Hmg).
  destruct Hinv as (Hlen & Hc & Hl & Hdrop & Hperm & Hpassed & Hlive).
  unfold overwrite, inside. cbn [block_ held current_Base copy_from_ current_Order].
  rewrite (record_at_lookup {| mem := m; ValidSize := _ |} c g Hmg).
  destruct (bos_at_1 g) eqn:Hg; simpl.
  - destruct (Z.ltb_spec (Z.of_nat c) (Z.of_nat live - 1)) as [Hcl|Hcl].
    + (* the record is overwritten *)
      destruct (Hlive ltac:(lia)) as (y & Hy & Hby).
      unfold set_block, memcpy_record.
      cbn [block_ held current_Base copy_from_ current_Order passed upstream mem ValidSize].
      replace (Z.of_nat live - 1) with (Z.of_nat (live - 1)) by lia.
      rewrite (record_at_lookup {| mem := m; ValidSize := _ |} (live - 1) y Hy).
      rewrite Nat2Z.id.
      destruct (UpdateCopyFrom_inside order pas up (length orig) c (live - 1) (<[c := y]> m))
        as (live' & Heq & Hr & Hm & Hl').
      { rewrite length_insert. lia. }
      exists (<[c := y]> m), live'. split; [|exact Heq].
      assert (Hc' : (c < live')%nat).
      { destruct (decide (c < live')%nat) as [|Hn]; [assumption|exfalso].
        assert (Hb : bos_at_1 y = true); [|congruence].
        apply (Hm c); [lia|]. apply list_lookup_insert_eq. lia. }
      unfold invariant. rewrite length_insert.
      repeat split; try lia.
      * rewrite drop_insert_lt by lia. apply drop_S_eq. exact Hdrop.
      * rewrite take_insert_lt by lia.
        rewrite (survivors_insert _ c g y); try assumption.
        2:{ rewrite lookup_take_lt by lia. exact Hmg. }
        rewrite <- Hperm.
        assert (Hsplit : survivors (take live m)
                         = survivors (take live' m) ++ [y]).
        { replace live with (S (live - 1)) at 1 by lia.
          rewrite (take_S_r m (live - 1) y Hy), survivors_app, survivors_cons, Hby.
          rewrite (survivors_take_marked m live' (live - 1)); [reflexivity|lia|].
          intros j gj Hj Hgj. apply (Hm j); [lia|].
          rewrite list_lookup_insert_ne by lia. exact Hgj. }
        rewrite Hsplit. apply Permutation_cons_append.
      * replace (S c `min` live')%nat with (S c) by lia.
        rewrite take_insert_lt by lia.
        rewrite (take_S_r m c g Hmg), insert_app_r_alt by (rewrite length_take; lia).
        rewrite length_take. replace (c - c `min` length m)%nat with 0%nat by lia.
        simpl. apply Forall_app. split; [|repeat constructor; exact Hby].
        replace (c `min` live)%nat with c in Hpassed by lia. exact Hpassed.
      * intros _. exact (Hl' Hc').
    + (* nothing lies ahead to copy from *)
      exists m, live. split; [|reflexivity].
      assert (Hcl' : (live <= c)%nat).
      { destruct (decide (live <= c)%nat) as [|Hn]; [assumption|exfalso].
        destruct (Hlive ltac:(lia)) as (y & Hy & Hby).
        replace (live - 1)%nat with c in Hy by lia. congruence. }
      unfold invariant. repeat split; try lia; try assumption.
      * apply drop_S_eq. exact Hdrop.
      * replace (S c `min` live)%nat with (c `min` live)%nat by lia. exact Hpassed.
  - (* a survivor is left in place *)
    exists m, live. split; [|reflexivity].
    unfold invariant. repeat split; try lia; try assumption.
    + apply drop_S_eq. exact Hdrop.
    + destruct (decide (c < live)%nat) as [Hcl|Hcl].
      * replace (S c `min` live)%nat with (S c) by lia.
        rewrite (take_S_r m c g Hmg). apply Forall_app. split; [|repeat constructor; exact Hg].
        replace (c `min` live)%nat with c in Hpassed by lia. exact Hpassed.
      * replace (S c `min` live)%nat with (c `min` live)%nat by lia. exact Hpassed.
    + intros Hcl. apply Hlive. lia.
Qed.

Lemma deref_inside (order : Z) (pas up : list Block) (orig m : list NGram)
    (c live : nat) (g : NGram) :
  invariant orig m c live -> orig !! c = Some g ->
  deref (inside order pas up (length orig) c live m) = g.
Proof.
  intros Hinv Hg.
  destruct (invariant_current _ _ _ _ Hinv (lookup_lt_Some _ _ _ Hg)) as (g' & Hog & Hmg).
  assert (g' = g) as -> by congruence.
  unfold deref, inside. cbn [block_ held current_Base].
  apply record_at_lookup. exact Hmg.
Qed.

(** One [operator++] inside a block. *)
Lemma next_inside (order : Z) (pas up : list Block) (orig m : list NGram)
    (c live : nat) :
  0 <= order -> invariant orig m c live -> (c < length orig)%nat ->
  exists m' live',
    invariant orig m' (S c) live' /\
    next (inside order pas up (length orig) c live m) =
    Ok (if (S c =? length orig)%nat
        then StartBlock (leaving order pas up (length orig) live' m')
        else inside order pas up (length orig) (S c) live' m').
Proof.
  intros Ho Hinv Hlt. pose proof (TotalSize_pos order Ho) as HT.
  destruct (overwrite_inside order pas up orig m c live Hinv Hlt)
    as (m' & live' & Hinv' & Heq).
  exists m', live'. split; [exact Hinv'|].
  unfold next. cbn [inside block_ held]. fold (inside order pas up (length orig) c live m).
  rewrite Heq. unfold NextInMemory, inside. cbn [block_ held current_Base copy_from_ current_Order].
  unfold end_of_block. cbn [block_ held current_Base copy_from_ current_Order ValidSize].
  f_equal. destruct (Nat.eqb_spec (S c) (length orig)) as [Hend|Hend].
  - destruct (Z.eqb_spec ((Z.of_nat c + 1) * TotalSize order)
                (Z.of_nat (length orig) * TotalSize order)) as [_|Hne]; [|nia].
    unfold leaving, set_block, SetValidSize.
    cbn [block_ held current_Base copy_from_ current_Order passed upstream mem].
    replace (Z.of_nat c + 1) with (Z.of_nat (length orig)) by lia.
    replace (Z.of_nat live' - 1 + 1) with (Z.of_nat live') by lia.
    reflexivity.
  - destruct (Z.eqb_spec ((Z.of_nat c + 1) * TotalSize order)
                (Z.of_nat (length orig) * TotalSize order)) as [Heq'|_]; [nia|].
    replace (Z.of_nat c + 1) with (Z.of_nat (S c)) by lia. reflexivity.
Qed.

(** A block on entry. *)
Lemma invariant_entry (orig : list NGram) (live : nat) :
  (live <= length orig)%nat ->
  (forall j g, (live <= j < length orig)%nat -> orig !! j = Some g -> bos_at_1 g = true) ->
  ((0 < live)%nat -> exists g, orig !! (live - 1)%nat = Some g /\ bos_at_1 g = false) ->
  invariant orig orig 0 live.
Proof.
  intros Hl Hm Hlast. unfold invariant. repeat split; try lia; try assumption.
  - rewrite <- (firstn_all orig) at 2.
    rewrite (survivors_take_marked orig live (length orig)); [reflexivity|lia|exact Hm].
  - simpl. constructor.
Qed.

(** A block on exit. *)
Lemma invariant_exit (order : Z) (orig m : list NGram) (live : nat) :
  0 <= order -> invariant orig m (length orig) live ->
  compacted order
    {| mem := orig; ValidSize := Z.of_nat (length orig) * TotalSize order |}
    {| mem := m; ValidSize := Z.of_nat live * TotalSize order |}.
Proof.
  intros Ho (Hlen & _ & Hl & _ & Hperm & Hpassed & _).
  pose proof (TotalSize_pos order Ho) as HT.
  replace (length orig `min` live)%nat with live in Hpassed by lia.
  rewrite (survivors_all _ Hpassed) in Hperm.
  pose proof (Permutation_length Hperm) as Hcount.
  rewrite length_take in Hcount.
  pose proof (survivors_removed_length orig) as Hsum.
  unfold compacted, valid_region. cbn [mem ValidSize].
  rewrite Z.div_mul by lia. rewrite Nat2Z.id.
  repeat split; [exact Hlen| |exact Hperm]. nia.
Qed.

Lemma for_each_S {State : Type} (turns : nat) (body : NGram -> State -> result State)
    (full : t) (st : State) :
  valid full = true ->
  for_each (S turns) body full st =
  let* st' := body (deref full) st in
  let* full' := next full in
  for_each turns body full' st'.
Proof. intros Hv. simpl. rewrite Hv. reflexivity. Qed.

(** The loop over the rest of a block: the body sees the records the block
    held from slot [c] on, and the stream leaves the block compacted. *)
Lemma for_each_inside {State : Type} (body : NGram -> State -> result State) (order : Z)
    (pas up : list Block) (orig : list NGram) :
  0 <= order ->
  forall (r c live : nat) (m : list NGram),
    invariant orig m c live -> (c + S r = length orig)%nat ->
    exists m' live',
      invariant orig m' (length orig) live' /\
      forall (turns : nat) (st : State),
        for_each (S r + turns) body (inside order pas up (length orig) c live m) st =
        let* st' := foldM body (drop c orig) st in
        for_each turns body (StartBlock (leaving order pas up (length orig) live' m')) st'.
Proof.
  intros Ho. induction r as [|r IH]; intros c live m Hinv Hr.
  - destruct (next_inside order pas up orig m c live Ho Hinv ltac:(lia))
      as (m' & live' & Hinv' & Hnext).
    replace (S c =? length orig)%nat with true in Hnext by (symmetry; apply Nat.eqb_eq; lia).
    replace (S c) with (length orig) in Hinv' by lia.
    exists m', live'. split; [exact Hinv'|]. intros turns st.
    destruct (lookup_lt_is_Some_2 orig c ltac:(lia)) as [g Hg].
    rewrite for_each_S by reflexivity.
    rewrite (deref_inside _ _ _ _ _ _ _ g Hinv Hg), Hnext.
    rewrite (drop_S _ _ _ Hg), drop_ge by lia. simpl.
    destruct (body g st); reflexivity.
  - destruct (next_inside order pas up orig m c live Ho Hinv ltac:(lia))
      as (m1 & live1 & Hinv1 & Hnext).
    replace (S c =? length orig)%nat with false in Hnext by (symmetry; apply Nat.eqb_neq; lia).
    destruct (IH (S c) live1 m1 Hinv1 ltac:(lia)) as (m' & live' & Hinv' & Hloop).
    exists m', live'. split; [exact Hinv'|]. intros turns st.
    destruct (lookup_lt_is_Some_2 orig c ltac:(lia)) as [g Hg].
    change (S (S r) + turns)%nat with (S (S r + turns)).
    rewrite for_each_S by reflexivity.
    rewrite (deref_inside _ _ _ _ _ _ _ g Hinv Hg), Hnext.
    rewrite (drop_S _ _ _ Hg). simpl foldM.
    destruct (body g st) as [st1|e]; [|reflexivity]. simpl.
    apply Hloop.
Qed.

Lemma foldM_app {State : Type} (body : NGram -> State -> result State)
    (l1 l2 : list NGram) (st : State) :
  foldM body (l1 ++ l2) st = let* st' := foldM body l1 st in foldM body l2 st'.
Proof.
  revert st; induction l1 as [|g l1 IH]; intros st; [reflexivity|].
  simpl. destruct (body g st) as [st1|e]; [apply IH|reflexivity].
Qed.

Lemma entries_exact (order : Z) (input : list Block) :
  0 <= order -> Forall (exact order) input ->
  entries order input = length (concat (map mem input)).
Proof.
  intros Ho Hex. pose proof (TotalSize_pos order Ho) as HT. unfold entries.
  assert (Hsum : fold_right (fun b acc => ValidSize b / TotalSize order + acc) 0 input
                 = Z.of_nat (length (concat (map mem input)))).
  { induction Hex as [|b rest Hb _ IH]; [reflexivity|].
    simpl. rewrite IH, length_app, Hb, Z.div_mul by lia. lia. }
  rewrite Hsum. apply Nat2Z.id.
Qed.

Lemma Link_next_link_of (pas rest : list Block) (b : Block) :
  Link_next {| passed := pas; held := Some b; upstream := rest |}
  = link_of (pas ++ [b]) rest.
Proof. destruct rest; reflexivity. Qed.

(** [StartBlock] passes over a block without valid bytes. *)
Lemma StartBlock_skip (order base cf : Z) (pas rest : list Block) (b : Block) :
  ValidSize b = 0 ->
  StartBlock {| current_Order := order; current_Base := base; copy_from_ := cf;
                block_ := link_of pas (b :: rest) |}
  = StartBlock {| current_Order := order; current_Base := base; copy_from_ := cf;
                  block_ := link_of (pas ++ [b]) rest |}.
Proof.
  intros Hb. unfold StartBlock. cbn [block_ link_of upstream current_Order current_Base copy_from_].
  cbn [StartBlock_loop held]. rewrite Hb. cbn [Z.eqb].
  rewrite Link_next_link_of.
  destruct rest as [|b' rest']; reflexivity.
Qed.

(** [StartBlock] enters a block with valid bytes. *)
Lemma StartBlock_enter (order base cf : Z) (pas rest : list Block) (orig : list NGram) :
  0 <= order -> orig <> [] ->
  exists live,
    invariant orig orig 0 live /\
    StartBlock {| current_Order := order; current_Base := base; copy_from_ := cf;
                  block_ := link_of pas
                    ({| mem := orig; ValidSize := Z.of_nat (length orig) * TotalSize order |}
                       :: rest) |}
    = inside order pas rest (length orig) 0 live orig.
Proof.
  intros Ho Hne. pose proof (TotalSize_pos order Ho) as HT.
  assert (HK : (0 < length orig)%nat) by (destruct orig; [congruence|simpl; lia]).
  unfold StartBlock. cbn [block_ link_of upstream current_Order current_Base copy_from_].
  cbn [StartBlock_loop held ValidSize].
  destruct (Z.eqb_spec (Z.of_nat (length orig) * TotalSize order) 0) as [Hz|_]; [nia|].
  cbn [held ValidSize]. rewrite Z.div_mul by lia.
  destruct (UpdateCopyFrom_inside order pas rest (length orig) 0 (length orig) orig
              ltac:(lia)) as (live & Heq & Hr & Hm & Hl).
  exists live. split; [|exact Heq].
  apply invariant_entry; [lia|exact Hm|exact Hl].
Qed.

(** The loop over a whole chain: the body sees every record of every block
    in order, and every block is handed downstream compacted. *)
Lemma for_each_chain {State : Type} (body : NGram -> State -> result State) (order : Z) :
  0 <= order ->
  forall (bs pas : list Block) (base cf : Z),
    Forall (exact order) bs ->
    exists cs' bs',
      valid cs' = false /\ passed (block_ cs') = pas ++ bs' /\
      Forall2 (compacted order) bs bs' /\
      forall st : State,
        for_each (length (concat (map mem bs))) body
          (StartBlock {| current_Order := order; current_Base := base; copy_from_ := cf;
                         block_ := link_of pas bs |}) st
        = let* st' := foldM body (concat (map mem bs)) st in Ok (cs', st').
Proof.
  intros Ho. pose proof (TotalSize_pos order Ho) as HT.
  induction bs as [|b rest IH]; intros pas base cf Hex.
  - eexists _, []. rewrite app_nil_r.
    split; [|split; [|split; [constructor|]]]; [| |intros st; reflexivity]; reflexivity.
  - apply Forall_cons in Hex as [Hb Hrest]. destruct b as [orig vs]. unfold exact in Hb.
    cbn [mem ValidSize] in Hb. subst vs.
    destruct orig as [|g0 orig0].
    + (* an empty block *)
      destruct (IH (pas ++ [{| mem := []; ValidSize := Z.of_nat 0 * TotalSize order |}])
                  base cf Hrest) as (cs' & bs' & Hv & Hp & Hc & Hloop).
      exists cs', ({| mem := []; ValidSize := Z.of_nat 0 * TotalSize order |} :: bs').
      split; [exact Hv|]. split; [rewrite Hp, <- app_assoc; reflexivity|].
      split.
      * constructor; [|exact Hc]. unfold compacted, valid_region. cbn [mem ValidSize].
        simpl. repeat split. reflexivity.
      * intros st. rewrite StartBlock_skip by reflexivity. apply Hloop.
    + (* a block with records *)
      set (orig := g0 :: orig0) in *.
      destruct (StartBlock_enter order base cf pas rest orig Ho ltac:(discriminate))
        as (live & Hinv & Henter).
      destruct (for_each_inside body order pas rest orig Ho (length orig0) 0 live orig
                  Hinv ltac:(reflexivity)) as (m' & live' & Hinv' & Hblock).
      set (b' := {| mem := m'; ValidSize := Z.of_nat live' * TotalSize order |}).
      destruct (IH (pas ++ [b']) (Z.of_nat (length orig)) (Z.of_nat live' - 1) Hrest)
        as (cs' & bs' & Hv & Hp & Hc & Hloop).
      exists cs', (b' :: bs').
      split; [exact Hv|]. split; [rewrite Hp, <- app_assoc; reflexivity|].
      split; [constructor; [apply invariant_exit; assumption|exact Hc]|].
      intros st. rewrite Henter.
      cbn [map concat mem]. rewrite length_app.
      change (length orig) with (S (length orig0)) at 1.
      rewrite Hblock, foldM_app. rewrite drop_0.
      destruct (foldM body orig st) as [st1|e]; [|reflexivity]. simpl.
      unfold leaving. rewrite Link_next_link_of. apply Hloop.
Qed.

Lemma new_StartBlock (order : Z) (input : list Block) :
  new order input
  = StartBlock {| current_Order := order; current_Base := 0; copy_from_ := 0;
                  block_ := link_of [] input |}.
Proof. unfold new, Link_new. destruct input; reflexivity. Qed.

(** What dereferencing yields over a chain, and what becomes of the chain. *)
Lemma yields_chain (order : Z) (input : list Block) :
  0 <= order -> Forall (exact order) input ->
  exists cs' bs',
    yields order input = Ok (cs', concat (map mem input)) /\
    valid cs' = false /\ passed (block_ cs') = bs' /\
    Forall2 (compacted order) input bs'.
Proof.
  intros Ho Hex.
  destruct (for_each_chain (fun g seen => Ok (seen ++ [g])) order Ho input [] 0 0 Hex)
    as (cs' & bs' & Hv & Hp & Hc & Hloop).
  exists cs', bs'. split; [|auto].
  unfold yields. rewrite entries_exact, new_StartBlock, Hloop by assumption.
  assert (Hfold : forall l seen,
            foldM (fun g seen => Ok (seen ++ [g])) l seen = Ok (seen ++ l)).
  { induction l as [|g l IHl]; intros seen; simpl; [rewrite app_nil_r; reflexivity|].
    rewrite IHl, <- app_assoc. reflexivity. }
  rewrite Hfold. reflexivity.
Qed.

(** C3, amended: what the stream frees of records with the marker at
    word-position 1 is the chain it hands downstream, not what it yields.
    For every chain of blocks, dereferencing yields every record of every
    block, in order (those with the marker included); once the stream is
    exhausted, no record in the valid region of a block handed downstream has
    the marker at word-position 1.  Word-position 1 is the only position
    tested. *)
Theorem CollapseStream_downstream_without_marker (order : Z) (input : list Block) :
  0 <= order -> Forall (exact order) input ->
  exists cs',
    yields order input = Ok (cs', concat (map mem input)) /\
    valid cs' = false /\
    length (passed (block_ cs')) = length input /\
    forall b' g,
      b' ∈ passed (block_ cs') -> g ∈ valid_region order b' -> bos_at_1 g = false.
Proof.
  intros Ho Hex.
  destruct (yields_chain order input Ho Hex) as (cs' & bs' & Hy & Hv & Hp & Hc).
  exists cs'. repeat split; try assumption.
  - rewrite Hp. symmetry. eapply Forall2_length. exact Hc.
  - intros b' g Hb' Hg. rewrite Hp in Hb'.
    apply list_elem_of_lookup in Hb' as [i Hi].
    destruct (Forall2_lookup_r _ _ _ _ _ Hc Hi) as (b & _ & _ & _ & Hperm).
    rewrite Hperm in Hg. unfold survivors in Hg.
    apply list_elem_of_In, List.filter_In in Hg as [_ Hg].
    apply negb_true_iff in Hg. exact Hg.
Qed.

(** C4, amended: for every block of k records of which m have the marker at
    word-position 1, iterating the stream over that block yields all k
    records, in order; once the cursor has left the block, its valid size has
    shrunk by exactly m records' worth of bytes, and the valid region holds
    the k - m records without the marker at word-position 1, possibly
    reordered. *)
Theorem CollapseStream_block_compacted (order : Z) (b : Block) :
  0 <= order -> exact order b ->
  exists cs' b',
    yields order [b] = Ok (cs', mem b) /\
    valid cs' = false /\
    passed (block_ cs') = [b'] /\
    ValidSize b' = ValidSize b - Z.of_nat (length (removed (mem b))) * TotalSize order /\
    valid_region order b' ≡ₚ survivors (mem b) /\
    length (valid_region order b')
      = (length (mem b) - length (removed (mem b)))%nat.
Proof.
  intros Ho Hex.
  destruct (yields_chain order [b] Ho ltac:(repeat constructor; exact Hex))
    as (cs' & bs' & Hy & Hv & Hp & Hc).
  apply Forall2_cons_inv_l in Hc as (b' & rest & (Hlen & Hsize & Hperm) & Hnil & ->).
  apply Forall2_nil_inv_l in Hnil as ->.
  exists cs', b'. simpl in Hy. rewrite app_nil_r in Hy.
  repeat split; try assumption.
  rewrite (Permutation_length Hperm).
  pose proof (survivors_removed_length (mem b)). lia.
Qed.

(** A chain without valid bytes: the stream is exhausted from the start and
    every block is handed downstream as it is. *)
Lemma StartBlock_empty (order base cf : Z) :
  forall (bs pas : list Block),
    Forall (fun b => ValidSize b = 0) bs ->
    StartBlock {| current_Order := order; current_Base := base; copy_from_ := cf;
                  block_ := link_of pas bs |}
    = {| current_Order := order; current_Base := base; copy_from_ := cf;
         block_ := {| passed := pas ++ bs; held := None; upstream := [] |} |}.
Proof.
  induction bs as [|b rest IH]; intros pas Hbs.
  - rewrite app_nil_r. reflexivity.
  - apply Forall_cons in Hbs as [Hb Hrest].
    rewrite StartBlock_skip by exact Hb. rewrite IH by exact Hrest.
    rewrite <- app_assoc. reflexivity.
Qed.

(** A chain with a record: the stream starts on the first record. *)
Lemma StartBlock_first (order base cf : Z) (g : NGram) (others : list NGram) :
  0 <= order ->
  forall (bs pas : list Block),
    Forall (exact order) bs -> concat (map mem bs) = g :: others ->
    valid (StartBlock {| current_Order := order; current_Base := base; copy_from_ := cf;
                         block_ := link_of pas bs |}) = true /\
    deref (StartBlock {| current_Order := order; current_Base := base; copy_from_ := cf;
                         block_ := link_of pas bs |}) = g.
Proof.
  intros Ho. induction bs as [|b rest IH]; intros pas Hex Hrec; [discriminate|].
  apply Forall_cons in Hex as [Hb Hrest]. destruct b as [orig vs]. unfold exact in Hb.
  cbn [mem ValidSize] in Hb. subst vs.
  destruct orig as [|g0 orig0].
  - rewrite StartBlock_skip by reflexivity. apply IH; assumption.
  - simpl in Hrec. injection Hrec as -> _.
    destruct (StartBlock_enter order base cf pas rest (g :: orig0) Ho ltac:(discriminate))
      as (live & Hinv & Henter).
    rewrite Henter. split; [reflexivity|].
    apply (deref_inside order pas rest (g :: orig0) (g :: orig0) 0 live g Hinv).
    reflexivity.
Qed.

End CollapseStreamFacts.

(** ** AdjustCounts::Run *)

Lemma all_from_spec {A : Type} (P : nat -> A -> bool) (l : list A) :
  forall i0 : nat,
    all_from i0 P l = true <->
    (forall (k : nat) (x : A), l !! k = Some x -> P (i0 + k)%nat x = true).
Proof.
  induction l as [|x l IH]; intros i0; simpl.
  - split; [intros _ k y Hk; discriminate|reflexivity].
  - rewrite andb_true_iff, IH. split.
    + intros [Hx Hl] [|k] y Hk; simpl in Hk.
      * injection Hk as <-. rewrite Nat.add_0_r. exact Hx.
      * replace (i0 + S k)%nat with (S i0 + k)%nat by lia. apply Hl. exact Hk.
    + intros Hall. split.
      * rewrite <- (Nat.add_0_r i0). apply Hall. reflexivity.
      * intros k y Hk. replace (S i0 + k)%nat with (i0 + S k)%nat by lia.
        apply Hall. exact Hk.
Qed.

Section AdjustCountsFacts.
Context `{Config}.

Import AdjustCounts.

(** The shape [wf], unfolded. *)
Lemma wf_spec (N : Z) (st : state) :
  wf N st = true <->
  Z.of_nat (length (streams st)) = N - 1 /\
  (forall (i : nat) s, streams st !! i = Some s -> length (words (gram s)) = S i) /\
  0 <= lower_valid st <= N - 2 /\
  Z.of_nat (length (StatCollector.orders_ (stats st))) = N /\
  StatCollector.wf (stats st) /\
  (forall (i : nat) s, Z.of_nat i <= lower_valid st -> streams st !! i = Some s ->
                       0 <= Count (gram s) < two64).
Proof.
  unfold wf. rewrite !andb_true_iff, !all_from_spec, forallb_forall.
  rewrite Z.eqb_eq, Z.eqb_eq, !Z.leb_le. unfold StatCollector.wf. rewrite Forall_forall.
  split.
  - intros ((((((H1 & H2) & H3) & H4) & H5) & H6) & H7).
    repeat split; try assumption.
    + intros i s Hs. apply Nat.eqb_eq. apply (H2 i s Hs).
    + intros o Ho. apply Nat.eqb_eq, H6. apply list_elem_of_In. exact Ho.
    + specialize (H7 i s H8). simpl in H7. apply orb_true_iff in H7 as [H7|H7]; [lia|].
      apply andb_true_iff in H7 as [H7 _]. lia.
    + specialize (H7 i s H8). simpl in H7. apply orb_true_iff in H7 as [H7|H7]; [lia|].
      apply andb_true_iff in H7 as [_ H7]. lia.
  - intros (H1 & H2 & [H3 H4] & H5 & H6 & H7).
    repeat split; try assumption.
    + intros i s Hs. apply Nat.eqb_eq. apply (H2 i s Hs).
    + intros o Ho. apply Nat.eqb_eq, H6. apply list_elem_of_In. exact Ho.
    + intros i s Hs. simpl. apply orb_true_iff.
      destruct (Z.ltb_spec (lower_valid st) (Z.of_nat i)); [left; reflexivity|right].
      specialize (H7 i s ltac:(lia) Hs). apply andb_true_iff. split; lia.
Qed.

Lemma nonzero_from_spec (same : Z) (st : state) :
  nonzero_from same st = true <->
  (forall (i : nat) s, same <= Z.of_nat i <= lower_valid st ->
                       streams st !! i = Some s -> 1 <= Count (gram s)).
Proof.
  unfold nonzero_from. rewrite all_from_spec. split.
  - intros Hall i s Hi Hs. specialize (Hall i s Hs). simpl in Hall.
    rewrite !orb_true_iff in Hall. destruct Hall as [[Hl|Hl]|Hl]; lia.
  - intros Hall i s Hs. simpl. rewrite !orb_true_iff.
    destruct (Z.ltb_spec (Z.of_nat i) same); [auto|].
    destruct (Z.ltb_spec (lower_valid st) (Z.of_nat i)); [auto|].
    right. specialize (Hall i s ltac:(lia) Hs). lia.
Qed.

Lemma output_changed_spec (same : Z) :
  0 <= same ->
  forall (k turns : nat) (st : state),
    lower_valid st = same + Z.of_nat k - 1 ->
    (k < turns)%nat ->
    lower_valid st < Z.of_nat (length (streams st)) ->
    lower_valid st < Z.of_nat (length (StatCollector.orders_ (stats st))) ->
    StatCollector.wf (stats st) ->
    (forall (i : nat) s, same <= Z.of_nat i <= lower_valid st ->
                         streams st !! i = Some s -> 1 <= Count (gram s) < two64) ->
    exists st',
      output_changed turns same st = Ok st' /\
      lower_valid st' = same - 1 /\
      StatCollector.wf (stats st') /\
      (forall i, streams st' !! i = flushed same (lower_valid st) i <$> streams st !! i) /\
      (forall i, StatCollector.orders_ (stats st') !! i
                 = fed same (lower_valid st) (streams st) i
                     <$> StatCollector.orders_ (stats st) !! i).
Proof.
  intros Hsame. induction k as [|k IH]; intros turns st Hlv Hturns Hstr Hord Hwf Hcount.
  - destruct turns as [|turns]; [lia|]. simpl.
    destruct (Z.leb_spec same (lower_valid st)); [lia|].
    exists st. repeat split; try assumption; try lia.
    + intros i. unfold flushed.
      destruct (Z.leb_spec same (Z.of_nat i)), (Z.leb_spec (Z.of_nat i) (lower_valid st));
        simpl; try lia; destruct (streams st !! i); reflexivity.
    + intros i. unfold fed.
      destruct (Z.leb_spec same (Z.of_nat i)), (Z.leb_spec (Z.of_nat i) (lower_valid st));
        simpl; try lia; destruct (StatCollector.orders_ (stats st) !! i); reflexivity.
  - destruct turns as [|turns]; [lia|]. simpl.
    destruct (Z.leb_spec same (lower_valid st)); [|lia].
    set (lv := Z.to_nat (lower_valid st)).
    assert (Hlvz : lower_valid st = Z.of_nat lv) by lia.
    destruct (lookup_lt_is_Some_2 (streams st) lv ltac:(lia)) as [s Hs].
    destruct (lookup_lt_is_Some_2 (StatCollector.orders_ (stats st)) lv ltac:(lia)) as [o Ho].
    rewrite (proj2 (at_index_Ok _ _ s)) by (split; [lia|exact Hs]). simpl.
    pose proof (Hcount lv s ltac:(lia) Hs) as Hc.
    assert (Hn : length (StatCollector.n o) = 4%nat).
    { unfold StatCollector.wf in Hwf. rewrite Forall_lookup in Hwf. exact (Hwf lv o Ho). }
    rewrite (StatCollector_Add_Ok _ _ _ o) by (lia || assumption). simpl.
    rewrite (set_index_Ok _ _ _ s) by (lia || exact Hs). simpl.
    fold lv.
    match goal with |- context [output_changed turns same ?x] => set (st1 := x) end.
    destruct (IH turns st1) as (st' & Hrun & Hlv' & Hwf' & Hstr' & Hord').
    + simpl. lia.
    + lia.
    + simpl. rewrite length_insert. lia.
    + simpl. rewrite length_insert. lia.
    + unfold StatCollector.wf. simpl. apply Forall_insert; [exact Hwf|].
      apply StatCollector_bumped_wf. exact Hn.
    + intros i si Hi Hsi. simpl in Hi, Hsi.
      rewrite list_lookup_insert_ne in Hsi by lia. apply (Hcount i si); [lia|exact Hsi].
    + exists st'. split; [exact Hrun|]. split; [exact Hlv'|]. split; [exact Hwf'|].
      simpl in Hstr', Hord'. split.
      * intros i. rewrite Hstr'. unfold flushed.
        destruct (decide (i = lv)) as [->|Hne].
        -- rewrite list_lookup_insert_eq by lia. rewrite Hs. simpl.
           destruct (Z.leb_spec same (Z.of_nat lv)),
             (Z.leb_spec (Z.of_nat lv) (lower_valid st - 1)),
             (Z.leb_spec (Z.of_nat lv) (lower_valid st)); simpl; try lia; reflexivity.
        -- rewrite list_lookup_insert_ne by lia.
           destruct (Z.leb_spec same (Z.of_nat i)),
             (Z.leb_spec (Z.of_nat i) (lower_valid st - 1)),
             (Z.leb_spec (Z.of_nat i) (lower_valid st)); simpl; try lia; reflexivity.
      * intros i. rewrite Hord'. unfold fed.
        destruct (decide (i = lv)) as [->|Hne].
        -- rewrite !list_lookup_insert_eq by (rewrite ?length_insert; lia).
           rewrite Ho, Hs. simpl.
           destruct (Z.leb_spec same (Z.of_nat lv)),
             (Z.leb_spec (Z.of_nat lv) (lower_valid st - 1)),
             (Z.leb_spec (Z.of_nat lv) (lower_valid st)); simpl; try lia; reflexivity.
        -- rewrite !list_lookup_insert_ne by lia.
           destruct (Z.leb_spec same (Z.of_nat i)),
             (Z.leb_spec (Z.of_nat i) (lower_valid st - 1)),
             (Z.leb_spec (Z.of_nat i) (lower_valid st)); simpl; try lia; reflexivity.
Qed.


Lemma pointwise_imap {A : Type} (f : nat -> A -> A) (l l' : list A) :
  (forall i, l' !! i = f i <$> l !! i) -> l' = imap f l.
Proof.
  intros Hpt. apply list_eq. intros i. rewrite list_lookup_imap. apply Hpt.
Qed.

Lemma pointwise_length {A : Type} (f : nat -> A -> A) (l l' : list A) :
  (forall i, l' !! i = f i <$> l !! i) -> length l' = length l.
Proof.
  intros Hpt. rewrite (pointwise_imap f l l' Hpt). apply length_imap.
Qed.

Lemma increment_spec (same : Z) (st : state) :
  0 <= same <= Z.of_nat (length (streams st)) ->
  exists st',
    increment same st = Ok st' /\
    lower_valid st' = lower_valid st /\ stats st' = stats st /\
    (forall i, streams st' !! i
               = (fun s => if Z.of_nat i =? same - 1
                           then set_Count s (incr64 (Count (gram s))) else s)
                   <$> streams st !! i).
Proof.
  intros Hsame. unfold increment.
  destruct (Z.eqb_spec same 0) as [->|Hne].
  - exists st. repeat split. intros i.
    destruct (Z.eqb_spec (Z.of_nat i) (0 - 1)); [lia|].
    destruct (streams st !! i); reflexivity.
  - destruct (lookup_lt_is_Some_2 (streams st) (Z.to_nat (same - 1)) ltac:(lia)) as [s Hs].
    rewrite (proj2 (at_index_Ok _ _ s)) by (split; [lia|exact Hs]). simpl.
    rewrite (set_index_Ok _ _ _ s) by (lia || exact Hs). simpl.
    eexists. split; [reflexivity|]. repeat split. simpl. intros i.
    destruct (Z.eqb_spec (Z.of_nat i) (same - 1)) as [Hi|Hi].
    + replace (Z.to_nat (same - 1)) with i in * by lia.
      rewrite list_lookup_insert_eq by (eapply lookup_lt_Some; exact Hs).
      rewrite Hs. reflexivity.
    + rewrite list_lookup_insert_ne by lia. destruct (streams st !! i); reflexivity.
Qed.

Lemma open_next_Ok (full : NGram) (bos c : Z) (st : state) (i : nat) (s : NGramStream) :
  lower_valid st + 1 = Z.of_nat i -> streams st !! i = Some s ->
  length (words (gram s)) = length (drop (Z.to_nat bos) (words full)) ->
  open_next full bos c st =
  Ok {| streams := <[i := {| gram := {| words := drop (Z.to_nat bos) (words full);
                                        Count := c |};
                             sent := sent s |}]> (streams st);
        lower_valid := Z.of_nat i; stats := stats st |}.
Proof.
  intros Hi Hs Hlen. unfold open_next. rewrite Hi.
  rewrite (at_index_nat _ _ _ Hs). simpl.
  unfold std_copy. rewrite <- Hlen, Nat.leb_refl. simpl.
  rewrite (set_index_Ok _ _ _ s) by (rewrite ?Nat2Z.id; (lia || exact Hs)). simpl.
  rewrite Nat2Z.id, drop_all, app_nil_r. reflexivity.
Qed.

Lemma stop_from_le (full : NGram) (d : nat) : (stop_from full d <= d)%nat.
Proof.
  induction d as [|d IH]; simpl; [lia|].
  destruct (word full (Z.of_nat (S d)) =? kBOS); lia.
Qed.

(** Where the walk stops: on the first word or on the marker, with no marker
    in between. *)
Lemma stop_from_spec (full : NGram) (d : nat) :
  (stop_from full d = 0%nat \/
   (0 < stop_from full d)%nat /\ word full (Z.of_nat (stop_from full d)) = kBOS) /\
  (forall p : nat, (stop_from full d < p <= d)%nat -> word full (Z.of_nat p) <> kBOS).
Proof.
  induction d as [|d [IH1 IH2]]; simpl.
  - split; [left; reflexivity|]. intros p Hp. lia.
  - destruct (Z.eqb_spec (word full (Z.of_nat (S d))) kBOS) as [Heq|Hne].
    + split; [right; split; [lia|exact Heq]|]. intros p Hp. lia.
    + split; [exact IH1|]. intros p Hp.
      destruct (decide (p = S d)) as [->|Hp']; [exact Hne|]. apply IH2. lia.
Qed.

Lemma mark_valid_spec (full : NGram) :
  forall (d turns : nat) (st : state),
    (d < turns)%nat ->
    lower_valid st = Order full - 2 - Z.of_nat d ->
    Z.of_nat d <= Order full - 1 ->
    Z.of_nat (length (streams st)) = Order full - 1 ->
    (forall (i : nat) s, streams st !! i = Some s -> length (words (gram s)) = S i) ->
    exists st',
      mark_valid turns full (Z.of_nat d) st = Ok (Z.of_nat (stop_from full d), st') /\
      lower_valid st' = Order full - 2 - Z.of_nat (stop_from full d) /\
      stats st' = stats st /\
      (forall i, streams st' !! i = opened full (stop_from full d) d i <$> streams st !! i).
Proof.
  induction d as [|d IH]; intros turns st Hturns Hlv Hd Hlen Hwords.
  - destruct turns as [|turns]; [lia|]. simpl.
    exists st. repeat split; try assumption. intros i. unfold opened.
    destruct (Z.ltb_spec (Z.of_nat 0) (Order full - 1 - Z.of_nat i)),
      (Z.leb_spec (Order full - 1 - Z.of_nat i) (Z.of_nat 0)); simpl; try lia;
      destruct (streams st !! i); reflexivity.
  - destruct turns as [|turns]; [lia|].
    cbn [mark_valid stop_from].
    destruct (Z.ltb_spec 0 (Z.of_nat (S d))); [|lia].
    destruct (Z.eqb_spec (word full (Z.of_nat (S d))) kBOS) as [Heq|Hne]; cbn [negb andb].
    + exists st. repeat split; try assumption. intros i. unfold opened.
      destruct (Z.ltb_spec (Z.of_nat (S d)) (Order full - 1 - Z.of_nat i)),
        (Z.leb_spec (Order full - 1 - Z.of_nat i) (Z.of_nat (S d))); simpl; try lia;
        destruct (streams st !! i); reflexivity.
    + set (i0 := Z.to_nat (Order full - 2 - Z.of_nat d)).
      destruct (lookup_lt_is_Some_2 (streams st) i0 ltac:(lia)) as [s Hs].
      assert (Hdrop : length (words (gram s))
                      = length (drop (Z.to_nat (Z.of_nat (S d))) (words full))).
      { rewrite (Hwords i0 s Hs), length_drop. unfold Order in *. lia. }
      rewrite (open_next_Ok full _ 1 st i0 s ltac:(lia) Hs Hdrop). simpl.
      replace (Z.of_nat (S d) - 1) with (Z.of_nat d) by lia.
      match goal with |- context [mark_valid turns full _ ?x] => set (st1 := x) end.
      destruct (IH turns st1) as (st' & Hrun & Hlv' & Hstats' & Hstr').
      * lia.
      * simpl. lia.
      * lia.
      * simpl. rewrite length_insert. exact Hlen.
      * intros i si Hsi. simpl in Hsi.
        destruct (decide (i = i0)) as [->|Hi].
        -- rewrite list_lookup_insert_eq in Hsi by (eapply lookup_lt_Some; exact Hs).
           injection Hsi as <-. simpl. rewrite <- Hdrop. apply (Hwords i0 s Hs).
        -- rewrite list_lookup_insert_ne in Hsi by lia. apply (Hwords i si Hsi).
      * exists st'. split; [exact Hrun|]. split; [exact Hlv'|]. split; [exact Hstats'|].
        intros i. rewrite Hstr'. simpl. unfold opened.
        pose proof (stop_from_le full d) as Hb.
        destruct (decide (i = i0)) as [->|Hi].
        -- rewrite list_lookup_insert_eq by (eapply lookup_lt_Some; exact Hs).
           rewrite Hs. simpl.
           replace (Order full - 1 - Z.of_nat i0) with (Z.of_nat (S d)) by lia.
           destruct (Z.ltb_spec (Z.of_nat (stop_from full d)) (Z.of_nat (S d))); [|lia].
           destruct (Z.leb_spec (Z.of_nat (S d)) (Z.of_nat d)); [lia|].
           destruct (Z.leb_spec (Z.of_nat (S d)) (Z.of_nat (S d))); [|lia].
           reflexivity.
        -- rewrite list_lookup_insert_ne by lia.
           destruct (streams st !! i) as [si|]; [|reflexivity]. simpl. f_equal.
           destruct (Z.ltb_spec (Z.of_nat (stop_from full d)) (Order full - 1 - Z.of_nat i)),
             (Z.leb_spec (Order full - 1 - Z.of_nat i) (Z.of_nat d)),
             (Z.leb_spec (Order full - 1 - Z.of_nat i) (Z.of_nat (S d)));
             simpl; try lia; reflexivity.
Qed.


(** The body of the loop computes the steps of the general case. *)
Lemma body_spec (full : NGram) (st : state) :
  2 <= Order full ->
  wf (Order full) st = true ->
  nonzero_from (same_of full st) st = true ->
  1 <= Count full < two64 ->
  body full st = Ok (spec_body full st).
Proof.
  intros HN Hwf Hnz Hfull.
  apply wf_spec in Hwf as (Hlen & Hwords & Hlv & Hord & Hstats & Hrange).
  rewrite nonzero_from_spec in Hnz.
  set (lv := Z.to_nat (lower_valid st)).
  destruct (lookup_lt_is_Some_2 (streams st) lv ltac:(lia)) as [lower_last Hlast].
  unfold spec_body, stop_of. unfold same_of in *. fold lv in Hnz |- *.
  rewrite Hlast in *.
  set (same := matching_trailing full (gram lower_last)) in *.
  pose proof (matching_trailing_bounds full (gram lower_last)) as Hsame. fold same in Hsame.
  assert (Hlow : Order (gram lower_last) = Z.of_nat lv + 1).
  { unfold Order. rewrite (Hwords lv lower_last Hlast). lia. }
  assert (Hdiff : FindDifference full (gram lower_last) = Order full - 1 - same).
  { apply FindDifference_offset. lia. }
  unfold body.
  rewrite (proj2 (at_index_Ok _ _ lower_last)) by (split; [lia|exact Hlast]).
  cbn [rbind]. rewrite Hdiff.
  replace (Order full - 1 - (Order full - 1 - same)) with same by lia.
  (* the adjusted count of order [same] *)
  destruct (increment_spec same st ltac:(lia)) as (st1 & Hrun1 & Hlv1 & Hstats1 & Hstr1).
  rewrite Hrun1. cbn [rbind].
  pose proof (pointwise_length _ _ _ Hstr1) as Hlen1.
  assert (Hsame1 : forall i : nat, same <= Z.of_nat i -> streams st1 !! i = streams st !! i).
  { intros i Hi. rewrite Hstr1. destruct (Z.eqb_spec (Z.of_nat i) (same - 1)); [lia|].
    destruct (streams st !! i); reflexivity. }
  (* the open records above are published *)
  destruct (output_changed_spec same ltac:(lia) (Z.to_nat (lower_valid st + 1 - same))
              (S (length (streams st1))) st1) as (st2 & Hrun2 & Hlv2 & Hstats2 & Hstr2 & Hord2).
  { lia. } { lia. } { lia. } { rewrite Hstats1. lia. } { rewrite Hstats1. exact Hstats. }
  { intros i s Hi Hs. rewrite Hsame1 in Hs by lia. rewrite Hlv1 in Hi.
    pose proof (Hnz i s Hi Hs). pose proof (Hrange i s ltac:(lia) Hs). lia. }
  rewrite Hrun2. cbn [rbind]. rewrite Hlv1, Hstats1 in *.
  pose proof (pointwise_length _ _ _ Hstr2) as Hlen2.
  (* the walk toward the first word *)
  set (d := Z.to_nat (Order full - 1 - same)).
  replace (Order full - 1 - same) with (Z.of_nat d) by lia.
  destruct (mark_valid_spec full d (S (length (words full))) st2)
    as (st3 & Hrun3 & Hlv3 & Hstats3 & Hstr3).
  { unfold Order in *. lia. } { lia. } { lia. } { lia. }
  { intros i s Hs. rewrite Hstr2, Hstr1 in Hs.
    destruct (streams st !! i) as [s0|] eqn:Hs0; [|discriminate]. simpl in Hs.
    injection Hs as <-. pose proof (Hwords i s0 Hs0) as Hw. unfold flushed.
    destruct (Z.eqb_spec (Z.of_nat i) (same - 1)),
      ((same <=? Z.of_nat i) && (Z.of_nat i <=? lower_valid st)); simpl;
      rewrite ?length_replicate; exact Hw. }
  rewrite Hrun3. cbn [rbind].
  set (b := stop_from full d) in *.
  pose proof (stop_from_le full d) as Hb. fold b in Hb.
  pose proof (pointwise_length _ _ _ Hstr3) as Hlen3.
  (* the streams before the last statement *)
  assert (Hstr : forall i s, streams st !! i = Some s ->
            streams st3 !! i = Some (opened full b d i (flushed same (lower_valid st) i
              (if Z.of_nat i =? same - 1 then set_Count s (incr64 (Count (gram s))) else s)))).
  { intros i s Hs. rewrite Hstr3, Hstr2, Hstr1, Hs. reflexivity. }
  assert (Hnone : forall i, streams st !! i = None -> streams st3 !! i = None).
  { intros i Hs. rewrite Hstr3, Hstr2, Hstr1, Hs. reflexivity. }
  assert (Hfed : forall i, StatCollector.orders_ (stats st3) !! i
                   = fed same (lower_valid st) (streams st) i
                       <$> StatCollector.orders_ (stats st) !! i).
  { intros i. rewrite Hstats3, Hord2. destruct (StatCollector.orders_ (stats st) !! i); [|reflexivity].
    simpl. f_equal. unfold fed.
    destruct ((same <=? Z.of_nat i) && (Z.of_nat i <=? lower_valid st)) eqn:Hin; [|reflexivity].
    apply andb_true_iff in Hin as [Hin _]. rewrite Hsame1 by lia. reflexivity. }
  pose proof (pointwise_length _ _ _ Hfed) as Hlenord.
  clear Hstr1 Hstr2 Hstr3 Hord2 Hrun1 Hrun2 Hrun3 Hsame1.
  destruct st3 as [str3 lv3 stats3]. cbn [streams lower_valid stats] in *.
  destruct (Z.eqb_spec (Z.of_nat b) 0) as [Hb0|Hb0]; cbn [negb].
  - (* the walk reached the first word: AddFull *)
    set (last := Z.to_nat (Order full - 1)).
    destruct (lookup_lt_is_Some_2 (StatCollector.orders_ (stats st)) last ltac:(lia))
      as [o Ho].
    assert (Ho3 : StatCollector.orders_ stats3 !! last = Some o).
    { rewrite Hfed, Ho. simpl. f_equal. unfold fed.
      destruct (Z.leb_spec same (Z.of_nat last)), (Z.leb_spec (Z.of_nat last) (lower_valid st));
        simpl; try lia; reflexivity. }
    unfold StatCollector.AddFull. rewrite Hlenord, Hord.
    rewrite (StatCollector_Add_Ok _ _ _ o); try lia; try exact Ho3.
    2:{ unfold StatCollector.wf in Hstats. rewrite Forall_lookup in Hstats.
        exact (Hstats _ o Ho). }
    cbn [rbind lower_valid streams stats].
    destruct (Z.leb_spec 0 lv3); [|lia].
    f_equal. f_equal.
    + apply pointwise_imap. intros i.
      destruct (streams st !! i) as [s|] eqn:Hs; [|apply Hnone; exact Hs].
      rewrite (Hstr i s Hs). simpl. f_equal.
      apply lookup_lt_Some in Hs.
      unfold spec_stream, opened, flushed.
      destruct (Z.ltb_spec (Z.of_nat i) (same - 1)),
        (Z.eqb_spec (Z.of_nat i) (same - 1)),
        (Z.leb_spec same (Z.of_nat i)),
        (Z.leb_spec (Z.of_nat i) (lower_valid st)),
        (Z.ltb_spec (Z.of_nat b) (Order full - 1 - Z.of_nat i)),
        (Z.leb_spec (Order full - 1 - Z.of_nat i) (Z.of_nat d)),
        (Z.eqb_spec (Z.of_nat b) (Order full - 1 - Z.of_nat i));
        simpl; try lia; reflexivity.
    + lia.
    + f_equal. apply pointwise_imap. intros i. fold last.
      destruct (decide (i = last)) as [->|Hi].
      * rewrite list_lookup_insert_eq by (eapply lookup_lt_Some; exact Ho3).
        rewrite Ho. simpl. f_equal. unfold spec_slot.
        destruct (Z.leb_spec same (Z.of_nat last)),
          (Z.leb_spec (Z.of_nat last) (lower_valid st)),
          (Z.eqb_spec (Z.of_nat last) (Order full - 1)),
          (Z.eqb_spec (Z.of_nat b) 0);
          simpl; try lia; reflexivity.
      * rewrite list_lookup_insert_ne by lia. rewrite Hfed.
        destruct (StatCollector.orders_ (stats st) !! i) as [oi|]; [|reflexivity].
        simpl. f_equal. unfold spec_slot, fed.
        destruct ((same <=? Z.of_nat i) && (Z.of_nat i <=? lower_valid st)); [reflexivity|].
        destruct (Z.eqb_spec (Z.of_nat i) (Order full - 1)); [lia|]. reflexivity.
  - (* the walk stopped on the marker: the record at the marker *)
    set (i0 := Z.to_nat (Order full - 1 - Z.of_nat b)).
    destruct (lookup_lt_is_Some_2 (streams st) i0 ltac:(lia)) as [s0 Hs0].
    pose proof (Hstr i0 s0 Hs0) as Hs3.
    set (s3 := opened full b d i0 (flushed same (lower_valid st) i0
              (if Z.of_nat i0 =? same - 1 then set_Count s0 (incr64 (Count (gram s0))) else s0))) in *.
    assert (Hw3 : length (words (gram s3)) = length (drop (Z.to_nat (Z.of_nat b)) (words full))).
    { rewrite length_drop. pose proof (Hwords i0 s0 Hs0) as Hw.
      subst s3. unfold opened, flushed.
      destruct (Z.ltb_spec (Z.of_nat b) (Order full - 1 - Z.of_nat i0)); [lia|].
      cbn [andb]. unfold Order in *.
      destruct (Z.eqb_spec (Z.of_nat i0) (same - 1)),
        ((same <=? Z.of_nat i0) && (Z.of_nat i0 <=? lower_valid st)); simpl;
        rewrite ?length_replicate; lia. }
    rewrite (open_next_Ok full (Z.of_nat b) (Count full)
               {| streams := str3; lower_valid := lv3; stats := stats3 |} i0 s3
               ltac:(simpl; lia) Hs3 Hw3).
    cbn [rbind lower_valid streams stats].
    destruct (Z.leb_spec 0 (Z.of_nat i0)); [|lia].
    f_equal. f_equal.
    + apply pointwise_imap. intros i.
      destruct (decide (i = i0)) as [->|Hi].
      * rewrite list_lookup_insert_eq by (eapply lookup_lt_Some; exact Hs3).
        rewrite Hs0. simpl. f_equal. subst s3.
        unfold spec_stream, opened, flushed.
        destruct (Z.ltb_spec (Z.of_nat i0) (same - 1)),
          (Z.eqb_spec (Z.of_nat i0) (same - 1)),
          (Z.leb_spec same (Z.of_nat i0)),
          (Z.leb_spec (Z.of_nat i0) (lower_valid st)),
          (Z.ltb_spec (Z.of_nat b) (Order full - 1 - Z.of_nat i0)),
          (Z.leb_spec (Order full - 1 - Z.of_nat i0) (Z.of_nat d)),
          (Z.eqb_spec (Z.of_nat b) (Order full - 1 - Z.of_nat i0));
          simpl; try lia;
          replace (Z.to_nat (Order full - 1 - Z.of_nat i0)) with (Z.to_nat (Z.of_nat b)) by lia;
          reflexivity.
      * rewrite list_lookup_insert_ne by lia.
        destruct (streams st !! i) as [s|] eqn:Hs; [|apply Hnone; exact Hs].
        rewrite (Hstr i s Hs). simpl. f_equal.
        apply lookup_lt_Some in Hs.
        unfold spec_stream, opened, flushed.
        destruct (Z.ltb_spec (Z.of_nat i) (same - 1)),
          (Z.eqb_spec (Z.of_nat i) (same - 1)),
          (Z.leb_spec same (Z.of_nat i)),
          (Z.leb_spec (Z.of_nat i) (lower_valid st)),
          (Z.ltb_spec (Z.of_nat b) (Order full - 1 - Z.of_nat i)),
          (Z.leb_spec (Order full - 1 - Z.of_nat i) (Z.of_nat d)),
          (Z.eqb_spec (Z.of_nat b) (Order full - 1 - Z.of_nat i));
          simpl; try lia; reflexivity.
    + lia.
    + destruct stats3 as [ord3]. f_equal. apply pointwise_imap. intros i.
      cbn [StatCollector.orders_] in Hfed. rewrite Hfed.
      destruct (StatCollector.orders_ (stats st) !! i) as [oi|]; [|reflexivity].
      simpl. f_equal. unfold spec_slot, fed.
      destruct ((same <=? Z.of_nat i) && (Z.of_nat i <=? lower_valid st)); [reflexivity|].
      destruct (Z.eqb_spec (Z.of_nat b) 0); [lia|]. rewrite andb_false_r. reflexivity.
Qed.


Lemma counts_within_spec (lo hi : Z) (st : state) :
  counts_within lo hi st = true <->
  (forall (i : nat) s, Z.of_nat i <= lower_valid st -> streams st !! i = Some s ->
                       lo <= Count (gram s) <= hi).
Proof.
  unfold counts_within. rewrite all_from_spec. split.
  - intros Hall i s Hi Hs. specialize (Hall i s Hs). simpl in Hall.
    rewrite orb_true_iff, andb_true_iff in Hall. destruct Hall as [Hl|[Hl Hh]]; lia.
  - intros Hall i s Hs. simpl. rewrite orb_true_iff, andb_true_iff.
    destruct (Z.ltb_spec (lower_valid st) (Z.of_nat i)); [auto|].
    right. specialize (Hall i s ltac:(lia) Hs). split; lia.
Qed.

Lemma same_of_bounds (full : NGram) (st : state) :
  wf (Order full) st = true ->
  0 <= same_of full st <= lower_valid st + 1.
Proof.
  intros Hwf. apply wf_spec in Hwf as (Hlen & Hwords & Hlv & _).
  unfold same_of.
  destruct (streams st !! Z.to_nat (lower_valid st)) as [s|] eqn:Hs; [|lia].
  pose proof (matching_trailing_bounds full (gram s)) as Hb.
  assert (Order (gram s) = lower_valid st + 1); [|lia].
  unfold Order. rewrite (Hwords _ s Hs). lia.
Qed.

Lemma stop_of_bounds (full : NGram) (st : state) :
  wf (Order full) st = true ->
  0 <= stop_of full st <= Order full - 1 - same_of full st.
Proof.
  intros Hwf. pose proof (same_of_bounds full st Hwf) as Hs.
  apply wf_spec in Hwf as (_ & _ & Hlv & _).
  unfold stop_of.
  pose proof (stop_from_le full (Z.to_nat (Order full - 1 - same_of full st))). lia.
Qed.

(** The steps of the general case keep the shape of the state; in
    particular [lower_valid] stays on one of the streams. *)
Lemma spec_body_wf (full : NGram) (st : state) :
  2 <= Order full -> wf (Order full) st = true -> 1 <= Count full < two64 ->
  wf (Order full) (spec_body full st) = true.
Proof.
  intros HN Hwf Hfull.
  pose proof (same_of_bounds full st Hwf) as Hsame.
  pose proof (stop_of_bounds full st Hwf) as Hstop.
  pose proof Hwf as Hwf0.
  apply wf_spec in Hwf as (Hlen & Hwords & Hlv & Hord & Hstats & Hrange).
  apply wf_spec. unfold spec_body. cbn [streams lower_valid stats StatCollector.orders_].
  set (same := same_of full st) in *. set (b := stop_of full st) in *.
  rewrite !length_imap.
  assert (Hlv' : 0 <= Order full - 1 - (if b =? 0 then 1 else b) <= Order full - 2).
  { destruct (Z.eqb_spec b 0); lia. }
  split; [exact Hlen|]. split; [|split; [exact Hlv'|split; [exact Hord|split]]].
  - intros i s' Hs'. rewrite list_lookup_imap in Hs'.
    destruct (streams st !! i) as [s|] eqn:Hs; [|discriminate]. injection Hs' as <-.
    pose proof (Hwords i s Hs) as Hw. pose proof (lookup_lt_Some _ _ _ Hs) as Hi.
    unfold spec_stream.
    destruct (Z.of_nat i <? same - 1); [exact Hw|].
    destruct (Z.of_nat i =? same - 1); [exact Hw|].
    destruct (b <? Order full - 1 - Z.of_nat i);
      [simpl; rewrite length_drop; unfold Order in *; lia|].
    destruct (b =? Order full - 1 - Z.of_nat i);
      [simpl; rewrite length_drop; unfold Order in *; lia|].
    destruct (Z.of_nat i <=? lower_valid st); simpl; rewrite ?length_replicate; exact Hw.
  - unfold StatCollector.wf in *. cbn [StatCollector.orders_].
    rewrite Forall_lookup in Hstats |- *. intros i o' Ho'. rewrite list_lookup_imap in Ho'.
    destruct (StatCollector.orders_ (stats st) !! i) as [o|] eqn:Ho; [|discriminate].
    injection Ho' as <-. pose proof (Hstats i o Ho) as Hn. unfold spec_slot.
    destruct ((same <=? Z.of_nat i) && (Z.of_nat i <=? lower_valid st)).
    + destruct (streams st !! i); [apply StatCollector_bumped_wf|]; exact Hn.
    + destruct ((Z.of_nat i =? Order full - 1) && (b =? 0));
        [apply StatCollector_bumped_wf|]; exact Hn.
  - intros i s' Hi Hs'. rewrite list_lookup_imap in Hs'.
    destruct (streams st !! i) as [s|] eqn:Hs; [|discriminate]. injection Hs' as <-.
    unfold spec_stream.
    destruct (Z.ltb_spec (Z.of_nat i) (same - 1)); [apply (Hrange i s); [lia|exact Hs]|].
    destruct (Z.eqb_spec (Z.of_nat i) (same - 1)); [simpl; apply incr64_range|].
    destruct (Z.ltb_spec b (Order full - 1 - Z.of_nat i)); [simpl; unfold two64; lia|].
    destruct (Z.eqb_spec b (Order full - 1 - Z.of_nat i)); [simpl; lia|].
    destruct (Z.eqb_spec b 0); lia.
Qed.

(** The counts of the open records after the steps: each is one, the raw
    count of [full], or a former count with at most one added. *)
Lemma spec_body_counts (full : NGram) (st : state) (M : Z) :
  2 <= Order full -> wf (Order full) st = true ->
  1 <= Count full <= M + 1 -> M + 1 < two64 ->
  (forall (i : nat) s, Z.of_nat i <= lower_valid st -> streams st !! i = Some s ->
                       Count (gram s) <= M /\
                       (Z.of_nat i <> same_of full st - 1 -> 1 <= Count (gram s))) ->
  counts_within 1 (M + 1) (spec_body full st) = true.
Proof.
  intros HN Hwf Hfull HM Hcounts.
  pose proof (same_of_bounds full st Hwf) as Hsame.
  pose proof (stop_of_bounds full st Hwf) as Hstop.
  apply wf_spec in Hwf as (Hlen & Hwords & Hlv & Hord & Hstats & Hrange).
  apply counts_within_spec. unfold spec_body. cbn [streams lower_valid].
  set (same := same_of full st) in *. set (b := stop_of full st) in *.
  intros i s' Hi Hs'. rewrite list_lookup_imap in Hs'.
  destruct (streams st !! i) as [s|] eqn:Hs; [|discriminate]. injection Hs' as <-.
  unfold spec_stream.
  destruct (Z.ltb_spec (Z.of_nat i) (same - 1)).
  { destruct (Hcounts i s ltac:(lia) Hs) as [Hle Hge]. specialize (Hge ltac:(lia)). lia. }
  destruct (Z.eqb_spec (Z.of_nat i) (same - 1)).
  { destruct (Hcounts i s ltac:(lia) Hs) as [Hle _].
    pose proof (Hrange i s ltac:(lia) Hs). simpl. rewrite incr64_small by lia. lia. }
  destruct (Z.ltb_spec b (Order full - 1 - Z.of_nat i)); [simpl; lia|].
  destruct (Z.eqb_spec b (Order full - 1 - Z.of_nat i)); [simpl; lia|].
  destruct (Z.eqb_spec b 0); lia.
Qed.


Lemma NGramStreams_Init_lookup (n i : nat) :
  (i < n)%nat -> NGramStreams_Init n !! i = Some (NGramStream_new (S i)).
Proof.
  intros Hi. unfold NGramStreams_Init. rewrite list_lookup_fmap.
  rewrite lookup_seq_lt by exact Hi. reflexivity.
Qed.

Lemma NGramStreams_Init_length (n : nat) : length (NGramStreams_Init n) = n.
Proof. unfold NGramStreams_Init. rewrite length_map, length_seq. reflexivity. Qed.

Lemma initialize_spec (n : nat) (full : NGram) :
  initialize full (NGramStreams_Init (S n)) (StatCollector.new (S (S n)))
  = Ok (initial n full).
Proof. reflexivity. Qed.

Lemma initial_wf (n : nat) (full : NGram) :
  wf (Z.of_nat (S (S n))) (initial n full) = true.
Proof.
  apply wf_spec. unfold initial. cbn [streams lower_valid stats].
  rewrite length_insert, NGramStreams_Init_length.
  split; [lia|]. split; [|split; [lia|split; [|split]]].
  - intros i s Hs. destruct i as [|i].
    + simpl in Hs. injection Hs as <-. reflexivity.
    + rewrite list_lookup_insert_ne in Hs by lia.
      pose proof (lookup_lt_Some _ _ _ Hs) as Hi. rewrite NGramStreams_Init_length in Hi.
      rewrite NGramStreams_Init_lookup in Hs by exact Hi. injection Hs as <-.
      simpl. rewrite length_replicate. reflexivity.
  - unfold StatCollector.new. simpl. rewrite length_replicate. lia.
  - apply StatCollector_new_wf.
  - intros i s Hi Hs. replace i with 0%nat in Hs by lia. simpl in Hs.
    injection Hs as <-. simpl. unfold two64. lia.
Qed.

(** The unigram the loop starts from shares its word with the first N-gram. *)
Lemma initial_same (n : nat) (full : NGram) :
  1 <= Order full -> same_of full (initial n full) = 1.
Proof.
  intros HN. unfold same_of, initial. cbn [streams lower_valid]. simpl.
  unfold matching_trailing. cbn [gram words rev app].
  unfold word, Order in *.
  destruct (words full) as [|w ws] eqn:Hw using rev_ind; [simpl in HN; lia|].
  clear IHws. rewrite rev_app_distr. simpl.
  rewrite length_app. simpl.
  replace (Z.to_nat (Z.of_nat (length ws + 1) - 1)) with (length ws) by lia.
  rewrite nth_middle, Z.eqb_refl. destruct (rev ws); reflexivity.
Qed.

(** The loop over the N-grams after the first: each turn succeeds and keeps
    the shape of the state; the counts of the open records stay at least one
    and grow by at most one per turn. *)
Lemma foldM_body_invariant (N : Z) :
  2 <= N ->
  forall (records : list NGram) (M : Z) (st : state),
    wf N st = true -> counts_within 1 M st = true ->
    Forall (fun r => Order r = N /\ 1 <= Count r <= M) records ->
    M + Z.of_nat (length records) < two64 ->
    exists st',
      foldM body records st = Ok st' /\
      wf N st' = true /\ counts_within 1 (M + Z.of_nat (length records)) st' = true.
Proof.
  intros HN. induction records as [|r rest IH]; intros M st Hwf Hcounts Hrec HM.
  - exists st. simpl. rewrite Z.add_0_r. auto.
  - apply Forall_cons in Hrec as [[Hr Hc] Hrest]. subst N.
    pose proof Hcounts as Hcounts'. rewrite counts_within_spec in Hcounts'.
    simpl length in HM.
    assert (Hnz : nonzero_from (same_of r st) st = true).
    { apply nonzero_from_spec. intros i s Hi Hs. apply (Hcounts' i s); [lia|exact Hs]. }
    simpl foldM. rewrite body_spec by (assumption || lia). cbn [rbind].
    destruct (IH (M + 1) (spec_body r st)) as (st' & Hrun & Hwf' & Hcounts'').
    + apply spec_body_wf; (assumption || lia).
    + apply spec_body_counts; try (assumption || lia).
      intros i s Hi Hs. pose proof (Hcounts' i s Hi Hs). split; [lia|intros _; lia].
    + eapply Forall_impl; [exact Hrest|]. simpl. intros r' [Hr' Hc']. split; [exact Hr'|lia].
    + lia.
    + exists st'. split; [exact Hrun|]. split; [exact Hwf'|].
      replace (M + Z.of_nat (length (r :: rest)))
        with (M + 1 + Z.of_nat (length rest)) by (simpl length; lia).
      exact Hcounts''.
Qed.

(** The whole loop over the N-grams, from the initialization. *)
Lemma foldM_body_initial (n : nat) (full : NGram) (rest : list NGram) (B : Z) :
  Forall (fun r => Order r = Z.of_nat (S (S n)) /\ 1 <= Count r <= B) (full :: rest) ->
  B + Z.of_nat (length (full :: rest)) < two64 ->
  exists st',
    foldM body (full :: rest) (initial n full) = Ok st' /\
    wf (Z.of_nat (S (S n))) st' = true /\
    counts_within 1 (B + Z.of_nat (length (full :: rest))) st' = true.
Proof.
  intros Hrec HB. apply Forall_cons in Hrec as [[Hr Hc] Hrest].
  pose proof (initial_wf n full) as Hwf. rewrite <- Hr in Hwf.
  pose proof (initial_same n full ltac:(lia)) as Hsame.
  simpl length in HB.
  assert (Hnz : nonzero_from (same_of full (initial n full)) (initial n full) = true).
  { apply nonzero_from_spec. rewrite Hsame. intros i s Hi _. simpl in Hi. lia. }
  simpl foldM. rewrite body_spec by (assumption || lia). cbn [rbind].
  destruct (foldM_body_invariant (Z.of_nat (S (S n))) ltac:(lia) rest (B + 1)
              (spec_body full (initial n full))) as (st' & Hrun & Hwf' & Hcounts').
  - rewrite <- Hr. apply spec_body_wf; (assumption || lia).
  - apply spec_body_counts; try (assumption || lia).
    intros i s Hi Hs. simpl in Hi. replace i with 0%nat in * by lia. simpl in Hs.
    injection Hs as <-. simpl. split; [lia|]. rewrite Hsame. intros Hne. lia.
  - eapply Forall_impl; [exact Hrest|]. simpl. intros r' [Hr' Hc']. split; [exact Hr'|lia].
  - lia.
  - exists st'. split; [exact Hrun|]. split; [exact Hwf'|].
    replace (B + Z.of_nat (length (full :: rest)))
      with (B + 1 + Z.of_nat (length rest)) by (simpl length; lia).
    exact Hcounts'.
Qed.

(** The run reaches every N-gram: the loop body has answered [Ok] on the
    records before it, and the state it is then applied to has the shape
    [wf] and open counts the collector accepts. *)
Lemma state_before_record (n : nat) (full : NGram) (rest : list NGram) (B : Z)
    (k : nat) (r : NGram) :
  Forall (fun r => Order r = Z.of_nat (S (S n)) /\ 1 <= Count r <= B) (full :: rest) ->
  B + Z.of_nat (length (full :: rest)) < two64 ->
  (full :: rest) !! k = Some r ->
  exists st,
    foldM body (take k (full :: rest)) (initial n full) = Ok st /\
    2 <= Order r /\ wf (Order r) st = true /\
    nonzero_from (same_of r st) st = true /\ 1 <= Count r < two64.
Proof.
  intros Hrec HB Hk.
  assert (Hr : Order r = Z.of_nat (S (S n)) /\ 1 <= Count r <= B).
  { rewrite Forall_lookup in Hrec. exact (Hrec k r Hk). }
  destruct Hr as [Hr Hc]. simpl length in HB.
  destruct k as [|k].
  - simpl in Hk. injection Hk as <-. exists (initial n full).
    split; [reflexivity|]. split; [lia|]. rewrite Hr.
    split; [apply initial_wf|]. split; [|lia].
    apply nonzero_from_spec. rewrite initial_same by lia.
    intros i s Hi _. simpl in Hi. lia.
  - destruct (foldM_body_initial n full (take k rest) B) as (st & Hrun & Hwf & Hcounts).
    { apply Forall_cons in Hrec as [Hf Hrest]. constructor; [exact Hf|].
      apply Forall_take. exact Hrest. }
    { simpl length. rewrite length_take. lia. }
    exists st. split; [exact Hrun|]. split; [lia|]. rewrite Hr.
    split; [exact Hwf|]. split; [|lia].
    rewrite counts_within_spec in Hcounts. apply nonzero_from_spec.
    intros i s Hi Hs. pose proof (Hcounts i s ltac:(lia) Hs). lia.
Qed.


(** C1: in the general case, for every maximum-order record [full] the
    driver processes (the [k]-th of a run over N-grams with raw counts
    between 1 and [B]; [st] is the state the run has reached before it), with
    [same] the number of trailing words [full] shares with the highest open
    lower-order record: if [same > 0] the count
    of the open record of order [same] is incremented by exactly 1; exactly
    the open records of order above [same] are finalized, that is, their
    count is added to the collector under the slot of their order, they are
    published on the channel of their order and closed (the stream is no
    longer open, or holds a record newly opened from [full]); the open records
    of order at most [same], the incremented one apart, are unchanged. *)
Theorem body_adjusts_and_finalizes (n : nat) (first : NGram) (rest : list NGram)
    (B : Z) (k : nat) (full : NGram) :
  Forall (fun r => Order r = Z.of_nat (S (S n)) /\ 1 <= Count r <= B) (first :: rest) ->
  B + Z.of_nat (length (first :: rest)) < two64 ->
  (first :: rest) !! k = Some full ->
  exists st,
  foldM body (take k (first :: rest)) (initial n first) = Ok st /\
  let same := same_of full st in
  let lv := lower_valid st in
  let finalized := fun i : nat => (same <=? Z.of_nat i) && (Z.of_nat i <=? lv) in
  exists st',
    body full st = Ok st' /\
    (0 < same ->
     exists s s',
       streams st !! Z.to_nat (same - 1) = Some s /\
       streams st' !! Z.to_nat (same - 1) = Some s' /\
       words (gram s') = words (gram s) /\ sent s' = sent s /\
       Count (gram s') = incr64 (Count (gram s)) /\
       (Count (gram s) < two64 - 1 -> Count (gram s') = Count (gram s) + 1)) /\
    (forall (i : nat) s, streams st !! i = Some s ->
       exists s',
         streams st' !! i = Some s' /\
         sent s' = (if finalized i then sent s ++ [Entry (gram s)] else sent s) /\
         (finalized i = true ->
          lower_valid st' < Z.of_nat i \/
          words (gram s') = drop (Z.to_nat (Order full - 1 - Z.of_nat i)) (words full))) /\
    (forall (i : nat) o s,
       Z.of_nat i < Order full - 1 ->
       StatCollector.orders_ (stats st) !! i = Some o -> streams st !! i = Some s ->
       StatCollector.orders_ (stats st') !! i
       = Some (if finalized i then StatCollector.bumped o (Count (gram s)) else o)) /\
    (forall i : nat, Z.of_nat i < same - 1 -> streams st' !! i = streams st !! i).
Proof.
  intros Hrec HB Hk.
  destruct (state_before_record n first rest B k full Hrec HB Hk)
    as (st & Hrun & HN & Hwf & Hnz & Hfull).
  exists st. split; [exact Hrun|]. clear Hrec HB Hk Hrun.
  intros same lv finalized.
  exists (spec_body full st). split; [apply body_spec; assumption|].
  pose proof (same_of_bounds full st Hwf) as Hsame.
  pose proof (stop_of_bounds full st Hwf) as Hstop.
  apply wf_spec in Hwf as (Hlen & Hwords & Hlv & Hord & Hstats & Hrange).
  fold same lv in Hsame, Hstop, Hlv.
  unfold spec_body. cbn [streams lower_valid stats StatCollector.orders_].
  fold same lv. set (b := stop_of full st) in *.
  split; [|split; [|split]].
  - intros Hpos.
    destruct (lookup_lt_is_Some_2 (streams st) (Z.to_nat (same - 1)) ltac:(lia)) as [s Hs].
    exists s. eexists. split; [exact Hs|]. rewrite list_lookup_imap, Hs. simpl.
    split; [reflexivity|]. unfold spec_stream.
    destruct (Z.ltb_spec (Z.of_nat (Z.to_nat (same - 1))) (same - 1)); [lia|].
    destruct (Z.eqb_spec (Z.of_nat (Z.to_nat (same - 1))) (same - 1)); [|lia].
    simpl. repeat split. intros Hsmall. apply incr64_small.
    pose proof (Hrange (Z.to_nat (same - 1)) s ltac:(lia) Hs). lia.
  - intros i s Hs. eexists. rewrite list_lookup_imap, Hs. simpl.
    split; [reflexivity|]. pose proof (lookup_lt_Some _ _ _ Hs) as Hi.
    unfold spec_stream, finalized.
    destruct (Z.ltb_spec (Z.of_nat i) (same - 1)),
      (Z.eqb_spec (Z.of_nat i) (same - 1)),
      (Z.leb_spec same (Z.of_nat i)),
      (Z.leb_spec (Z.of_nat i) lv),
      (Z.ltb_spec b (Order full - 1 - Z.of_nat i)),
      (Z.eqb_spec b (Order full - 1 - Z.of_nat i)),
      (Z.eqb_spec b 0);
      simpl; try lia; (split; [reflexivity|]); intros; try discriminate; try lia; auto.
  - intros i o s Hi Ho Hs. rewrite list_lookup_imap, Ho. simpl. f_equal.
    unfold spec_slot, finalized. rewrite Hs.
    destruct ((same <=? Z.of_nat i) && (Z.of_nat i <=? lv)); [reflexivity|].
    destruct (Z.eqb_spec (Z.of_nat i) (Order full - 1)); [lia|]. reflexivity.
  - intros i Hi. rewrite list_lookup_imap. destruct (streams st !! i); [|reflexivity].
    simpl. f_equal. unfold spec_stream.
    destruct (Z.ltb_spec (Z.of_nat i) (same - 1)); [reflexivity|lia].
Qed.

(** C2: for every maximum-order record [full] the driver processes in the
    general case (the [k]-th of a run over N-grams with raw counts between 1
    and [B]; [st] is the state the run has reached before it), the walk
    backward from the divergence point toward the first word of [full] opens
    a record of count 1 at each word it passes, until it reaches the
    sentence-start marker or the first word.  If it meets the marker strictly
    before the first word, the record opened at the marker takes the raw
    count of [full] and the last slot of the collector is left as it was (no
    [AddFull]); if it reaches the first word, the raw count of [full] is
    added to the last slot ([AddFull]) and every record opened has count 1. *)
Theorem body_opens_up_to_marker (n : nat) (first : NGram) (rest : list NGram)
    (B : Z) (k : nat) (full : NGram) :
  Forall (fun r => Order r = Z.of_nat (S (S n)) /\ 1 <= Count r <= B) (first :: rest) ->
  B + Z.of_nat (length (first :: rest)) < two64 ->
  (first :: rest) !! k = Some full ->
  exists st,
  foldM body (take k (first :: rest)) (initial n first) = Ok st /\
  let N := Order full in
  let different := N - 1 - same_of full st in
  let b := stop_of full st in
  exists st',
    body full st = Ok st' /\
    0 <= b <= different /\
    (forall p : nat, b < Z.of_nat p <= different -> word full (Z.of_nat p) <> kBOS) /\
    (forall p : nat, b < Z.of_nat p <= different ->
       exists s',
         streams st' !! Z.to_nat (N - 1 - Z.of_nat p) = Some s' /\
         gram s' = {| words := drop p (words full); Count := 1 |}) /\
    (0 < b ->
     word full b = kBOS /\
     lower_valid st' = N - 1 - b /\
     (exists s',
        streams st' !! Z.to_nat (N - 1 - b) = Some s' /\
        gram s' = {| words := drop (Z.to_nat b) (words full); Count := Count full |}) /\
     StatCollector.orders_ (stats st') !! Z.to_nat (N - 1)
     = StatCollector.orders_ (stats st) !! Z.to_nat (N - 1)) /\
    (b = 0 ->
     lower_valid st' = N - 2 /\
     exists o,
       StatCollector.orders_ (stats st) !! Z.to_nat (N - 1) = Some o /\
       StatCollector.orders_ (stats st') !! Z.to_nat (N - 1)
       = Some (StatCollector.bumped o (Count full))).
Proof.
  intros Hrec HB Hk.
  destruct (state_before_record n first rest B k full Hrec HB Hk)
    as (st & Hrun & HN & Hwf & Hnz & Hfull).
  exists st. split; [exact Hrun|]. clear Hrec HB Hk Hrun.
  intros N different b.
  exists (spec_body full st). split; [apply body_spec; assumption|].
  pose proof (same_of_bounds full st Hwf) as Hsame.
  pose proof (stop_of_bounds full st Hwf) as Hstop.
  apply wf_spec in Hwf as (Hlen & Hwords & Hlv & Hord & Hstats & Hrange).
  fold N in Hlen, Hlv, Hord, Hstop, Hsame. fold b different in Hstop.
  destruct (stop_from_spec full (Z.to_nat different)) as [Hstopped Hnone].
  assert (Hbeq : b = Z.of_nat (stop_from full (Z.to_nat different))) by reflexivity.
  unfold spec_body. cbn [streams lower_valid stats StatCollector.orders_].
  fold b. set (same := same_of full st) in *.
  split; [exact Hstop|]. split; [|split; [|split]].
  - intros p Hp. apply Hnone. lia.
  - intros p Hp.
    destruct (lookup_lt_is_Some_2 (streams st) (Z.to_nat (N - 1 - Z.of_nat p)) ltac:(lia))
      as [s Hs].
    eexists. rewrite list_lookup_imap, Hs. simpl. split; [reflexivity|].
    unfold spec_stream. fold N.
    destruct (Z.ltb_spec (Z.of_nat (Z.to_nat (N - 1 - Z.of_nat p))) (same - 1)); [lia|].
    destruct (Z.eqb_spec (Z.of_nat (Z.to_nat (N - 1 - Z.of_nat p))) (same - 1)); [lia|].
    destruct (Z.ltb_spec b (N - 1 - Z.of_nat (Z.to_nat (N - 1 - Z.of_nat p)))); [|lia].
    simpl. do 2 f_equal. lia.
  - intros Hb. destruct (Z.eqb_spec b 0); [lia|].
    split; [|split; [lia|split]].
    + destruct Hstopped as [H0|[_ Hk]].
      * lia.
      * rewrite Hbeq. exact Hk.
    + destruct (lookup_lt_is_Some_2 (streams st) (Z.to_nat (N - 1 - b)) ltac:(lia))
        as [s Hs].
      eexists. rewrite list_lookup_imap, Hs. simpl. split; [reflexivity|].
      unfold spec_stream. fold N.
      destruct (Z.ltb_spec (Z.of_nat (Z.to_nat (N - 1 - b))) (same - 1)); [lia|].
      destruct (Z.eqb_spec (Z.of_nat (Z.to_nat (N - 1 - b))) (same - 1)); [lia|].
      destruct (Z.ltb_spec b (N - 1 - Z.of_nat (Z.to_nat (N - 1 - b)))); [lia|].
      destruct (Z.eqb_spec b (N - 1 - Z.of_nat (Z.to_nat (N - 1 - b)))); [|lia].
      simpl. do 2 f_equal. lia.
    + rewrite list_lookup_imap.
      destruct (StatCollector.orders_ (stats st) !! Z.to_nat (N - 1)); [|reflexivity].
      simpl. f_equal. unfold spec_slot.
      destruct (Z.leb_spec same (Z.of_nat (Z.to_nat (N - 1)))),
        (Z.leb_spec (Z.of_nat (Z.to_nat (N - 1))) (lower_valid st)),
        (Z.eqb_spec b 0); simpl; try lia; rewrite ?andb_false_r; reflexivity.
  - intros Hb. destruct (Z.eqb_spec b 0); [|lia]. split; [lia|].
    destruct (lookup_lt_is_Some_2 (StatCollector.orders_ (stats st)) (Z.to_nat (N - 1))
                ltac:(lia)) as [o Ho].
    exists o. split; [exact Ho|]. rewrite list_lookup_imap, Ho. simpl. f_equal.
    unfold spec_slot. fold N.
    destruct (Z.leb_spec same (Z.of_nat (Z.to_nat (N - 1)))),
      (Z.leb_spec (Z.of_nat (Z.to_nat (N - 1))) (lower_valid st)),
      (Z.eqb_spec (Z.of_nat (Z.to_nat (N - 1))) (N - 1)),
      (Z.eqb_spec b 0); simpl; try lia; reflexivity.
Qed.


(** C10: in the general case, after the body of the loop has processed each
    maximum-order record, [lower_valid] points at or above the unigram stream
    and below the end of the streams, so that at least one lower-order record
    is open: the assertion does not fire (the body answers [Ok]) and the
    final loop over [streams.begin() .. lower_valid] stays inside the array.
    Stated for the run from the initialization over any nonempty prefix of
    the N-grams, whose raw counts are between 1 and [B]. *)
Theorem lower_valid_stays_on_a_stream (n : nat) (full : NGram) (rest : list NGram)
    (B : Z) (k : nat) :
  Forall (fun r => Order r = Z.of_nat (S (S n)) /\ 1 <= Count r <= B) (full :: rest) ->
  B + Z.of_nat (length (full :: rest)) < two64 ->
  exists st0 st',
    initialize full (NGramStreams_Init (S n)) (StatCollector.new (S (S n))) = Ok st0 /\
    foldM body (take (S k) (full :: rest)) st0 = Ok st' /\
    0 <= lower_valid st' <= Z.of_nat (S (S n)) - 2 /\
    is_Some (streams st' !! Z.to_nat (lower_valid st')) /\
    (forall s : Z, 0 <= s <= lower_valid st' -> exists str, at_index (streams st') s = Ok str).
Proof.
  intros Hrec HB. exists (initial n full).
  destruct (foldM_body_initial n full (take k rest) B) as (st' & Hrun & Hwf & _).
  { apply Forall_cons in Hrec as [Hr Hrest]. constructor; [exact Hr|].
    apply Forall_take. exact Hrest. }
  { simpl length in *. rewrite length_take. lia. }
  exists st'. split; [apply initialize_spec|]. split; [exact Hrun|].
  apply wf_spec in Hwf as (Hlen & _ & Hlv & _). split; [exact Hlv|].
  split.
  - apply lookup_lt_is_Some_2. lia.
  - intros s Hs. destruct (lookup_lt_is_Some_2 (streams st') (Z.to_nat s) ltac:(lia)) as [str Hstr].
    exists str. apply at_index_Ok. split; [lia|exact Hstr].
Qed.


Lemma unpoisoned_spec (strs : list NGramStream) :
  unpoisoned strs = true <->
  (forall (i : nat) s, strs !! i = Some s -> forallb is_Entry (sent s) = true).
Proof.
  unfold unpoisoned. rewrite forallb_forall. split.
  - intros Hall i s Hs. apply Hall. apply list_elem_of_In.
    apply list_elem_of_lookup. exists i. exact Hs.
  - intros Hall s Hs. apply list_elem_of_In, list_elem_of_lookup in Hs as [i Hi].
    exact (Hall i s Hi).
Qed.

(** The steps of the general case send no end-of-data signal. *)
Lemma spec_body_unpoisoned (full : NGram) (st : state) :
  unpoisoned (streams st) = true -> unpoisoned (streams (spec_body full st)) = true.
Proof.
  rewrite !unpoisoned_spec. intros Hall i s' Hs'.
  unfold spec_body in Hs'. cbn [streams] in Hs'. rewrite list_lookup_imap in Hs'.
  destruct (streams st !! i) as [s|] eqn:Hs; [|discriminate]. injection Hs' as <-.
  specialize (Hall i s Hs). unfold spec_stream.
  destruct (Z.of_nat i <? same_of full st - 1); [exact Hall|].
  destruct (Z.of_nat i =? same_of full st - 1); [exact Hall|].
  assert (Hnext : forallb is_Entry
                    (sent (if Z.of_nat i <=? lower_valid st then NGramStream_next s else s))
                  = true).
  { destruct (Z.of_nat i <=? lower_valid st); [|exact Hall].
    simpl. rewrite forallb_app, Hall. reflexivity. }
  destruct (stop_of full st <? Order full - 1 - Z.of_nat i); [exact Hnext|].
  destruct (stop_of full st =? Order full - 1 - Z.of_nat i); exact Hnext.
Qed.

Lemma foldM_body_unpoisoned (N : Z) :
  2 <= N ->
  forall (records : list NGram) (M : Z) (st st' : state),
    wf N st = true -> counts_within 1 M st = true ->
    Forall (fun r => Order r = N /\ 1 <= Count r <= M) records ->
    M + Z.of_nat (length records) < two64 ->
    unpoisoned (streams st) = true ->
    foldM body records st = Ok st' -> unpoisoned (streams st') = true.
Proof.
  intros HN. induction records as [|r rest IH]; intros M st st' Hwf Hcounts Hrec HM Hun Hrun.
  - simpl in Hrun. injection Hrun as <-. exact Hun.
  - apply Forall_cons in Hrec as [[Hr Hc] Hrest]. subst N.
    pose proof Hcounts as Hcounts'. rewrite counts_within_spec in Hcounts'.
    simpl length in HM.
    assert (Hnz : nonzero_from (same_of r st) st = true).
    { apply nonzero_from_spec. intros i s Hi Hs. apply (Hcounts' i s); [lia|exact Hs]. }
    simpl foldM in Hrun. rewrite body_spec in Hrun by (assumption || lia).
    cbn [rbind] in Hrun.
    apply (IH (M + 1) (spec_body r st) st'); try assumption.
    + apply spec_body_wf; (assumption || lia).
    + apply spec_body_counts; try (assumption || lia).
      intros i s Hi Hs. pose proof (Hcounts' i s Hi Hs). split; [lia|intros _; lia].
    + eapply Forall_impl; [exact Hrest|]. simpl. intros r' [Hr' Hc']. split; [exact Hr'|lia].
    + lia.
    + apply spec_body_unpoisoned. exact Hun.
Qed.

(** The loop that outputs everything valid, from stream [s0] upward. *)
Lemma output_valid_spec :
  forall (k turns : nat) (s0 : Z) (st : state),
    0 <= s0 -> lower_valid st + 1 = s0 + Z.of_nat k ->
    (k < turns)%nat ->
    lower_valid st < Z.of_nat (length (streams st)) ->
    lower_valid st < Z.of_nat (length (StatCollector.orders_ (stats st))) ->
    StatCollector.wf (stats st) ->
    (forall (i : nat) s, s0 <= Z.of_nat i <= lower_valid st ->
                         streams st !! i = Some s -> 1 <= Count (gram s) < two64) ->
    exists st',
      output_valid turns s0 st = Ok st' /\
      lower_valid st' = lower_valid st /\
      (forall i, streams st' !! i = flushed s0 (lower_valid st) i <$> streams st !! i) /\
      (forall i, StatCollector.orders_ (stats st') !! i
                 = fed s0 (lower_valid st) (streams st) i
                     <$> StatCollector.orders_ (stats st) !! i).
Proof.
  induction k as [|k IH]; intros turns s0 st Hs0 Hlv Hturns Hstr Hord Hwf Hcount.
  - destruct turns as [|turns]; [lia|]. simpl.
    destruct (Z.leb_spec s0 (lower_valid st)); [lia|].
    exists st. repeat split.
    + intros i. unfold flushed.
      destruct (Z.leb_spec s0 (Z.of_nat i)), (Z.leb_spec (Z.of_nat i) (lower_valid st));
        simpl; try lia; destruct (streams st !! i); reflexivity.
    + intros i. unfold fed.
      destruct (Z.leb_spec s0 (Z.of_nat i)), (Z.leb_spec (Z.of_nat i) (lower_valid st));
        simpl; try lia; destruct (StatCollector.orders_ (stats st) !! i); reflexivity.
  - destruct turns as [|turns]; [lia|]. simpl.
    destruct (Z.leb_spec s0 (lower_valid st)); [|lia].
    set (j := Z.to_nat s0).
    assert (Hj : s0 = Z.of_nat j) by lia.
    destruct (lookup_lt_is_Some_2 (streams st) j ltac:(lia)) as [s Hs].
    destruct (lookup_lt_is_Some_2 (StatCollector.orders_ (stats st)) j ltac:(lia)) as [o Ho].
    rewrite (proj2 (at_index_Ok _ _ s)) by (split; [lia|exact Hs]). simpl.
    pose proof (Hcount j s ltac:(lia) Hs) as Hc.
    assert (Hn : length (StatCollector.n o) = 4%nat).
    { unfold StatCollector.wf in Hwf. rewrite Forall_lookup in Hwf. exact (Hwf j o Ho). }
    rewrite (StatCollector_Add_Ok _ _ _ o) by (lia || assumption). simpl.
    rewrite (set_index_Ok _ _ _ s) by (lia || exact Hs). simpl.
    fold j.
    match goal with |- context [output_valid turns (s0 + 1) ?x] => set (st1 := x) end.
    destruct (IH turns (s0 + 1) st1) as (st' & Hrun & Hlv' & Hstr' & Hord').
    + lia.
    + simpl. lia.
    + lia.
    + simpl. rewrite length_insert. lia.
    + simpl. rewrite length_insert. lia.
    + unfold StatCollector.wf. simpl. apply Forall_insert; [exact Hwf|].
      apply StatCollector_bumped_wf. exact Hn.
    + intros i si Hi Hsi. simpl in Hi, Hsi.
      rewrite list_lookup_insert_ne in Hsi by lia. apply (Hcount i si); [lia|exact Hsi].
    + exists st'. split; [exact Hrun|]. split; [exact Hlv'|].
      simpl in Hstr', Hord'. split.
      * intros i. rewrite Hstr'. unfold flushed.
        destruct (decide (i = j)) as [->|Hne].
        -- rewrite list_lookup_insert_eq by lia. rewrite Hs. simpl.
           destruct (Z.leb_spec (s0 + 1) (Z.of_nat j)),
             (Z.leb_spec s0 (Z.of_nat j)),
             (Z.leb_spec (Z.of_nat j) (lower_valid st)); simpl; try lia; reflexivity.
        -- rewrite list_lookup_insert_ne by lia.
           destruct (Z.leb_spec (s0 + 1) (Z.of_nat i)),
             (Z.leb_spec s0 (Z.of_nat i)),
             (Z.leb_spec (Z.of_nat i) (lower_valid st)); simpl; try lia; reflexivity.
      * intros i. rewrite Hord'. unfold fed.
        destruct (decide (i = j)) as [->|Hne].
        -- rewrite !list_lookup_insert_eq by (rewrite ?length_insert; lia).
           rewrite Ho, Hs. simpl.
           destruct (Z.leb_spec (s0 + 1) (Z.of_nat j)),
             (Z.leb_spec s0 (Z.of_nat j)),
             (Z.leb_spec (Z.of_nat j) (lower_valid st)); simpl; try lia; reflexivity.
        -- rewrite !list_lookup_insert_ne by lia.
           destruct (Z.leb_spec (s0 + 1) (Z.of_nat i)),
             (Z.leb_spec s0 (Z.of_nat i)),
             (Z.leb_spec (Z.of_nat i) (lower_valid st)); simpl; try lia; reflexivity.
Qed.


(** The statements after the loop: every open record is added to the
    collector and published, then every channel is poisoned. *)
Lemma finish_spec (N M : Z) (full : CollapseStream.t) (st : state) :
  wf N st = true -> counts_within 1 M st = true -> M < two64 ->
  exists out,
    finish full st = Ok out /\
    ngrams out = passed (CollapseStream.block_ full) /\
    length (lower out) = length (streams st) /\
    (forall (i : nat) s, streams st !! i = Some s ->
       exists s',
         lower out !! i = Some s' /\
         sent s' = sent s
                   ++ (if Z.of_nat i <=? lower_valid st then [Entry (gram s)] else [])
                   ++ [Poison]).
Proof.
  intros Hwf Hcounts HM.
  apply wf_spec in Hwf as (Hlen & Hwords & Hlv & Hord & Hstats & Hrange).
  rewrite counts_within_spec in Hcounts.
  destruct (output_valid_spec (Z.to_nat (lower_valid st + 1)) (S (length (streams st))) 0 st)
    as (st' & Hrun & Hlv' & Hstr' & Hord'); try lia; try assumption.
  { intros i s Hi Hs. pose proof (Hcounts i s ltac:(lia) Hs). lia. }
  unfold finish. rewrite Hrun. cbn [rbind]. unfold complete.
  destruct (StatCollector.Complete (stats st')) as [counts discounts].
  eexists. split; [reflexivity|]. cbn [ngrams lower].
  split; [reflexivity|]. split.
  - rewrite length_map. apply (pointwise_length _ _ _ Hstr').
  - intros i s Hs. rewrite list_lookup_fmap, Hstr', Hs. simpl.
    eexists. split; [reflexivity|]. unfold flushed, NGramStream_Poison. simpl.
    destruct (Z.leb_spec 0 (Z.of_nat i)); [|lia]. simpl.
    destruct (Z.of_nat i <=? lower_valid st); simpl; rewrite <- ?app_assoc; reflexivity.
Qed.

(** [Run] over a chain that carries at least one N-gram is the
    initialization, the loop body over every record of the chain in order,
    and the statements after the loop. *)
Lemma Run_unfold (n : nat) (input : list Block) (full : NGram) (rest : list NGram) :
  Forall (CollapseStream.exact (Z.of_nat (S (S n)))) input ->
  concat (map mem input) = full :: rest ->
  exists cs' bs',
    CollapseStream.valid cs' = false /\
    passed (CollapseStream.block_ cs') = bs' /\
    Forall2 (CollapseStream.compacted (Z.of_nat (S (S n)))) input bs' /\
    Run (S (S n)) input =
    let* st := foldM body (full :: rest) (initial n full) in finish cs' st.
Proof.
  intros Hex Hrec.
  destruct (for_each_chain body (Z.of_nat (S (S n))) ltac:(lia) input [] 0 0 Hex)
    as (cs' & bs' & Hv & Hp & Hc & Hloop).
  exists cs', bs'. split; [exact Hv|]. split; [exact Hp|]. split; [exact Hc|].
  destruct (StartBlock_first (Z.of_nat (S (S n))) 0 0 full rest ltac:(lia) input []
              Hex Hrec) as [Hvalid Hderef].
  unfold Run. rewrite new_StartBlock, Hvalid, Hderef. cbn [negb].
  rewrite initialize_spec. cbn [rbind].
  rewrite entries_exact by (lia || exact Hex).
  rewrite Hloop, Hrec.
  destruct (foldM body (full :: rest) (initial n full)); reflexivity.
Qed.

(** The general path of [Run]: with at least one N-gram, raw counts between 1
    and [B] and no 64-bit overflow in sight, the run completes; every
    lower-order channel carries its records followed by exactly one
    end-of-data signal, and the chain of the N-grams is handed on compacted. *)
Lemma Run_general (n : nat) (input : list Block) (B : Z) :
  Forall (CollapseStream.exact (Z.of_nat (S (S n)))) input ->
  concat (map mem input) <> [] ->
  Forall (fun r => Order r = Z.of_nat (S (S n)) /\ 1 <= Count r <= B)
         (concat (map mem input)) ->
  B + Z.of_nat (length (concat (map mem input))) < two64 ->
  exists out,
    Run (S (S n)) input = Ok out /\
    length (lower out) = S n /\
    Forall2 (CollapseStream.compacted (Z.of_nat (S (S n)))) input (ngrams out) /\
    (forall (i : nat) s, lower out !! i = Some s ->
       exists entries, sent s = map Entry entries ++ [Poison]).
Proof.
  intros Hex Hne Hrec HB.
  destruct (concat (map mem input)) as [|full rest] eqn:Hrecords; [congruence|].
  destruct (Run_unfold n input full rest Hex Hrecords) as (cs' & bs' & Hv & Hp & Hc & Hrun).
  destruct (foldM_body_initial n full rest B Hrec HB) as (st & Hloop & Hwf & Hcounts).
  assert (Hun : unpoisoned (streams st) = true).
  { apply Forall_cons in Hrec as [[Hr Hcr] Hrest].
    pose proof (initial_wf n full) as Hwf0. rewrite <- Hr in Hwf0.
    pose proof (initial_same n full ltac:(lia)) as Hsame.
    simpl foldM in Hloop. simpl length in HB.
    assert (Hnz : nonzero_from (same_of full (initial n full)) (initial n full) = true).
    { apply nonzero_from_spec. rewrite Hsame. intros i s Hi _. simpl in Hi. lia. }
    rewrite body_spec in Hloop by (assumption || lia). cbn [rbind] in Hloop.
    apply (foldM_body_unpoisoned (Z.of_nat (S (S n))) ltac:(lia) rest (B + 1)
             (spec_body full (initial n full)) st); try assumption.
    - rewrite <- Hr. apply spec_body_wf; (assumption || lia).
    - apply spec_body_counts; try (assumption || lia).
      intros i s Hi Hs. simpl in Hi. replace i with 0%nat in * by lia. simpl in Hs.
      injection Hs as <-. simpl. split; [lia|]. rewrite Hsame. intros Hne'. lia.
    - eapply Forall_impl; [exact Hrest|]. simpl. intros r' [Hr' Hc']. split; [exact Hr'|lia].
    - lia.
    - apply spec_body_unpoisoned. apply unpoisoned_spec. intros i s Hs.
      unfold initial in Hs. cbn [streams] in Hs. destruct i as [|i].
      + simpl in Hs. injection Hs as <-. reflexivity.
      + rewrite list_lookup_insert_ne in Hs by lia.
        pose proof (lookup_lt_Some _ _ _ Hs) as Hi. rewrite NGramStreams_Init_length in Hi.
        rewrite NGramStreams_Init_lookup in Hs by exact Hi. injection Hs as <-. reflexivity. }
  destruct (finish_spec (Z.of_nat (S (S n))) _ cs' st Hwf Hcounts HB)
    as (out & Hfin & Hng & Hlen & Hsent).
  exists out. rewrite Hrun, Hloop. cbn [rbind]. split; [exact Hfin|].
  pose proof Hwf as Hwf'. apply wf_spec in Hwf' as (Hlens & _).
  split; [lia|]. split; [rewrite Hng, Hp; exact Hc|].
  intros i s Hs.
  destruct (lookup_lt_is_Some_2 (streams st) i) as [s0 Hs0].
  { rewrite <- Hlen. eapply lookup_lt_Some. exact Hs. }
  destruct (Hsent i s0 Hs0) as (s' & Hs' & Hsent').
  assert (s' = s) as -> by congruence.
  rewrite unpoisoned_spec in Hun. specialize (Hun i s0 Hs0).
  assert (Hentries : forall l, forallb is_Entry l = true -> exists es, l = map Entry es).
  { induction l as [|[g|] l IHl]; simpl; intros Hl; [exists []; reflexivity| |discriminate].
    destruct (IHl Hl) as [es ->]. exists (g :: es). reflexivity. }
  destruct (Hentries _ Hun) as [es Hes].
  rewrite Hsent', Hes.
  destruct (Z.of_nat i <=? lower_valid st).
  - exists (es ++ [gram s0]). rewrite map_app, <- app_assoc. reflexivity.
  - exists es. reflexivity.
Qed.


Lemma discount_of_zeroed (i : Z) :
  StatCollector.discount_of i StatCollector.zeroed
  = {| StatCollector.amount := [S754_zero false; S754_nan; S754_nan; S754_nan] |}.
Proof.
  unfold StatCollector.discount_of.
  assert (HY : StatCollector.Y StatCollector.zeroed = S754_nan) by (vm_compute; reflexivity).
  rewrite HY. unfold StatCollector.amount_of, Float.zero.
  assert (Hnan : forall j : Z,
            Float.sub (Float.of_u64 i)
              (Float.div
                 (Float.mul (Float.mul (Float.of_u64 (incr64 i)) S754_nan)
                    (Float.of_u64 (StatCollector.n_at StatCollector.zeroed j)))
                 (Float.of_u64 (StatCollector.n_at StatCollector.zeroed (j - 1))))
            = S754_nan).
  { intros j. unfold Float.sub, Float.div, Float.mul.
    destruct (Float.of_u64 (incr64 i)); simpl;
      destruct (Float.of_u64 (StatCollector.n_at StatCollector.zeroed j)); simpl;
      destruct (Float.of_u64 (StatCollector.n_at StatCollector.zeroed (j - 1))); simpl;
      destruct (Float.of_u64 i); reflexivity. }
  rewrite !Hnan. reflexivity.
Qed.

(** [Complete] on a collector nothing was added to. *)
Lemma Complete_loop_zeroed (k : nat) :
  forall i0 : Z,
    StatCollector.Complete_loop i0 (replicate k StatCollector.zeroed)
    = (replicate k 0,
       replicate k {| StatCollector.amount :=
                        [S754_zero false; S754_nan; S754_nan; S754_nan] |}).
Proof.
  induction k as [|k IH]; intros i0; [reflexivity|].
  cbn [replicate StatCollector.Complete_loop]. rewrite IH, discount_of_zeroed.
  reflexivity.
Qed.

(** C8: if the maximum-order input stream is empty (no block of its chain has
    valid bytes) and the order is at least 2, [Run] completes: the
    distinct-record total of every order is zero, the discount coefficients
    are those [Complete] computes from all-zero histograms ([+0.0] and three
    NaN, from 0/0), and no record is sent on any lower-order channel; the
    blocks of the N-gram chain are handed on as they are. *)
Theorem Run_on_empty_stream (n : nat) (input : list Block) :
  Forall (fun b => ValidSize b = 0) input ->
  exists out,
    Run (S (S n)) input = Ok out /\
    counts_ out = replicate (S (S n)) 0 /\
    (counts_ out, discounts_ out) = StatCollector.Complete (StatCollector.new (S (S n))) /\
    discounts_ out
    = replicate (S (S n))
        {| StatCollector.amount := [S754_zero false; S754_nan; S754_nan; S754_nan] |} /\
    length (lower out) = S n /\
    Forall (fun s => sent s = []) (lower out) /\
    ngrams out = input.
Proof.
  intros Hempty. unfold Run.
  rewrite new_StartBlock, (StartBlock_empty _ _ _ input [] Hempty).
  cbn [CollapseStream.valid CollapseStream.block_ Link_bool held negb passed app].
  unfold complete, StatCollector.Complete, StatCollector.new.
  cbn [StatCollector.orders_]. rewrite Complete_loop_zeroed.
  eexists. split; [reflexivity|]. cbn [counts_ discounts_ lower ngrams].
  repeat split.
  - apply NGramStreams_Init_length.
  - apply Forall_forall. intros s Hs. unfold NGramStreams_Init in Hs.
    apply list_elem_of_fmap in Hs as (i & -> & _). reflexivity.
Qed.

End AdjustCountsFacts.

(** * Further properties *)

(** ** StatCollector over a sequence of calls *)

(** X1: [Add] with a count of at least one changes the slot of its order
    only, and in it the total and at most the bucket of that count: the total
    grows by one; bucket [count - 1] grows by one when the count is 1..4;
    every other bucket and every other slot is left as it was. *)
Theorem StatCollector_Add_touches_one_bucket (stats : StatCollector.t) (i : nat) (c : Z)
    (stat : StatCollector.OrderStat) :
  StatCollector.orders_ stats !! i = Some stat ->
  length (StatCollector.n stat) = 4%nat -> 1 <= c < two64 ->
  exists stats' stat',
    StatCollector.Add (Z.of_nat i) c stats = Ok stats' /\
    length (StatCollector.orders_ stats') = length (StatCollector.orders_ stats) /\
    StatCollector.orders_ stats' !! i = Some stat' /\
    StatCollector.count stat' = incr64 (StatCollector.count stat) /\
    length (StatCollector.n stat') = 4%nat /\
    (forall j : nat,
       StatCollector.n_at stat' (Z.of_nat j) =
       if (Z.of_nat j =? c - 1) && (c <? 5)
       then incr64 (StatCollector.n_at stat (Z.of_nat j))
       else StatCollector.n_at stat (Z.of_nat j)) /\
    (forall k : nat, k <> i ->
       StatCollector.orders_ stats' !! k = StatCollector.orders_ stats !! k).
Proof.
  intros Hs Hn Hc.
  eexists. exists (StatCollector.bumped stat c).
  rewrite (StatCollector_Add_Ok stats (Z.of_nat i) c stat)
    by (rewrite ?Nat2Z.id; (lia || assumption)).
  rewrite Nat2Z.id. split; [reflexivity|]. cbn [StatCollector.orders_].
  split; [apply length_insert|].
  split; [apply list_lookup_insert_eq; eapply lookup_lt_Some; exact Hs|].
  split; [reflexivity|].
  split; [apply StatCollector_bumped_wf; exact Hn|].
  split.
  - intros j. unfold StatCollector.n_at, StatCollector.bumped. cbn [StatCollector.n].
    rewrite Nat2Z.id.
    destruct (Z.ltb_spec c 5); [|rewrite andb_false_r; reflexivity].
    rewrite andb_true_r.
    destruct (Z.eqb_spec (Z.of_nat j) (c - 1)) as [Hj|Hj].
    + replace (Z.to_nat (c - 1)) with j by lia.
      apply nth_lookup_Some. apply list_lookup_insert_eq. lia.
    + assert (Hne : Z.to_nat (c - 1) <> j) by lia.
      destruct (decide (j < length (StatCollector.n stat))%nat) as [Hlt|Hge].
      * destruct (lookup_lt_is_Some_2 _ _ Hlt) as [x Hx].
        rewrite (nth_lookup_Some _ _ 0 x Hx).
        apply nth_lookup_Some. rewrite list_lookup_insert_ne by exact Hne. exact Hx.
      * rewrite !nth_overflow by (rewrite ?length_insert; lia). reflexivity.
  - intros k Hk. apply list_lookup_insert_ne. lia.
Qed.

Lemma tally_cons (P : Z * Z -> bool) (call : Z * Z) (calls : list (Z * Z)) :
  tally P (call :: calls) = (if P call then 1 else 0) + tally P calls.
Proof. unfold tally. simpl. destruct (P call); simpl length; lia. Qed.

Lemma tally_bounds (P : Z * Z -> bool) (calls : list (Z * Z)) :
  0 <= tally P calls <= Z.of_nat (length calls).
Proof.
  induction calls as [|call calls IH]; [unfold tally; simpl; lia|].
  rewrite tally_cons. simpl length. destruct (P call); lia.
Qed.

Lemma n_at_bumped (stat : StatCollector.OrderStat) (c : Z) (j : nat) :
  length (StatCollector.n stat) = 4%nat -> 1 <= c ->
  StatCollector.n_at (StatCollector.bumped stat c) (Z.of_nat j) =
  if (Z.of_nat j =? c - 1) && (c <? 5)
  then incr64 (StatCollector.n_at stat (Z.of_nat j))
  else StatCollector.n_at stat (Z.of_nat j).
Proof.
  intros Hn Hc. unfold StatCollector.n_at, StatCollector.bumped. cbn [StatCollector.n].
  rewrite Nat2Z.id.
  destruct (Z.ltb_spec c 5); [|rewrite andb_false_r; reflexivity].
  rewrite andb_true_r.
  destruct (Z.eqb_spec (Z.of_nat j) (c - 1)) as [Hj|Hj].
  - replace (Z.to_nat (c - 1)) with j by lia.
    apply nth_lookup_Some. apply list_lookup_insert_eq. lia.
  - assert (Hne : Z.to_nat (c - 1) <> j) by lia.
    destruct (decide (j < length (StatCollector.n stat))%nat) as [Hlt|Hge].
    + destruct (lookup_lt_is_Some_2 _ _ Hlt) as [x Hx].
      rewrite (nth_lookup_Some _ _ 0 x Hx).
      apply nth_lookup_Some. rewrite list_lookup_insert_ne by exact Hne. exact Hx.
    + rewrite !nth_overflow by (rewrite ?length_insert; lia). reflexivity.
Qed.

(** A sequence of calls with counts of at least one, from any collector
    whose totals and buckets are at most [M]: every call succeeds, and each
    total and each bucket has grown by the number of calls that name it. *)
Lemma Add_all_tally :
  forall (calls : list (Z * Z)) (M : Z) (stats : StatCollector.t),
    StatCollector.wf stats ->
    Forall (fun call => 0 <= call.1 < Z.of_nat (length (StatCollector.orders_ stats)) /\
                        1 <= call.2 < two64) calls ->
    (forall (k : nat) s, StatCollector.orders_ stats !! k = Some s ->
       0 <= StatCollector.count s <= M /\
       forall j : nat, 0 <= StatCollector.n_at s (Z.of_nat j) <= M) ->
    M + Z.of_nat (length calls) < two64 ->
    exists stats',
      Add_all calls stats = Ok stats' /\
      StatCollector.wf stats' /\
      length (StatCollector.orders_ stats') = length (StatCollector.orders_ stats) /\
      forall (k : nat) s, StatCollector.orders_ stats !! k = Some s ->
        exists s',
          StatCollector.orders_ stats' !! k = Some s' /\
          StatCollector.count s'
          = StatCollector.count s + tally (fun call => call.1 =? Z.of_nat k) calls /\
          forall j : nat,
            StatCollector.n_at s' (Z.of_nat j)
            = StatCollector.n_at s (Z.of_nat j)
              + tally (fun call => (call.1 =? Z.of_nat k) && (call.2 =? Z.of_nat j + 1)
                                   && (call.2 <? 5)) calls.
Proof.
  induction calls as [|[i c] rest IH]; intros M stats Hwf Hcalls Hbound HM.
  - exists stats. repeat split; try assumption.
    intros k s Hs. exists s. unfold tally. simpl. split; [exact Hs|].
    split; [lia|intros j; lia].
  - apply Forall_cons in Hcalls as [[Hi Hc] Hrest]. cbn [fst snd] in Hi, Hc.
    simpl length in HM.
    destruct (lookup_lt_is_Some_2 (StatCollector.orders_ stats) (Z.to_nat i) ltac:(lia))
      as [stat Hstat].
    assert (Hn : length (StatCollector.n stat) = 4%nat).
    { unfold StatCollector.wf in Hwf. rewrite Forall_lookup in Hwf. exact (Hwf _ _ Hstat). }
    cbn [Add_all].
    rewrite (StatCollector_Add_Ok stats i c stat) by (lia || assumption). cbn [rbind].
    set (stats1 := {| StatCollector.orders_ :=
                        <[Z.to_nat i := StatCollector.bumped stat c]>
                          (StatCollector.orders_ stats) |}).
    destruct (IH (M + 1) stats1) as (stats' & Hrun & Hwf' & Hlen' & Hslots).
    + unfold StatCollector.wf, stats1. cbn [StatCollector.orders_].
      apply Forall_insert; [exact Hwf|]. apply StatCollector_bumped_wf. exact Hn.
    + unfold stats1. cbn [StatCollector.orders_]. rewrite length_insert. exact Hrest.
    + intros k s Hs. unfold stats1 in Hs. cbn [StatCollector.orders_] in Hs.
      destruct (decide (k = Z.to_nat i)) as [->|Hk].
      * rewrite list_lookup_insert_eq in Hs by (eapply lookup_lt_Some; exact Hstat).
        injection Hs as <-. destruct (Hbound _ _ Hstat) as [Hcount Hbuckets].
        split.
        -- simpl. rewrite incr64_small by lia. lia.
        -- intros j. rewrite n_at_bumped by (lia || assumption).
           specialize (Hbuckets j).
           destruct ((Z.of_nat j =? c - 1) && (c <? 5));
             [rewrite incr64_small by lia|]; lia.
      * rewrite list_lookup_insert_ne in Hs by lia.
        destruct (Hbound _ _ Hs) as [Hcount Hbuckets].
        split; [lia|]. intros j. specialize (Hbuckets j). lia.
    + lia.
    + exists stats'. split; [exact Hrun|]. split; [exact Hwf'|].
      split; [rewrite Hlen'; unfold stats1; cbn [StatCollector.orders_];
              apply length_insert|].
      intros k s Hs. destruct (Hbound _ _ Hs) as [Hcount Hbuckets].
      rewrite tally_cons. cbn [fst snd].
      destruct (decide (k = Z.to_nat i)) as [->|Hk].
      * assert (s = stat) as -> by congruence.
        destruct (Hslots (Z.to_nat i) (StatCollector.bumped stat c)) as (s' & Hs' & Hc' & Hb').
        { unfold stats1. cbn [StatCollector.orders_]. apply list_lookup_insert_eq.
          eapply lookup_lt_Some. exact Hstat. }
        exists s'. split; [exact Hs'|].
        destruct (Z.eqb_spec i (Z.of_nat (Z.to_nat i))); [|lia].
        split.
        -- rewrite Hc'. simpl. rewrite incr64_small by lia. lia.
        -- intros j. rewrite Hb', tally_cons. cbn [fst snd].
           rewrite n_at_bumped by (lia || assumption). specialize (Hbuckets j).
           destruct (Z.eqb_spec i (Z.of_nat (Z.to_nat i))); [|lia]. cbn [andb].
           destruct (Z.eqb_spec (Z.of_nat j) (c - 1)), (Z.eqb_spec c (Z.of_nat j + 1));
             try lia; cbn [andb]; destruct (c <? 5);
             rewrite ?incr64_small by lia; lia.
      * destruct (Hslots k s) as (s' & Hs' & Hc' & Hb').
        { unfold stats1. cbn [StatCollector.orders_].
          rewrite list_lookup_insert_ne by lia. exact Hs. }
        exists s'. split; [exact Hs'|].
        destruct (Z.eqb_spec i (Z.of_nat k)); [lia|].
        split; [rewrite Hc'; lia|].
        intros j. rewrite Hb', tally_cons. cbn [fst snd].
        destruct (Z.eqb_spec i (Z.of_nat k)); [lia|]. cbn [andb]. lia.
Qed.

(** X2: the collector is a tally.  After any sequence of fewer than 2^64
    calls [Add(i, c)] with existing orders and counts of at least one on a
    fresh collector, every call has succeeded; the total of every order is
    the number of calls that named it, and its bucket [j] (for j = 0..3) is
    the number of those calls whose count was [j + 1]; hence the four buckets
    of an order never sum to more than its total. *)
Theorem StatCollector_tallies_calls (order : nat) (calls : list (Z * Z)) :
  Forall (fun call => 0 <= call.1 < Z.of_nat order /\ 1 <= call.2 < two64) calls ->
  Z.of_nat (length calls) < two64 ->
  exists stats',
    Add_all calls (StatCollector.new order) = Ok stats' /\
    length (StatCollector.orders_ stats') = order /\
    forall k : nat, (k < order)%nat ->
      exists s',
        StatCollector.orders_ stats' !! k = Some s' /\
        StatCollector.count s' = tally (fun call => call.1 =? Z.of_nat k) calls /\
        (forall j : nat,
           StatCollector.n_at s' (Z.of_nat j)
           = tally (fun call => (call.1 =? Z.of_nat k) && (call.2 =? Z.of_nat j + 1)
                                && (call.2 <? 5)) calls) /\
        StatCollector.n_at s' 0 + StatCollector.n_at s' 1
        + StatCollector.n_at s' 2 + StatCollector.n_at s' 3
        <= StatCollector.count s'.
Proof.
  intros Hcalls Hlen.
  assert (Hnew : length (StatCollector.orders_ (StatCollector.new order)) = order).
  { unfold StatCollector.new. cbn [StatCollector.orders_]. apply length_replicate. }
  destruct (Add_all_tally calls 0 (StatCollector.new order)) as (stats' & Hrun & _ & Hlen' & Hslots).
  - apply StatCollector_new_wf.
  - rewrite Hnew. exact Hcalls.
  - intros k s Hs. unfold StatCollector.new in Hs. cbn [StatCollector.orders_] in Hs.
    apply lookup_replicate in Hs as [-> _]. split; [simpl; lia|].
    intros j. unfold StatCollector.n_at. simpl.
    destruct (Z.to_nat (Z.of_nat j)) as [|[|[|[|[|x]]]]]; simpl; lia.
  - lia.
  - exists stats'. split; [exact Hrun|]. split; [lia|].
    intros k Hk.
    destruct (Hslots k StatCollector.zeroed) as (s' & Hs' & Hc' & Hb').
    { unfold StatCollector.new. cbn [StatCollector.orders_].
      apply lookup_replicate. split; [reflexivity|exact Hk]. }
    exists s'. split; [exact Hs'|]. split; [rewrite Hc'; simpl; lia|].
    assert (Hz : forall j : nat, StatCollector.n_at StatCollector.zeroed (Z.of_nat j) = 0).
    { intros j. unfold StatCollector.n_at. simpl.
      destruct (Z.to_nat (Z.of_nat j)) as [|[|[|[|[|x]]]]]; reflexivity. }
    split; [intros j; rewrite Hb', Hz; lia|].
    rewrite Hc'. simpl StatCollector.count.
    pose proof (Hb' 0%nat) as H0. pose proof (Hb' 1%nat) as H1.
    pose proof (Hb' 2%nat) as H2. pose proof (Hb' 3%nat) as H3.
    rewrite (Hz 0%nat) in H0. rewrite (Hz 1%nat) in H1.
    rewrite (Hz 2%nat) in H2. rewrite (Hz 3%nat) in H3.
    change (Z.of_nat 0) with 0 in H0. change (Z.of_nat 1) with 1 in H1.
    change (Z.of_nat 2) with 2 in H2. change (Z.of_nat 3) with 3 in H3.
    rewrite H0, H1, H2, H3. clear.
    induction calls as [|[i c] rest IH]; [unfold tally; simpl; lia|].
    rewrite !tally_cons. cbn [fst snd].
    destruct (i =? Z.of_nat k); cbn [andb]; [|lia].
    destruct (Z.eqb_spec c (0 + 1)), (Z.eqb_spec c (1 + 1)), (Z.eqb_spec c (2 + 1)),
      (Z.eqb_spec c (3 + 1)); try lia; cbn [andb]; destruct (c <? 5); lia.
Qed.

(** ** Complete on a histogram without singletons *)

Lemma Float_sub_nan (x : Float.float) : Float.sub x S754_nan = S754_nan.
Proof. destruct x; reflexivity. Qed.

Lemma Float_div_mul_nan (x y z : Float.float) :
  Float.div (Float.mul (Float.mul x S754_nan) y) z = S754_nan.
Proof. destruct x, y, z; reflexivity. Qed.

(** With no singleton, [Y] is a zero or NaN, and so is its product with any
    two floats that are not infinite; the quotient by [n[0] = 0] is NaN. *)
Lemma amount_of_no_singleton (i : Z) (s : StatCollector.OrderStat) :
  StatCollector.n_at s 0 = 0 ->
  StatCollector.amount_of i (StatCollector.Y s) s 1 = S754_nan.
Proof.
  intros H0. unfold StatCollector.amount_of, StatCollector.Y.
  change (1 - 1) with 0. rewrite H0.
  change (Float.of_u64 0) with (S754_zero false).
  unfold Float.sub, Float.div, Float.mul.
  destruct (Float.of_double _) as [sy| | |sy my ey];
    destruct (Float.of_u64 (incr64 i)) as [sa|sa| |sa ma ea];
    destruct (Float.of_u64 (StatCollector.n_at s 1)) as [sb|sb| |sb mb eb];
    destruct (Float.of_u64 i) as [sc|sc| |sc mc ec]; reflexivity.
Qed.

(** X3: [Complete] has no guard against an empty bucket.  For a slot whose
    bucket of singletons [n[0]] is zero, [amount[1]] is NaN whatever the
    other buckets hold (its last division is by [n[0]]); if the bucket of
    doubletons [n[1]] is zero as well, [Y] is 0/0 and all three of
    [amount[1..3]] are NaN, whatever [n[2]] and [n[3]] hold.  [amount[0]] is
    [+0.0] and [counts[i]] the slot's total in every case. *)
Theorem StatCollector_Complete_no_singleton (stats : StatCollector.t) (i : nat)
    (s : StatCollector.OrderStat) :
  StatCollector.orders_ stats !! i = Some s ->
  StatCollector.n_at s 0 = 0 ->
  exists d,
    (StatCollector.Complete stats).2 !! i = Some d /\
    (StatCollector.Complete stats).1 !! i = Some (StatCollector.count s) /\
    length (StatCollector.amount d) = 4%nat /\
    StatCollector.amount d !! 0%nat = Some (S754_zero false) /\
    StatCollector.amount d !! 1%nat = Some S754_nan /\
    (StatCollector.n_at s 1 = 0 ->
     StatCollector.amount d = [S754_zero false; S754_nan; S754_nan; S754_nan]).
Proof.
  intros Hi H0. unfold StatCollector.Complete.
  destruct (StatCollector_Complete_loop_lookup _ 0 i s Hi) as [Hc Hd].
  eexists. split; [exact Hd|]. split; [exact Hc|].
  unfold StatCollector.discount_of. cbn [StatCollector.amount].
  split; [reflexivity|]. split; [reflexivity|].
  rewrite amount_of_no_singleton by exact H0.
  split; [reflexivity|]. intros H1.
  assert (HY : StatCollector.Y s = S754_nan).
  { unfold StatCollector.Y. rewrite H0, H1. vm_compute. reflexivity. }
  rewrite HY. unfold StatCollector.amount_of.
  rewrite !Float_div_mul_nan, !Float_sub_nan. reflexivity.
Qed.

(** ** The unigram-only path of Run *)

Lemma StatCollector_Add_length (i c : Z) (stats stats' : StatCollector.t) :
  StatCollector.Add i c stats = Ok stats' ->
  length (StatCollector.orders_ stats') = length (StatCollector.orders_ stats).
Proof.
  unfold StatCollector.Add, set_index.
  destruct (at_index (StatCollector.orders_ stats) i); [|discriminate]. cbn [rbind].
  destruct (StatCollector.bump _ c); [|discriminate]. cbn [rbind].
  intros [= <-]. cbn [StatCollector.orders_]. apply length_insert.
Qed.

Lemma fold_AddFull_Err (grams : list NGram) (e : error) :
  fold_left (fun acc g => let* st := acc in StatCollector.AddFull (Count g) st)
            grams (Err e) = Err e.
Proof. induction grams as [|g rest IH]; [reflexivity|exact IH]. Qed.

(** The loop of [AddFull] over the records is a sequence of [Add] on the last
    slot. *)
Lemma fold_AddFull_Add_all (grams : list NGram) :
  forall stats : StatCollector.t,
    fold_left (fun acc g => let* st := acc in StatCollector.AddFull (Count g) st)
              grams (Ok stats)
    = Add_all (map (fun g => (Z.of_nat (length (StatCollector.orders_ stats)) - 1, Count g))
                   grams) stats.
Proof.
  induction grams as [|g rest IH]; intros stats; [reflexivity|].
  cbn [fold_left map Add_all rbind]. unfold StatCollector.AddFull at 2.
  destruct (StatCollector.Add _ (Count g) stats) as [stats1|e] eqn:Hadd.
  - cbn [rbind]. rewrite IH, (StatCollector_Add_length _ _ _ _ Hadd). reflexivity.
  - cbn [rbind]. apply fold_AddFull_Err.
Qed.

Lemma tally_map_histogram (k : Z) (j : nat) (grams : list NGram) :
  (j < 4)%nat ->
  tally (fun call => (call.1 =? k) && (call.2 =? Z.of_nat j + 1) && (call.2 <? 5))
        (map (fun g => (k, Count g)) grams)
  = histogram (Z.of_nat j + 1) grams.
Proof.
  intros Hj. unfold tally, histogram. f_equal.
  induction grams as [|g rest IH]; [reflexivity|].
  cbn [map List.filter fst snd]. rewrite Z.eqb_refl. cbn [andb].
  destruct (Z.eqb_spec (Count g) (Z.of_nat j + 1)) as [Heq|Hne]; cbn [andb].
  - destruct (Z.ltb_spec (Count g) 5); [|lia]. simpl. f_equal. exact IH.
  - exact IH.
Qed.

Lemma tally_map_all (k : Z) (grams : list NGram) :
  tally (fun call => call.1 =? k) (map (fun g => (k, Count g)) grams)
  = Z.of_nat (length grams).
Proof.
  unfold tally. f_equal.
  induction grams as [|g rest IH]; [reflexivity|].
  cbn [map List.filter fst]. rewrite Z.eqb_refl. simpl. f_equal. exact IH.
Qed.

Section UnigramFacts.
Context `{Config}.

(** X4: with a single order, [Run] only collects statistics.  If every
    unigram record has a count of at least one and there are fewer than 2^64
    of them, [Run] completes; [counts_] holds the number of records, the
    discounts are those of the histogram whose bucket [j] is the number of
    records with RAW count [j + 1] (nothing is adjusted), no lower-order
    channel exists and the chain of the unigrams is left as it was. *)
Theorem Run_single_order (input : list Block) :
  let grams := NGramStream_read 1 input in
  Forall (fun g => 1 <= Count g < two64) grams ->
  Z.of_nat (length grams) < two64 ->
  exists out,
    AdjustCounts.Run 1 input = Ok out /\
    AdjustCounts.counts_ out = [Z.of_nat (length grams)] /\
    AdjustCounts.discounts_ out
    = [StatCollector.discount_of 0
         {| StatCollector.n := [histogram 1 grams; histogram 2 grams;
                                histogram 3 grams; histogram 4 grams];
            StatCollector.count := Z.of_nat (length grams) |}] /\
    AdjustCounts.lower out = [] /\
    AdjustCounts.ngrams out = input.
Proof.
  intros grams Hcounts Hlen. unfold AdjustCounts.Run. fold grams.
  rewrite fold_AddFull_Add_all.
  change (Z.of_nat (length (StatCollector.orders_ (StatCollector.new 1))) - 1) with 0.
  destruct (Add_all_tally (map (fun g => (0, Count g)) grams) 0 (StatCollector.new 1))
    as (stats' & Hrun & Hwf & Hlen' & Hslots).
  - apply StatCollector_new_wf.
  - rewrite Forall_map. eapply Forall_impl; [exact Hcounts|].
    intros g Hg. cbn [fst snd]. split; [|exact Hg]. simpl. lia.
  - intros k s Hs. unfold StatCollector.new in Hs. cbn [StatCollector.orders_] in Hs.
    apply lookup_replicate in Hs as [-> _]. split; [simpl; lia|].
    intros j. unfold StatCollector.n_at. simpl.
    destruct (Z.to_nat (Z.of_nat j)) as [|[|[|[|[|x]]]]]; simpl; lia.
  - rewrite length_map. lia.
  - rewrite Hrun. cbn [rbind].
    destruct (Hslots 0%nat StatCollector.zeroed eq_refl) as (s' & Hs' & Hc' & Hb').
    change (Z.of_nat 0) with 0 in Hc', Hb'.
    rewrite tally_map_all in Hc'. simpl in Hc'.
    assert (Hn : length (StatCollector.n s') = 4%nat).
    { unfold StatCollector.wf in Hwf. rewrite Forall_lookup in Hwf. exact (Hwf _ _ Hs'). }
    assert (Hz : forall j : nat, StatCollector.n_at StatCollector.zeroed (Z.of_nat j) = 0).
    { intros j. unfold StatCollector.n_at. simpl.
      destruct (Z.to_nat (Z.of_nat j)) as [|[|[|[|[|x]]]]]; reflexivity. }
    pose proof (Hb' 0%nat) as H0. pose proof (Hb' 1%nat) as H1.
    pose proof (Hb' 2%nat) as H2. pose proof (Hb' 3%nat) as H3.
    rewrite Hz, tally_map_histogram in H0, H1, H2, H3 by lia.
    unfold StatCollector.n_at in H0, H1, H2, H3. rewrite Nat2Z.id in H0, H1, H2, H3.
    destruct stats' as [orders']. cbn [StatCollector.orders_] in *.
    destruct orders' as [|s0 [|s1 rest]]; try discriminate.
    injection Hs' as ->. destruct s' as [ns cs]. cbn [StatCollector.n StatCollector.count] in *.
    destruct ns as [|n0 [|n1 [|n2 [|n3 [|n4 ns]]]]]; try discriminate.
    simpl in H0, H1, H2, H3. subst n0 n1 n2 n3 cs.
    eexists. split; [reflexivity|].
    cbn. repeat split; reflexivity.
Qed.

End UnigramFacts.

(** ** CollapseStream: the helpers of the iteration *)

Section CollapseStreamMore.
Context `{Config}.

Import CollapseStream.

(** X5: [UpdateCopyFrom] with [current_] on slot [c] and [copy_from_] on slot
    [s] of the held block moves [copy_from_] down to the last record of slots
    [c .. s) that does not have the marker at word-position 1, or to the slot
    before [c] when every record of that range has it (the pointer then lies
    before [current_.Base()], which the test of [operator++] relies on); the
    records it passes over all have the marker; the block and [current_] are
    left as they are. *)
Theorem UpdateCopyFrom_last_without_marker (cs : t) (b : Block) (c s : nat) :
  held (block_ cs) = Some b ->
  current_Base cs = Z.of_nat c -> copy_from_ cs = Z.of_nat s ->
  (c <= s <= length (mem b))%nat ->
  exists live : nat,
    (c <= live <= s)%nat /\
    UpdateCopyFrom cs
    = {| current_Order := current_Order cs; current_Base := current_Base cs;
         copy_from_ := Z.of_nat live - 1; block_ := block_ cs |} /\
    (forall j g, (live <= j < s)%nat -> mem b !! j = Some g -> bos_at_1 g = true) /\
    ((c < live)%nat -> exists g, mem b !! (live - 1)%nat = Some g /\ bos_at_1 g = false) /\
    ((live = c)%nat ->
     Forall (fun g => bos_at_1 g = true) (take (s - c) (drop c (mem b)))).
Proof.
  intros Hb Hc Hs Hcs. unfold UpdateCopyFrom. rewrite Hb, Hc, Hs.
  destruct (UpdateCopyFrom_loop_spec b c (s - c)%nat s ltac:(lia) eq_refl)
    as (live & Heq & Hr & Hm & Hl).
  exists live.
  replace (Z.to_nat (Z.of_nat s - 1 - Z.of_nat c + 1)) with (s - c)%nat by lia.
  rewrite Heq. split; [exact Hr|]. split; [reflexivity|]. split; [exact Hm|]. split.
  - intros Hlt. specialize (Hl Hlt).
    destruct (lookup_lt_is_Some_2 (mem b) (live - 1)%nat ltac:(lia)) as [g Hg].
    exists g. split; [exact Hg|].
    rewrite <- Hl. f_equal. symmetry.
    replace (Z.of_nat live - 1) with (Z.of_nat (live - 1)) by lia.
    apply record_at_lookup. exact Hg.
  - intros ->. apply Forall_lookup. intros j g Hj.
    apply lookup_take_Some in Hj as [Hj Hlt]. rewrite lookup_drop in Hj.
    apply (Hm (c + j)%nat); [lia|exact Hj].
Qed.

(** [StartBlock] from any position of the chain: the blocks without valid
    bytes are handed downstream as they are, and the stream stops on the
    first record of the first block that has some. *)
Lemma StartBlock_position (order base cf : Z) :
  0 <= order ->
  forall (bs pas : list Block),
    Forall (exact order) bs ->
    let cs := StartBlock {| current_Order := order; current_Base := base;
                            copy_from_ := cf; block_ := link_of pas bs |} in
    exists skipped rest,
      bs = skipped ++ rest /\
      Forall (fun b => ValidSize b = 0) skipped /\
      passed (block_ cs) = pas ++ skipped /\
      match rest with
      | [] => valid cs = false /\ held (block_ cs) = None
      | b :: up =>
          ValidSize b <> 0 /\ valid cs = true /\
          held (block_ cs) = Some b /\ upstream (block_ cs) = up /\
          current_Base cs = 0 /\ mem b !! 0%nat = Some (deref cs)
      end.
Proof.
  intros Ho. pose proof (TotalSize_pos order Ho) as HT.
  induction bs as [|b rest IH]; intros pas Hex cs.
  - exists [], []. subst cs. rewrite (app_nil_r pas).
    split; [reflexivity|]. split; [apply Forall_nil_2|]. split; [reflexivity|].
    split; reflexivity.
  - apply Forall_cons in Hex as [Hb Hrest]. destruct b as [orig vs]. unfold exact in Hb.
    cbn [mem ValidSize] in Hb. subst vs.
    destruct orig as [|g0 orig0].
    + set (b0 := {| mem := []; ValidSize := Z.of_nat (length (@nil NGram)) * TotalSize order |}).
      destruct (IH (pas ++ [b0]) Hrest) as (skipped & rest' & Hsplit & Hsk & Hpas & Hrest').
      exists (b0 :: skipped), rest'. subst cs.
      rewrite StartBlock_skip by reflexivity. fold b0.
      split; [rewrite Hsplit; reflexivity|].
      split; [constructor; [reflexivity|exact Hsk]|].
      split; [rewrite Hpas, <- app_assoc; reflexivity|exact Hrest'].
    + destruct (StartBlock_enter order base cf pas rest (g0 :: orig0) Ho ltac:(discriminate))
        as (live & Hinv & Henter).
      exists [], ({| mem := g0 :: orig0;
                     ValidSize := Z.of_nat (length (g0 :: orig0)) * TotalSize order |} :: rest).
      subst cs. rewrite Henter, (app_nil_r pas).
      split; [reflexivity|]. split; [apply Forall_nil_2|]. split; [reflexivity|].
      split; [cbn [ValidSize length]; nia|].
      split; [reflexivity|]. split; [reflexivity|]. split; [reflexivity|].
      split; [reflexivity|].
      cbn [mem]. rewrite (deref_inside order pas rest (g0 :: orig0) (g0 :: orig0) 0 live g0 Hinv)
        by reflexivity.
      reflexivity.
Qed.

(** X6: the constructor looks for the first record.  On any chain, the
    blocks without valid bytes at its head are handed downstream unchanged;
    the stream is valid exactly when the chain holds a record, and it is then
    on slot 0 of the first block with valid bytes, which it holds, so that
    dereferencing gives the first record of the chain. *)
Theorem CollapseStream_new_on_first_record (order : Z) (input : list Block) :
  0 <= order -> Forall (exact order) input ->
  let cs := new order input in
  (valid cs = true <-> concat (map mem input) <> []) /\
  exists skipped rest,
    input = skipped ++ rest /\
    Forall (fun b => ValidSize b = 0) skipped /\
    passed (block_ cs) = skipped /\
    match rest with
    | [] => valid cs = false
    | b :: up =>
        ValidSize b <> 0 /\ held (block_ cs) = Some b /\ upstream (block_ cs) = up /\
        current_Base cs = 0 /\ mem b !! 0%nat = Some (deref cs) /\
        exists others, concat (map mem input) = deref cs :: others
    end.
Proof.
  intros Ho Hex cs. pose proof (TotalSize_pos order Ho) as HT.
  destruct (StartBlock_position order 0 0 Ho input [] Hex)
    as (skipped & rest & Hsplit & Hsk & Hpas & Hrest).
  rewrite <- new_StartBlock in Hpas, Hrest. fold cs in Hpas, Hrest.
  assert (Hnone : concat (map mem skipped) = []).
  { rewrite Hsplit in Hex. apply Forall_app in Hex as [Hex _].
    clear -Hsk Hex HT. induction Hsk as [|b l Hb _ IH]; [reflexivity|].
    apply Forall_cons in Hex as [Hx Hex]. simpl. rewrite (IH Hex), app_nil_r.
    unfold exact in Hx. rewrite Hb in Hx.
    destruct (mem b); [reflexivity|simpl length in Hx; nia]. }
  assert (Hrec : concat (map mem input) = concat (map mem rest)).
  { rewrite Hsplit, map_app, concat_app, Hnone. reflexivity. }
  split.
  - rewrite Hrec. destruct rest as [|b up].
    + destruct Hrest as [Hv _]. rewrite Hv. simpl. split; [discriminate|congruence].
    + destruct Hrest as (Hvs & Hv & _ & _ & _ & Hfirst). rewrite Hv.
      split; [|reflexivity]. intros _. simpl.
      destruct (mem b); [discriminate|discriminate].
  - exists skipped, rest. split; [exact Hsplit|]. split; [exact Hsk|].
    split; [exact Hpas|].
    destruct rest as [|b up]; [exact (proj1 Hrest)|].
    destruct Hrest as (Hvs & Hv & Hheld & Hup & Hbase & Hfirst).
    repeat split; try assumption.
    rewrite Hrec. simpl. destruct (mem b) as [|g others]; [discriminate|].
    injection Hfirst as ->. eexists. reflexivity.
Qed.

End CollapseStreamMore.

(** ** CollapseStream: blocks without a record to delete *)

Section CollapseStreamClean.
Context `{Config}.

Import CollapseStream.

(** In a block none of whose records has the marker at word-position 1,
    [copy_from_] is on the last record throughout. *)
Lemma invariant_clean (orig : list NGram) (c live : nat) :
  invariant orig orig c live -> Forall (fun g => bos_at_1 g = false) orig ->
  live = length orig.
Proof.
  intros (_ & _ & Hl & _ & Hperm & _) Hclean.
  rewrite (survivors_all orig Hclean) in Hperm.
  rewrite (survivors_all (take live orig)) in Hperm by (apply Forall_take; exact Hclean).
  apply Permutation_length in Hperm. rewrite length_take in Hperm. lia.
Qed.

(** One [operator++] inside such a block writes nothing. *)
Lemma next_inside_clean (order : Z) (pas up : list Block) (orig : list NGram) (c : nat) :
  0 <= order -> Forall (fun g => bos_at_1 g = false) orig -> (c < length orig)%nat ->
  next (inside order pas up (length orig) c (length orig) orig) =
  Ok (if (S c =? length orig)%nat
      then StartBlock (leaving order pas up (length orig) (length orig) orig)
      else inside order pas up (length orig) (S c) (length orig) orig).
Proof.
  intros Ho Hclean Hlt. pose proof (TotalSize_pos order Ho) as HT.
  destruct (lookup_lt_is_Some_2 orig c Hlt) as [g Hg].
  assert (Hbg : bos_at_1 g = false).
  { rewrite Forall_lookup in Hclean. exact (Hclean c g Hg). }
  unfold next. cbn [inside block_ held]. fold (inside order pas up (length orig) c (length orig) orig).
  unfold overwrite. cbn [inside current_Base].
  rewrite (record_at_lookup {| mem := orig; ValidSize := _ |} c g Hg), Hbg. cbn [andb].
  unfold NextInMemory, inside. cbn [block_ held current_Base copy_from_ current_Order].
  unfold end_of_block. cbn [block_ held current_Base copy_from_ current_Order ValidSize].
  f_equal. destruct (Nat.eqb_spec (S c) (length orig)) as [Hend|Hend].
  - destruct (Z.eqb_spec ((Z.of_nat c + 1) * TotalSize order)
                (Z.of_nat (length orig) * TotalSize order)) as [_|Hne]; [|nia].
    unfold leaving, set_block, SetValidSize.
    cbn [block_ held current_Base copy_from_ current_Order passed upstream mem].
    replace (Z.of_nat c + 1) with (Z.of_nat (length orig)) by lia.
    replace (Z.of_nat (length orig) - 1 + 1) with (Z.of_nat (length orig)) by lia.
    reflexivity.
  - destruct (Z.eqb_spec ((Z.of_nat c + 1) * TotalSize order)
                (Z.of_nat (length orig) * TotalSize order)) as [Heq'|_]; [nia|].
    replace (Z.of_nat c + 1) with (Z.of_nat (S c)) by lia. reflexivity.
Qed.

(** The loop over the rest of such a block leaves it as it was. *)
Lemma for_each_inside_clean {State : Type} (body : NGram -> State -> result State)
    (order : Z) (pas up : list Block) (orig : list NGram) :
  0 <= order -> Forall (fun g => bos_at_1 g = false) orig ->
  forall (r c : nat),
    (c + S r = length orig)%nat ->
    forall (turns : nat) (st : State),
      for_each (S r + turns) body (inside order pas up (length orig) c (length orig) orig) st =
      let* st' := foldM body (drop c orig) st in
      for_each turns body
        (StartBlock (leaving order pas up (length orig) (length orig) orig)) st'.
Proof.
  intros Ho Hclean. induction r as [|r IH]; intros c Hr turns st.
  - pose proof (next_inside_clean order pas up orig c Ho Hclean ltac:(lia)) as Hnext.
    replace (S c =? length orig)%nat with true in Hnext by (symmetry; apply Nat.eqb_eq; lia).
    destruct (lookup_lt_is_Some_2 orig c ltac:(lia)) as [g Hg].
    rewrite for_each_S by reflexivity. rewrite Hnext.
    assert (Hd : deref (inside order pas up (length orig) c (length orig) orig) = g).
    { unfold deref, inside. cbn [block_ held current_Base]. apply record_at_lookup. exact Hg. }
    rewrite Hd, (drop_S _ _ _ Hg), drop_ge by lia. simpl.
    destruct (body g st); reflexivity.
  - pose proof (next_inside_clean order pas up orig c Ho Hclean ltac:(lia)) as Hnext.
    replace (S c =? length orig)%nat with false in Hnext by (symmetry; apply Nat.eqb_neq; lia).
    destruct (lookup_lt_is_Some_2 orig c ltac:(lia)) as [g Hg].
    change (S (S r) + turns)%nat with (S (S r + turns)).
    rewrite for_each_S by reflexivity. rewrite Hnext.
    assert (Hd : deref (inside order pas up (length orig) c (length orig) orig) = g).
    { unfold deref, inside. cbn [block_ held current_Base]. apply record_at_lookup. exact Hg. }
    rewrite Hd, (drop_S _ _ _ Hg). simpl foldM.
    destruct (body g st) as [st1|e]; [|reflexivity]. simpl.
    apply IH. lia.
Qed.

(** The loop over a whole chain hands every block without a record to delete
    downstream as it was. *)
Lemma for_each_chain_clean {State : Type} (body : NGram -> State -> result State)
    (order : Z) :
  0 <= order ->
  forall (bs pas : list Block) (base cf : Z),
    Forall (exact order) bs ->
    exists cs' bs',
      valid cs' = false /\ passed (block_ cs') = pas ++ bs' /\
      Forall2 (fun b b' => Forall (fun g => bos_at_1 g = false) (mem b) -> b' = b) bs bs' /\
      forall st : State,
        for_each (length (concat (map mem bs))) body
          (StartBlock {| current_Order := order; current_Base := base; copy_from_ := cf;
                         block_ := link_of pas bs |}) st
        = let* st' := foldM body (concat (map mem bs)) st in Ok (cs', st').
Proof.
  intros Ho. pose proof (TotalSize_pos order Ho) as HT.
  induction bs as [|b rest IH]; intros pas base cf Hex.
  - eexists _, []. rewrite app_nil_r.
    split; [|split; [|split; [constructor|]]]; [| |intros st; reflexivity]; reflexivity.
  - apply Forall_cons in Hex as [Hb Hrest]. destruct b as [orig vs]. unfold exact in Hb.
    cbn [mem ValidSize] in Hb. subst vs.
    destruct orig as [|g0 orig0].
    + destruct (IH (pas ++ [{| mem := []; ValidSize := Z.of_nat 0 * TotalSize order |}])
                  base cf Hrest) as (cs' & bs' & Hv & Hp & Hc & Hloop).
      exists cs', ({| mem := []; ValidSize := Z.of_nat 0 * TotalSize order |} :: bs').
      split; [exact Hv|]. split; [rewrite Hp, <- app_assoc; reflexivity|].
      split; [constructor; [reflexivity|exact Hc]|].
      intros st. rewrite StartBlock_skip by reflexivity. apply Hloop.
    + set (orig := g0 :: orig0) in *.
      destruct (StartBlock_enter order base cf pas rest orig Ho ltac:(discriminate))
        as (live & Hinv & Henter).
      destruct (decide (Forall (fun g => bos_at_1 g = false) orig)) as [Hclean|Hmarked].
      * pose proof (invariant_clean orig 0 live Hinv Hclean) as ->.
        pose (b' := {| mem := orig; ValidSize := Z.of_nat (length orig) * TotalSize order |}).
        destruct (IH (pas ++ [b']) (Z.of_nat (length orig)) (Z.of_nat (length orig) - 1) Hrest)
          as (cs' & bs' & Hv & Hp & Hc & Hloop).
        exists cs', (b' :: bs').
        split; [exact Hv|]. split; [rewrite Hp, <- app_assoc; reflexivity|].
        split; [constructor; [reflexivity|exact Hc]|].
        intros st. rewrite Henter.
        cbn [map concat mem]. rewrite length_app.
        change (length orig) with (S (length orig0)) at 1.
        rewrite (for_each_inside_clean body order pas rest orig Ho Hclean (length orig0) 0)
          by reflexivity.
        rewrite foldM_app, drop_0.
        destruct (foldM body orig st) as [st1|e]; [|reflexivity]. simpl.
        unfold leaving. rewrite Link_next_link_of. apply Hloop.
      * destruct (for_each_inside body order pas rest orig Ho (length orig0) 0 live orig
                    Hinv ltac:(reflexivity)) as (m' & live' & Hinv' & Hblock).
        set (b' := {| mem := m'; ValidSize := Z.of_nat live' * TotalSize order |}).
        destruct (IH (pas ++ [b']) (Z.of_nat (length orig)) (Z.of_nat live' - 1) Hrest)
          as (cs' & bs' & Hv & Hp & Hc & Hloop).
        exists cs', (b' :: bs').
        split; [exact Hv|]. split; [rewrite Hp, <- app_assoc; reflexivity|].
        split; [constructor; [intros Hclean; contradiction|exact Hc]|].
        intros st. rewrite Henter.
        cbn [map concat mem]. rewrite length_app.
        change (length orig) with (S (length orig0)) at 1.
        rewrite Hblock, foldM_app. rewrite drop_0.
        destruct (foldM body orig st) as [st1|e]; [|reflexivity]. simpl.
        unfold leaving. rewrite Link_next_link_of. apply Hloop.
Qed.

(** X7: the stream writes only where it has a record to delete.  Over any
    chain, a block none of whose records has the marker at word-position 1
    is handed downstream exactly as it came in (same buffer, same valid
    size), wherever it lies in the chain; hence a chain without such a
    record comes out identical, while every record is still yielded. *)
Theorem CollapseStream_leaves_clean_blocks (order : Z) (input : list Block) :
  0 <= order -> Forall (exact order) input ->
  exists cs',
    yields order input = Ok (cs', concat (map mem input)) /\
    Forall2 (fun b b' => Forall (fun g => bos_at_1 g = false) (mem b) -> b' = b)
            input (passed (block_ cs')) /\
    (Forall (fun g => bos_at_1 g = false) (concat (map mem input)) ->
     passed (block_ cs') = input).
Proof.
  intros Ho Hex.
  destruct (for_each_chain_clean (fun g seen => Ok (seen ++ [g])) order Ho input [] 0 0 Hex)
    as (cs' & bs' & Hv & Hp & Hc & Hloop).
  simpl in Hp. subst bs'.
  exists cs'. split; [|split; [exact Hc|]].
  - unfold yields. rewrite entries_exact, new_StartBlock, Hloop by assumption.
    assert (Hfold : forall l seen,
              foldM (fun g seen => Ok (seen ++ [g])) l seen = Ok (seen ++ l)).
    { induction l as [|g l IHl]; intros seen; simpl; [rewrite app_nil_r; reflexivity|].
      rewrite IHl, <- app_assoc. reflexivity. }
    rewrite Hfold. reflexivity.
  - intros Hclean. symmetry.
    clear -Hc Hclean. induction Hc as [|b b' bs bs' Hb _ IH]; [reflexivity|].
    simpl in Hclean. apply Forall_app in Hclean as [Hcb Hcrest].
    rewrite (Hb Hcb), <- (IH Hcrest). reflexivity.
Qed.

End CollapseStreamClean.

(** ** The books of the driver *)

Lemma tallied_snoc (es : list NGram) (g : NGram) :
  tallied (es ++ [g]) = StatCollector.bumped (tallied es) (Count g).
Proof. unfold tallied. rewrite fold_left_app. reflexivity. Qed.

Lemma histogram_snoc (c : Z) (es : list NGram) (g : NGram) :
  histogram c (es ++ [g]) = histogram c es + (if Count g =? c then 1 else 0).
Proof.
  unfold histogram. rewrite List.filter_app, length_app. simpl.
  destruct (Count g =? c); simpl; lia.
Qed.

Lemma histogram_bounds (c : Z) (es : list NGram) :
  0 <= histogram c es <= Z.of_nat (length es).
Proof.
  unfold histogram. induction es as [|g es IH]; simpl; [lia|].
  destruct (Count g =? c); simpl; lia.
Qed.

(** A slot fed records with counts of at least one, fewer than 2^64 of them,
    holds their number and the histogram of their counts. *)
Lemma tallied_statistics (es : list NGram) :
  Forall (fun g => 1 <= Count g < two64) es ->
  Z.of_nat (length es) < two64 ->
  tallied es = statistics es.
Proof.
  induction es as [|g es IH] using rev_ind; intros Hc Hlen; [reflexivity|].
  apply Forall_app in Hc as [Hes Hg]. apply Forall_cons in Hg as [Hg _].
  rewrite length_app in Hlen. cbn [length] in Hlen.
  rewrite tallied_snoc, IH by (assumption || lia).
  unfold statistics, StatCollector.bumped. cbn [StatCollector.n StatCollector.count].
  rewrite !histogram_snoc, length_app. cbn [length].
  rewrite (incr64_small (Z.of_nat (length es))) by lia.
  pose proof (histogram_bounds 1 es). pose proof (histogram_bounds 2 es).
  pose proof (histogram_bounds 3 es). pose proof (histogram_bounds 4 es).
  f_equal; [|lia].
  destruct (Z.ltb_spec (Count g) 5) as [Hlt|Hge].
  - assert (Hcases : Count g = 1 \/ Count g = 2 \/ Count g = 3 \/ Count g = 4) by lia.
    destruct Hcases as [Hg1 | [Hg1 | [Hg1 | Hg1]]]; rewrite Hg1; simpl;
      rewrite incr64_small by lia; rewrite !Z.add_0_r; reflexivity.
  - destruct (Z.eqb_spec (Count g) 1), (Z.eqb_spec (Count g) 2),
      (Z.eqb_spec (Count g) 3), (Z.eqb_spec (Count g) 4); try lia.
    rewrite !Z.add_0_r. reflexivity.
Qed.

Section AdjustCountsBooks.
Context `{Config}.

Import AdjustCounts.

(** A record without the marker after its first word: the walk toward the
    first word reaches it. *)
Lemma stop_from_clean (full : NGram) (d : nat) :
  ~ CollapseStream.interior_marker full -> (d < length (words full))%nat ->
  stop_from full d = 0%nat.
Proof.
  intros Hclean. induction d as [|d IH]; intros Hd; [reflexivity|].
  cbn [stop_from]. destruct (Z.eqb_spec (word full (Z.of_nat (S d))) kBOS) as [Heq|_].
  - exfalso. apply Hclean. exists (S d). split; [lia|].
    destruct (lookup_lt_is_Some_2 (words full) (S d) Hd) as [w Hw].
    rewrite Hw. f_equal. rewrite <- Heq. unfold word. rewrite Nat2Z.id.
    symmetry. apply nth_lookup_Some. exact Hw.
  - apply IH. lia.
Qed.

Lemma last_words_drop (full : NGram) (i : nat) :
  drop (Z.to_nat (Order full - 1 - Z.of_nat i)) (words full) = last_words (S i) full.
Proof. unfold last_words, Order. f_equal. lia. Qed.

(** One turn of the loop keeps the books. *)
Lemma spec_body_accounted (pool done : list NGram) (full : NGram) (st : state) :
  2 <= Order full -> wf (Order full) st = true ->
  nonzero_from (same_of full st) st = true ->
  full ∈ pool ->
  accounted pool done st ->
  accounted pool (done ++ [full]) (spec_body full st).
Proof.
  intros HN Hwf Hnz Hin [Hstreams (top & Hsub & Htop & Hclean)].
  pose proof (same_of_bounds full st Hwf) as Hsame.
  pose proof (stop_of_bounds full st Hwf) as Hstop.
  apply wf_spec in Hwf as (Hlen & Hwords & Hlv & Hord & Hstats & Hrange).
  rewrite nonzero_from_spec in Hnz.
  unfold spec_body.
  set (same := same_of full st) in *. set (b := stop_of full st) in *.
  set (lv := lower_valid st) in *.
  split; cbn [streams lower_valid stats StatCollector.orders_].
  - intros i s' Hs'. rewrite list_lookup_imap in Hs'.
    destruct (streams st !! i) as [s|] eqn:Hs; [|discriminate]. injection Hs' as <-.
    pose proof (lookup_lt_Some _ _ _ Hs) as Hi.
    destruct (Hstreams i s Hs) as (es & Hsent & Hslot & Hes & Hopen & Hbound).
    rewrite list_lookup_imap, Hslot. cbn [fmap option_fmap option_map].
    rewrite length_app. simpl length.
    assert (Hslot' : spec_slot full same lv b (streams st) i (tallied es)
                     = if (same <=? Z.of_nat i) && (Z.of_nat i <=? lv)
                       then tallied (es ++ [gram s]) else tallied es).
    { unfold spec_slot. rewrite Hs, tallied_snoc.
      destruct ((same <=? Z.of_nat i) && (Z.of_nat i <=? lv)); [reflexivity|].
      destruct (Z.eqb_spec (Z.of_nat i) (Order full - 1)); [lia|reflexivity]. }
    rewrite Hslot'. clear Hslot'.
    unfold spec_stream.
    destruct (Z.ltb_spec (Z.of_nat i) (same - 1)) as [Hlow|Hlow].
    { (* below the incremented record *)
      exists es. split; [exact Hsent|].
      destruct (Z.leb_spec same (Z.of_nat i)); [lia|]. cbn [andb].
      split; [reflexivity|]. split; [exact Hes|].
      split; [intros _; apply Hopen; lia|].
      destruct ((Z.of_nat i <=? lv) && (1 <=? Count (gram s)));
        destruct (_ && _); lia. }
    destruct (Z.eqb_spec (Z.of_nat i) (same - 1)) as [Hinc|Hinc].
    { (* the incremented record *)
      exists es. split; [exact Hsent|].
      destruct (Z.leb_spec same (Z.of_nat i)); [lia|]. cbn [andb].
      split; [reflexivity|]. split; [exact Hes|].
      split; [intros _; apply Hopen; lia|].
      destruct ((Z.of_nat i <=? lv) && (1 <=? Count (gram s)));
        destruct (_ && _); lia. }
    (* the records above *)
    destruct (Z.leb_spec same (Z.of_nat i)); [|lia]. cbn [andb].
    set (p := Order full - 1 - Z.of_nat i).
    assert (Hp : 1 <= p) by (unfold p; lia).
    destruct (Z.leb_spec (Z.of_nat i) lv) as [Hflush|Hclosed].
    + (* published, then possibly opened again *)
      pose proof (Hnz i s ltac:(lia) Hs) as Hone.
      pose proof (Hrange i s ltac:(lia) Hs) as Hc64.
      destruct (Z.leb_spec 1 (Count (gram s))); [|lia]. cbn [andb] in Hbound.
      exists (es ++ [gram s]).
      split.
      { destruct (b <? p); [|destruct (b =? p)]; cbn [sent NGramStream_next];
          rewrite Hsent, map_app; reflexivity. }
      split; [reflexivity|].
      split.
      { apply Forall_app. split; [exact Hes|]. constructor; [|constructor].
        split; [lia|]. apply Hopen. lia. }
      split.
      { intros Hopen'. exists full. split; [exact Hin|].
        destruct (Z.ltb_spec b p); [apply last_words_drop|].
        destruct (Z.eqb_spec b p); [apply last_words_drop|].
        exfalso. destruct (Z.eqb_spec b 0); lia. }
      rewrite length_app. simpl length.
      destruct (_ && _); lia.
    + (* closed, possibly opened *)
      exists es.
      split.
      { destruct (b <? p); [|destruct (b =? p)]; cbn [sent]; exact Hsent. }
      split; [reflexivity|]. split; [exact Hes|].
      split.
      { intros Hopen'. exists full. split; [exact Hin|].
        destruct (Z.ltb_spec b p); [apply last_words_drop|].
        destruct (Z.eqb_spec b p); [apply last_words_drop|].
        exfalso. destruct (Z.eqb_spec b 0); lia. }
      destruct (Z.leb_spec (Z.of_nat i) lv); [lia|]. cbn [andb] in Hbound.
      destruct (_ && _); lia.
  - rewrite length_imap, list_lookup_imap, Htop. cbn [fmap option_fmap option_map].
    unfold spec_slot.
    destruct (Z.leb_spec (Z.of_nat (length (streams st))) lv); [lia|].
    rewrite andb_false_r.
    destruct (Z.eqb_spec (Z.of_nat (length (streams st))) (Order full - 1)); [|lia].
    cbn [andb].
    destruct (Z.eqb_spec b 0) as [Hb|Hb].
    + exists (top ++ [full]). split; [apply sublist_app; [exact Hsub|reflexivity]|].
      split; [rewrite tallied_snoc; reflexivity|].
      intros Hpool. rewrite (Hclean Hpool). reflexivity.
    + exists top. split; [apply sublist_inserts_r; exact Hsub|].
      split; [reflexivity|].
      intros Hpool. exfalso. apply Hb. unfold b, stop_of.
      rewrite stop_from_clean; [reflexivity| |unfold Order in *; lia].
      rewrite Forall_forall in Hpool. apply Hpool. exact Hin.
Qed.

End AdjustCountsBooks.

Section AdjustCountsRun.
Context `{Config}.

Import AdjustCounts.

(** The books at the start of the loop: nothing sent, nothing fed, the
    unigram of the last word of the first N-gram open. *)
Lemma initial_accounted (n : nat) (pool : list NGram) (full : NGram) :
  1 <= Order full -> full ∈ pool -> accounted pool [] (initial n full).
Proof.
  intros HN Hin. unfold accounted, initial.
  cbn [streams stats lower_valid StatCollector.orders_ StatCollector.new].
  split.
  - intros i s Hs.
    pose proof (lookup_lt_Some _ _ _ Hs) as Hi.
    rewrite length_insert, NGramStreams_Init_length in Hi.
    exists []. destruct i as [|i].
    + simpl in Hs. injection Hs as <-. cbn [sent gram words Count].
      split; [reflexivity|].
      split; [apply lookup_replicate; split; [reflexivity|lia]|].
      split; [constructor|]. split; [|simpl; lia].
      intros _. exists full. split; [exact Hin|].
      unfold last_words, word, Order in *.
      destruct (words full) as [|w ws _] using rev_ind; [simpl in HN; lia|].
      rewrite length_app. simpl length.
      replace (Z.to_nat (Z.of_nat (length ws + 1) - 1)) with (length ws) by lia.
      replace (length ws + 1 - 1)%nat with (length ws) by lia.
      rewrite nth_middle, drop_app_length. reflexivity.
    + rewrite list_lookup_insert_ne in Hs by lia.
      rewrite NGramStreams_Init_lookup in Hs by exact Hi. injection Hs as <-.
      cbn [NGramStream_new sent gram].
      split; [reflexivity|].
      split; [apply lookup_replicate; split; [reflexivity|lia]|].
      split; [constructor|]. split; [intros Hle; lia|].
      destruct (Z.leb_spec (Z.of_nat (S i)) 0); [lia|]. simpl. lia.
  - exists []. split; [constructor|]. split; [|reflexivity].
    rewrite length_insert, NGramStreams_Init_length.
    apply lookup_replicate. split; [reflexivity|lia].
Qed.

(** The loop over the N-grams keeps the books. *)
Lemma foldM_body_accounted (N : Z) (pool : list NGram) :
  2 <= N ->
  forall (records : list NGram) (M : Z) (st st' : state) (done : list NGram),
    wf N st = true -> counts_within 1 M st = true ->
    Forall (fun r => Order r = N /\ 1 <= Count r <= M) records ->
    Forall (fun r => r ∈ pool) records ->
    M + Z.of_nat (length records) < two64 ->
    accounted pool done st ->
    foldM body records st = Ok st' -> accounted pool (done ++ records) st'.
Proof.
  intros HN. induction records as [|r rest IH];
    intros M st st' done Hwf Hcounts Hrec Hpool HM Hacc Hrun.
  - simpl in Hrun. injection Hrun as <-. rewrite app_nil_r. exact Hacc.
  - apply Forall_cons in Hrec as [[Hr Hc] Hrest]. subst N.
    apply Forall_cons in Hpool as [Hin Hpool].
    pose proof Hcounts as Hcounts'. rewrite counts_within_spec in Hcounts'.
    simpl length in HM.
    assert (Hnz : nonzero_from (same_of r st) st = true).
    { apply nonzero_from_spec. intros i s Hi Hs. apply (Hcounts' i s); [lia|exact Hs]. }
    simpl foldM in Hrun. rewrite body_spec in Hrun by (assumption || lia).
    cbn [rbind] in Hrun.
    replace (done ++ r :: rest) with ((done ++ [r]) ++ rest)
      by (rewrite <- app_assoc; reflexivity).
    apply (IH (M + 1) (spec_body r st) st'); try assumption.
    + apply spec_body_wf; (assumption || lia).
    + apply spec_body_counts; try (assumption || lia).
      intros i s Hi Hs. pose proof (Hcounts' i s Hi Hs). split; [lia|intros _; lia].
    + eapply Forall_impl; [exact Hrest|]. simpl. intros r' [Hr' Hc']. split; [exact Hr'|lia].
    + lia.
    + apply spec_body_accounted; assumption.
Qed.

(** The statements after the loop close the books: what was open is fed and
    published, every channel is poisoned, and [Complete] reads the slots. *)
Lemma finish_accounted (N M : Z) (pool done : list NGram) (full : CollapseStream.t)
    (st : state) :
  wf N st = true -> counts_within 1 M st = true -> M < two64 ->
  accounted pool done st ->
  exists out,
    finish full st = Ok out /\
    ngrams out = passed (CollapseStream.block_ full) /\
    length (lower out) = length (streams st) /\
    length (counts_ out) = S (length (streams st)) /\
    length (discounts_ out) = S (length (streams st)) /\
    (forall i : nat, (i < length (streams st))%nat ->
       exists s' es,
         lower out !! i = Some s' /\
         sent s' = map Entry es ++ [Poison] /\
         Forall (fun g => 1 <= Count g < two64 /\
                          exists r, r ∈ pool /\ words g = last_words (S i) r) es /\
         Z.of_nat (length es) <= Z.of_nat (length done) /\
         counts_ out !! i = Some (StatCollector.count (tallied es)) /\
         discounts_ out !! i = Some (StatCollector.discount_of (Z.of_nat i) (tallied es))) /\
    exists top,
      sublist top done /\
      counts_ out !! length (streams st) = Some (StatCollector.count (tallied top)) /\
      discounts_ out !! length (streams st)
      = Some (StatCollector.discount_of (Z.of_nat (length (streams st))) (tallied top)) /\
      (Forall (fun r => ~ CollapseStream.interior_marker r) pool -> top = done).
Proof.
  intros Hwf Hcounts HM [Hstreams (top & Hsub & Htop & Hclean)].
  apply wf_spec in Hwf as (Hlen & Hwords & Hlv & Hord & Hstats & Hrange).
  rewrite counts_within_spec in Hcounts.
  destruct (output_valid_spec (Z.to_nat (lower_valid st + 1)) (S (length (streams st))) 0 st)
    as (st' & Hrun & Hlv' & Hstr' & Hord'); try lia; try assumption.
  { intros i s Hi Hs. pose proof (Hcounts i s ltac:(lia) Hs). lia. }
  unfold finish. rewrite Hrun. cbn [rbind]. unfold complete.
  pose proof (StatCollector_Complete_loop_length (StatCollector.orders_ (stats st')) 0)
    as [Hl1 Hl2].
  pose proof (StatCollector_Complete_loop_lookup (StatCollector.orders_ (stats st')) 0)
    as Hlook.
  pose proof (pointwise_length _ _ _ Hord') as Hlen'.
  unfold StatCollector.Complete.
  destruct (StatCollector.Complete_loop 0 (StatCollector.orders_ (stats st')))
    as [counts discounts].
  cbn [fst snd] in Hl1, Hl2, Hlook.
  eexists. split; [reflexivity|]. cbn [ngrams lower counts_ discounts_].
  split; [reflexivity|].
  split; [rewrite length_map; apply (pointwise_length _ _ _ Hstr')|].
  split; [lia|]. split; [lia|]. split.
  - intros i Hi. destruct (lookup_lt_is_Some_2 (streams st) i Hi) as [s Hs].
    destruct (Hstreams i s Hs) as (es & Hsent & Hslot & Hes & Hopen & Hbound).
    rewrite list_lookup_fmap, Hstr', Hs. cbn [fmap option_fmap option_map].
    assert (Hfed : StatCollector.orders_ (stats st') !! i
                   = Some (if Z.of_nat i <=? lower_valid st
                           then tallied (es ++ [gram s]) else tallied es)).
    { rewrite Hord', Hslot. cbn [fmap option_fmap option_map]. unfold fed. rewrite Hs.
      destruct (Z.leb_spec 0 (Z.of_nat i)); [|lia]. cbn [andb].
      rewrite tallied_snoc. destruct (Z.of_nat i <=? lower_valid st); reflexivity. }
    destruct (Hlook i _ Hfed) as [Hc Hd]. rewrite Z.add_0_l in Hd.
    unfold flushed. destruct (Z.leb_spec 0 (Z.of_nat i)); [|lia]. cbn [andb].
    destruct (Z.leb_spec (Z.of_nat i) (lower_valid st)) as [Hflush|Hclosed].
    + pose proof (Hcounts i s Hflush Hs) as Hone.
      destruct (Z.leb_spec 1 (Count (gram s))); [|lia]. cbn [andb] in Hbound.
      eexists _, (es ++ [gram s]). split; [reflexivity|].
      split; [cbn [NGramStream_Poison NGramStream_next sent]; rewrite Hsent, map_app;
              reflexivity|].
      split.
      { apply Forall_app. split; [exact Hes|]. constructor; [|constructor].
        split; [lia|]. apply Hopen. exact Hflush. }
      split; [rewrite length_app; simpl length; lia|].
      split; assumption.
    + eexists _, es. split; [reflexivity|].
      split; [cbn [NGramStream_Poison sent]; rewrite Hsent; reflexivity|].
      split; [exact Hes|].
      split; [destruct (_ && _) in Hbound; lia|].
      split; assumption.
  - exists top. split; [exact Hsub|].
    assert (Hfed : StatCollector.orders_ (stats st') !! length (streams st)
                   = Some (tallied top)).
    { rewrite Hord', Htop. cbn [fmap option_fmap option_map]. unfold fed.
      destruct (Z.leb_spec (Z.of_nat (length (streams st))) (lower_valid st)); [lia|].
      rewrite andb_false_r. reflexivity. }
    destruct (Hlook _ _ Hfed) as [Hc Hd]. rewrite Z.add_0_l in Hd.
    split; [exact Hc|]. split; [exact Hd|exact Hclean].
Qed.

(** The general path of [Run] with its books: what every channel carries and
    what [counts_] and [discounts_] are computed from. *)
Lemma Run_accounting (n : nat) (input : list Block) (B : Z) :
  Forall (CollapseStream.exact (Z.of_nat (S (S n)))) input ->
  concat (map mem input) <> [] ->
  Forall (fun r => Order r = Z.of_nat (S (S n)) /\ 1 <= Count r <= B)
         (concat (map mem input)) ->
  B + Z.of_nat (length (concat (map mem input))) < two64 ->
  exists out,
    Run (S (S n)) input = Ok out /\
    Forall2 (CollapseStream.compacted (Z.of_nat (S (S n)))) input (ngrams out) /\
    length (lower out) = S n /\
    length (counts_ out) = S (S n) /\
    length (discounts_ out) = S (S n) /\
    (forall i : nat, (i < S n)%nat ->
       exists s' es,
         lower out !! i = Some s' /\
         sent s' = map Entry es ++ [Poison] /\
         Forall (fun g => 1 <= Count g < two64 /\
                          exists r, r ∈ concat (map mem input) /\
                                    words g = last_words (S i) r) es /\
         Z.of_nat (length es) <= Z.of_nat (length (concat (map mem input))) /\
         counts_ out !! i = Some (StatCollector.count (tallied es)) /\
         discounts_ out !! i = Some (StatCollector.discount_of (Z.of_nat i) (tallied es))) /\
    exists top,
      sublist top (concat (map mem input)) /\
      counts_ out !! S n = Some (StatCollector.count (tallied top)) /\
      discounts_ out !! S n
      = Some (StatCollector.discount_of (Z.of_nat (S n)) (tallied top)) /\
      (Forall (fun r => ~ CollapseStream.interior_marker r) (concat (map mem input)) ->
       top = concat (map mem input)).
Proof.
  intros Hex Hne Hrec HB.
  destruct (concat (map mem input)) as [|full rest] eqn:Hrecords; [congruence|].
  destruct (Run_unfold n input full rest Hex Hrecords) as (cs' & bs' & Hv & Hp & Hc & Hrun).
  destruct (foldM_body_initial n full rest B Hrec HB) as (st & Hloop & Hwf & Hcounts).
  assert (Hpool : Forall (fun r => r ∈ full :: rest) (full :: rest)).
  { apply Forall_forall. intros r Hr. exact Hr. }
  assert (Hacc : accounted (full :: rest) (full :: rest) st).
  { pose proof Hrec as Hrec'. apply Forall_cons in Hrec' as [[Hr Hcr] Hrest].
    apply Forall_cons in Hpool as [Hin Hpool].
    pose proof (initial_wf n full) as Hwf0. rewrite <- Hr in Hwf0.
    pose proof (initial_same n full ltac:(lia)) as Hsame.
    simpl foldM in Hloop. simpl length in HB.
    assert (Hnz : nonzero_from (same_of full (initial n full)) (initial n full) = true).
    { apply nonzero_from_spec. rewrite Hsame. intros i s Hi _. simpl in Hi. lia. }
    rewrite body_spec in Hloop by (assumption || lia). cbn [rbind] in Hloop.
    change (full :: rest) with (([] ++ [full]) ++ rest) at 2.
    apply (foldM_body_accounted (Z.of_nat (S (S n))) (full :: rest) ltac:(lia) rest (B + 1)
             (spec_body full (initial n full)) st); try assumption.
    - rewrite <- Hr. apply spec_body_wf; (assumption || lia).
    - apply spec_body_counts; try (assumption || lia).
      intros i s Hi Hs. simpl in Hi. replace i with 0%nat in * by lia. simpl in Hs.
      injection Hs as <-. simpl. split; [lia|]. rewrite Hsame. intros Hne'. lia.
    - eapply Forall_impl; [exact Hrest|]. simpl. intros r' [Hr' Hc']. split; [exact Hr'|lia].
    - lia.
    - apply spec_body_accounted; try assumption; try lia.
      apply initial_accounted; [lia|exact Hin]. }
  destruct (finish_accounted (Z.of_nat (S (S n))) _ (full :: rest) (full :: rest) cs' st
              Hwf Hcounts HB Hacc)
    as (out & Hfin & Hng & Hlen & Hlc & Hld & Hchannels & Htop).
  pose proof Hwf as Hwf'. apply wf_spec in Hwf' as (Hlens & _).
  assert (Hstreams : length (streams st) = S n) by lia.
  rewrite Hstreams in *.
  exists out. rewrite Hrun, Hloop. cbn [rbind]. split; [exact Hfin|].
  split; [rewrite Hng, Hp; exact Hc|].
  repeat split; assumption.
Qed.

End AdjustCountsRun.

(** ** What Run publishes and what it counts *)

Section AdjustCountsOutput.
Context `{Config}.

Import AdjustCounts.

(** X8: what the lower-order channels carry.  On the general path (at least
    one N-gram, N-grams of N words with raw counts between 1 and B, no 64-bit
    overflow in sight) the channel of every order [i + 1] below N carries
    records followed by one end-of-data signal; each record has [i + 1]
    words, which are the last [i + 1] words of one of the N-grams read, and
    an (adjusted) count of at least one; and the channel carries at most as
    many records as N-grams were read. *)
Theorem Run_channels_carry_suffixes (n : nat) (input : list Block) (B : Z) :
  Forall (CollapseStream.exact (Z.of_nat (S (S n)))) input ->
  concat (map mem input) <> [] ->
  Forall (fun r => Order r = Z.of_nat (S (S n)) /\ 1 <= Count r <= B)
         (concat (map mem input)) ->
  B + Z.of_nat (length (concat (map mem input))) < two64 ->
  exists out,
    Run (S (S n)) input = Ok out /\
    length (lower out) = S n /\
    forall (i : nat) s, lower out !! i = Some s ->
      exists es,
        sent s = map Entry es ++ [Poison] /\
        (length es <= length (concat (map mem input)))%nat /\
        Forall (fun g => length (words g) = S i /\ 1 <= Count g < two64 /\
                         exists r, r ∈ concat (map mem input) /\
                                   words g = last_words (S i) r) es.
Proof.
  intros Hex Hne Hrec HB.
  destruct (Run_accounting n input B Hex Hne Hrec HB)
    as (out & Hrun & _ & Hlen & _ & _ & Hchannels & _).
  exists out. split; [exact Hrun|]. split; [exact Hlen|].
  intros i s Hs.
  assert (Hi : (i < S n)%nat) by (rewrite <- Hlen; eapply lookup_lt_Some; exact Hs).
  destruct (Hchannels i Hi) as (s' & es & Hs' & Hsent & Hes & Hbound & _).
  assert (s' = s) as -> by congruence.
  exists es. split; [exact Hsent|]. split; [lia|].
  eapply Forall_impl; [exact Hes|]. cbn beta.
  intros g (Hc & r & Hr & Hw). split; [|split; [exact Hc|exists r; auto]].
  rewrite Forall_forall in Hrec. destruct (Hrec r Hr) as [Hor _].
  rewrite Hw. unfold last_words, Order in *. rewrite length_drop. lia.
Qed.

(** X9: the statistics of a lower order are those of what was sent on its
    channel.  On the general path, for every order [i + 1] below N,
    [counts_[i]] is the number of records published on the channel of that
    order, and [discounts_[i]] is computed from the histogram of their
    adjusted counts (bucket [j] is the number of published records whose
    count is [j + 1]). *)
Theorem Run_counts_what_it_sends (n : nat) (input : list Block) (B : Z) :
  Forall (CollapseStream.exact (Z.of_nat (S (S n)))) input ->
  concat (map mem input) <> [] ->
  Forall (fun r => Order r = Z.of_nat (S (S n)) /\ 1 <= Count r <= B)
         (concat (map mem input)) ->
  B + Z.of_nat (length (concat (map mem input))) < two64 ->
  exists out,
    Run (S (S n)) input = Ok out /\
    length (counts_ out) = S (S n) /\
    length (discounts_ out) = S (S n) /\
    forall i : nat, (i < S n)%nat ->
      exists s es,
        lower out !! i = Some s /\
        sent s = map Entry es ++ [Poison] /\
        counts_ out !! i = Some (Z.of_nat (length es)) /\
        discounts_ out !! i
        = Some (StatCollector.discount_of (Z.of_nat i) (statistics es)).
Proof.
  intros Hex Hne Hrec HB.
  destruct (Run_accounting n input B Hex Hne Hrec HB)
    as (out & Hrun & _ & _ & Hlc & Hld & Hchannels & _).
  exists out. split; [exact Hrun|]. split; [exact Hlc|]. split; [exact Hld|].
  intros i Hi.
  destruct (Hchannels i Hi) as (s & es & Hs & Hsent & Hes & Hbound & Hc & Hd).
  assert (Hstat : tallied es = statistics es).
  { apply tallied_statistics.
    - eapply Forall_impl; [exact Hes|]. cbn beta. intros g [Hg _]. exact Hg.
    - assert (1 <= B); [|lia].
      destruct (concat (map mem input)) as [|r rest]; [congruence|].
      apply Forall_cons in Hrec as [[_ Hr] _]. lia. }
  rewrite Hstat in Hc, Hd.
  exists s, es. repeat split; assumption.
Qed.


(** X11: the driver and the compaction stream together.  On the general path
    the blocks of the N-gram chain are handed downstream by [Run] one for
    one, each with its valid size shrunk by the records that had the marker
    at word-position 1; what is left in the valid regions are the other
    records of the block, none of which has the marker at word-position 1. *)
Theorem Run_hands_on_compacted_chain (n : nat) (input : list Block) (B : Z) :
  Forall (CollapseStream.exact (Z.of_nat (S (S n)))) input ->
  concat (map mem input) <> [] ->
  Forall (fun r => Order r = Z.of_nat (S (S n)) /\ 1 <= Count r <= B)
         (concat (map mem input)) ->
  B + Z.of_nat (length (concat (map mem input))) < two64 ->
  exists out,
    Run (S (S n)) input = Ok out /\
    length (ngrams out) = length input /\
    forall (k : nat) b, input !! k = Some b ->
      exists b',
        ngrams out !! k = Some b' /\
        ValidSize b'
        = ValidSize b
          - Z.of_nat (length (CollapseStream.removed (mem b))) * TotalSize (Z.of_nat (S (S n))) /\
        CollapseStream.valid_region (Z.of_nat (S (S n))) b'
          ≡ₚ CollapseStream.survivors (mem b) /\
        Forall (fun g => CollapseStream.bos_at_1 g = false)
               (CollapseStream.valid_region (Z.of_nat (S (S n))) b').
Proof.
  intros Hex Hne Hrec HB.
  destruct (Run_accounting n input B Hex Hne Hrec HB) as (out & Hrun & Hc & _).
  exists out. split; [exact Hrun|].
  split; [symmetry; eapply Forall2_length; exact Hc|].
  intros k b Hb.
  destruct (Forall2_lookup_l _ _ _ _ _ Hc Hb) as (b' & Hb' & _ & Hsize & Hperm).
  exists b'. split; [exact Hb'|]. split; [exact Hsize|]. split; [exact Hperm|].
  apply Forall_forall. intros g Hg. rewrite Hperm in Hg.
  unfold CollapseStream.survivors in Hg.
  apply list_elem_of_In, List.filter_In in Hg as [_ Hg].
  apply negb_true_iff in Hg. exact Hg.
Qed.

End AdjustCountsOutput.

(** ** FindDifference on a record that is not shorter *)

Lemma common_prefix_app_self (a c : list WordIndex) :
  common_prefix (a ++ c) a = length a.
Proof.
  induction a as [|x a IH]; [destruct c; reflexivity|].
  simpl. rewrite Z.eqb_refl, IH. reflexivity.
Qed.

(** X12: [FindDifference] does not require the second record to be shorter.
    For a record [lower] of at most as many words as [full] the answer lies
    between offset [N - 1 - m] and the last word; it is [N - 1 - m] exactly
    when the words of [lower] are the last words of [full]; in particular
    for two records with the same words the answer is offset -1, the
    position before the first word of [full], which is not a word of the
    record. *)
Theorem FindDifference_of_a_suffix (full lower : NGram) :
  Order lower <= Order full ->
  Order full - 1 - Order lower <= FindDifference full lower <= Order full - 1 /\
  (FindDifference full lower = Order full - 1 - Order lower
   <-> words lower `suffix_of` words full) /\
  (words lower = words full -> FindDifference full lower = -1).
Proof.
  intros Hle.
  pose proof (FindDifference_offset full lower Hle) as Hd.
  pose proof (matching_trailing_bounds full lower) as Hb.
  assert (Hsuffix : words lower `suffix_of` words full ->
                    matching_trailing full lower = Order lower).
  { intros [k Hk]. unfold matching_trailing, Order.
    rewrite Hk, rev_app_distr, common_prefix_app_self, length_rev. reflexivity. }
  split; [lia|]. split; [split|].
  - intros Heq.
    destruct (matching_trailing_split full lower)
      as (pf & pl & suf & Hf & Hl & Hk & _).
    assert (Hpl : length pl = 0%nat).
    { unfold Order in *. rewrite Hl, length_app in *. lia. }
    destruct pl; [|discriminate]. exists pf. rewrite Hf, Hl. reflexivity.
  - intros Hs. rewrite Hd, (Hsuffix Hs). reflexivity.
  - intros Heq. rewrite Hd, Hsuffix by (rewrite Heq; reflexivity).
    unfold Order. rewrite Heq. lia.
Qed.

(** ** The open records between two turns of the loop *)

Lemma drop_app_suffix {A : Type} (a suf : list A) (k : nat) :
  (k <= length suf)%nat ->
  drop (length (a ++ suf) - k) (a ++ suf) = drop (length suf - k) suf.
Proof.
  intros Hk. rewrite length_app, drop_app_ge by lia. f_equal. lia.
Qed.

Lemma last_of_take {A : Type} :
  forall (k : nat) (l : list A) (x r : A),
    (x :: l) !! k = Some r -> fold_left (fun _ y => y) (take k l) x = r.
Proof.
  induction k as [|k IH]; intros l x r Hk.
  - simpl in Hk. injection Hk as <-. rewrite take_0. reflexivity.
  - simpl in Hk. destruct l as [|y l]; [discriminate|].
    simpl. apply IH. exact Hk.
Qed.

Section AdjustCountsOpenRecords.
Context `{Config}.

Import AdjustCounts.

(** One turn of the loop: the records left open are the last words of the
    N-gram just read. *)
Lemma spec_body_suffixes (prev full : NGram) (st : state) :
  2 <= Order full -> wf (Order full) st = true ->
  (forall (i : nat) s, Z.of_nat i <= lower_valid st -> streams st !! i = Some s ->
                       words (gram s) = last_words (S i) prev) ->
  open_suffixes full (spec_body full st).
Proof.
  intros HN Hwf Hprev.
  pose proof (same_of_bounds full st Hwf) as Hsame.
  pose proof (stop_of_bounds full st Hwf) as Hstop.
  apply wf_spec in Hwf as (Hlen & Hwords & Hlv & Hord & Hstats & Hrange).
  assert (Hshared : forall i : nat, Z.of_nat (S i) <= same_of full st ->
                      last_words (S i) prev = last_words (S i) full).
  { intros i Hi. unfold same_of in Hi.
    destruct (streams st !! Z.to_nat (lower_valid st)) as [sl|] eqn:Hsl; [|lia].
    pose proof (Hprev (Z.to_nat (lower_valid st)) sl ltac:(lia) Hsl) as Hwl.
    destruct (matching_trailing_split full (gram sl))
      as (pf & pl & suf & Hf & Hl & Hk & _).
    rewrite Hk in Hi.
    assert (Hp : words prev
                 = (take (length (words prev) - S (Z.to_nat (lower_valid st))) (words prev)
                    ++ pl) ++ suf).
    { rewrite <- app_assoc, <- Hl, Hwl. unfold last_words. symmetry. apply take_drop. }
    unfold last_words. rewrite Hf. rewrite Hp at 1 2.
    rewrite !drop_app_suffix by lia. reflexivity. }
  unfold spec_body, open_suffixes.
  set (same := same_of full st) in *. set (b := stop_of full st) in *.
  set (lv := lower_valid st) in *.
  cbn [streams lower_valid]. split.
  - intros i s' Hi Hs'. rewrite list_lookup_imap in Hs'.
    destruct (streams st !! i) as [s|] eqn:Hs; [|discriminate]. injection Hs' as <-.
    pose proof (lookup_lt_Some _ _ _ Hs) as Hlt.
    unfold spec_stream.
    destruct (Z.ltb_spec (Z.of_nat i) (same - 1)).
    { rewrite (Hprev i s ltac:(lia) Hs). apply Hshared. lia. }
    destruct (Z.eqb_spec (Z.of_nat i) (same - 1)).
    { cbn [set_Count gram words]. rewrite (Hprev i s ltac:(lia) Hs). apply Hshared. lia. }
    destruct (Z.ltb_spec b (Order full - 1 - Z.of_nat i)); [apply last_words_drop|].
    destruct (Z.eqb_spec b (Order full - 1 - Z.of_nat i)); [apply last_words_drop|].
    exfalso. destruct (Z.eqb_spec b 0); lia.
  - destruct (Z.eqb_spec b 0) as [Hb|Hb]; [left; lia|]. right.
    replace (Order full - 1 - (Order full - 1 - b)) with b by lia.
    subst b same. unfold stop_of in *.
    destruct (stop_from_spec full (Z.to_nat (Order full - 1 - same_of full st)))
      as [[Hz|[_ Hm]] _]; [lia|exact Hm].
Qed.

(** The loop over any number of further N-grams. *)
Lemma foldM_body_suffixes (N : Z) :
  2 <= N ->
  forall (records : list NGram) (M : Z) (st st' : state) (prev : NGram),
    wf N st = true -> counts_within 1 M st = true ->
    Forall (fun r => Order r = N /\ 1 <= Count r <= M) records ->
    M + Z.of_nat (length records) < two64 ->
    open_suffixes prev st ->
    foldM body records st = Ok st' ->
    open_suffixes (fold_left (fun _ r => r) records prev) st'.
Proof.
  intros HN. induction records as [|r rest IH];
    intros M st st' prev Hwf Hcounts Hrec HM Hopen Hrun.
  - simpl in Hrun. injection Hrun as <-. exact Hopen.
  - apply Forall_cons in Hrec as [[Hr Hc] Hrest]. subst N.
    pose proof Hcounts as Hcounts'. rewrite counts_within_spec in Hcounts'.
    simpl length in HM.
    assert (Hnz : nonzero_from (same_of r st) st = true).
    { apply nonzero_from_spec. intros i s Hi Hs. apply (Hcounts' i s); [lia|exact Hs]. }
    simpl foldM in Hrun. rewrite body_spec in Hrun by (assumption || lia).
    cbn [rbind] in Hrun. cbn [fold_left].
    apply (IH (M + 1) (spec_body r st) st'); try assumption.
    + apply spec_body_wf; (assumption || lia).
    + apply spec_body_counts; try (assumption || lia).
      intros i s Hi Hs. pose proof (Hcounts' i s Hi Hs). split; [lia|intros _; lia].
    + eapply Forall_impl; [exact Hrest|]. simpl. intros r' [Hr' Hc']. split; [exact Hr'|lia].
    + lia.
    + apply (spec_body_suffixes prev); [lia|assumption|exact (proj1 Hopen)].
Qed.

(** X13: between two turns of the loop the open lower-order records are the
    suffixes of the N-gram just processed.  After the driver has processed
    the N-gram [r] (any record of a run from the initialization, under the
    hypotheses of the general path), every open record, of order [i + 1] for
    [i] up to [lower_valid], holds the last [i + 1] words of [r]; and the
    open records reach down to the second word of [r] ([lower_valid] is on
    the stream of order N - 1) unless the longest of them starts with the
    sentence-start marker. *)
Theorem open_records_are_suffixes (n : nat) (full : NGram) (rest : list NGram)
    (B : Z) (k : nat) (r : NGram) :
  Forall (fun r => Order r = Z.of_nat (S (S n)) /\ 1 <= Count r <= B) (full :: rest) ->
  B + Z.of_nat (length (full :: rest)) < two64 ->
  (full :: rest) !! k = Some r ->
  exists st',
    foldM body (take (S k) (full :: rest)) (initial n full) = Ok st' /\
    (forall (i : nat) s,
       Z.of_nat i <= lower_valid st' -> streams st' !! i = Some s ->
       words (gram s) = last_words (S i) r /\ length (words (gram s)) = S i) /\
    (lower_valid st' = Z.of_nat n \/
     word r (Z.of_nat (S n) - lower_valid st') = kBOS).
Proof.
  intros Hrec HB Hk.
  destruct (foldM_body_initial n full (take k rest) B) as (st' & Hrun & Hwf & _).
  { apply Forall_cons in Hrec as [Hr Hrest]. constructor; [exact Hr|].
    apply Forall_take. exact Hrest. }
  { simpl length in *. rewrite length_take. lia. }
  exists st'. split; [exact Hrun|].
  assert (Hopen : open_suffixes r st').
  { pose proof Hrec as Hrec'. apply Forall_cons in Hrec' as [[Hr Hcr] Hrest].
    pose proof (initial_wf n full) as Hwf0. rewrite <- Hr in Hwf0.
    pose proof (initial_same n full ltac:(lia)) as Hsame.
    cbn [take] in Hrun. simpl foldM in Hrun. simpl length in HB.
    assert (Hnz : nonzero_from (same_of full (initial n full)) (initial n full) = true).
    { apply nonzero_from_spec. rewrite Hsame. intros i s Hi _. simpl in Hi. lia. }
    rewrite body_spec in Hrun by (assumption || lia). cbn [rbind] in Hrun.
    rewrite <- (last_of_take k rest full r Hk).
    apply (foldM_body_suffixes (Z.of_nat (S (S n))) ltac:(lia) (take k rest) (B + 1)
             (spec_body full (initial n full)) st'); try assumption.
    - rewrite <- Hr. apply spec_body_wf; (assumption || lia).
    - apply spec_body_counts; try (assumption || lia).
      intros i s Hi Hs. simpl in Hi. replace i with 0%nat in * by lia. simpl in Hs.
      injection Hs as <-. simpl. split; [lia|]. rewrite Hsame. intros Hne'. lia.
    - apply Forall_take. eapply Forall_impl; [exact Hrest|]. simpl.
      intros r' [Hr' Hc']. split; [exact Hr'|lia].
    - rewrite length_take. lia.
    - apply (spec_body_suffixes full); [lia|exact Hwf0|].
      destruct (initial_accounted n [full] full ltac:(lia) ltac:(left)) as [Hacc _].
      intros i s Hi Hs. destruct (Hacc i s Hs) as (es & _ & _ & _ & Hw & _).
      destruct (Hw Hi) as (r0 & Hr0 & Hwr0).
      apply list_elem_of_singleton in Hr0. subst r0. exact Hwr0. }
  assert (Hor : Order r = Z.of_nat (S (S n))).
  { rewrite Forall_lookup in Hrec. exact (proj1 (Hrec k r Hk)). }
  apply wf_spec in Hwf as (_ & Hwords & _).
  destruct Hopen as [Hsuf Hreach]. split.
  - intros i s Hi Hs. split; [exact (Hsuf i s Hi Hs)|exact (Hwords i s Hs)].
  - rewrite Hor in Hreach. destruct Hreach as [Hl|Hm]; [left; lia|right].
    replace (Z.of_nat (S n) - lower_valid st')
      with (Z.of_nat (S (S n)) - 1 - lower_valid st') by lia.
    exact Hm.
Qed.

End AdjustCountsOpenRecords.

(** ** A count of zero *)

Lemma at_index_Err {A : Type} (v : list A) (i : Z) (e : error) :
  at_index v i = Err e -> e = OutOfBounds.
Proof.
  unfold at_index. destruct ((0 <=? i) && (i <? Z.of_nat (length v))).
  - destruct (v !! Z.to_nat i); [discriminate|]. intros [= <-]. reflexivity.
  - intros [= <-]. reflexivity.
Qed.

Lemma StatCollector_bump_zero (stat : StatCollector.OrderStat) :
  length (StatCollector.n stat) = 4%nat ->
  StatCollector.bump stat 0 = Err OutOfBounds.
Proof.
  intros Hn. unfold StatCollector.bump. cbn [Z.ltb Z.compare StatCollector.n].
  unfold at_index. rewrite Hn.
  replace (decr64 0 <? Z.of_nat 4) with false by (vm_compute; reflexivity).
  rewrite andb_false_r. reflexivity.
Qed.

Lemma Add_zero_count_Err (stats : StatCollector.t) :
  StatCollector.wf stats ->
  (forall j, StatCollector.Add j 0 stats = Err OutOfBounds) /\
  StatCollector.AddFull 0 stats = Err OutOfBounds.
Proof.
  intros Hwf.
  assert (Hadd : forall j, StatCollector.Add j 0 stats = Err OutOfBounds).
  { intros j. unfold StatCollector.Add.
    destruct (at_index (StatCollector.orders_ stats) j) as [stat|e] eqn:Hat.
    - apply at_index_Ok in Hat as [_ Hstat]. cbn [rbind].
      rewrite StatCollector_bump_zero; [reflexivity|].
      unfold StatCollector.wf in Hwf. rewrite Forall_lookup in Hwf. exact (Hwf _ _ Hstat).
    - rewrite (at_index_Err _ _ _ Hat). reflexivity. }
  split; [exact Hadd|apply Hadd].
Qed.

(** X14: the guard [count < 5] lets a count of zero through, on every
    collector and every slot.  [Add] with a count of zero never succeeds: on
    a slot of the collector it evaluates [n[count - 1]] with the index
    2^64 - 1, outside the four buckets, and outside the slots the access to
    [orders_] is itself out of bounds.  [AddFull] likewise. *)
Theorem Add_with_zero_count_is_out_of_bounds (stats : StatCollector.t) (i : Z) :
  StatCollector.wf stats ->
  StatCollector.Add i 0 stats = Err OutOfBounds /\
  StatCollector.AddFull 0 stats = Err OutOfBounds.
Proof.
  intros Hwf. destruct (Add_zero_count_Err stats Hwf) as [Hadd Hfull].
  split; [apply Hadd|exact Hfull].
Qed.

Section UnigramZeroCount.
Context `{Config}.

(** X15: with a single order, the first unigram whose raw count is zero
    stops [Run].  If the records before it have counts of at least one, the
    run fails on that record with the out-of-bounds access of [AddFull],
    whatever follows it in the chain. *)
Theorem single_order_run_stops_at_zero_count (input : list Block) (before after : list NGram)
    (g : NGram) :
  NGramStream_read 1 input = before ++ g :: after ->
  Forall (fun r => 1 <= Count r < two64) before ->
  Z.of_nat (length before) < two64 ->
  Count g = 0 ->
  AdjustCounts.Run 1 input = Err OutOfBounds.
Proof.
  intros Hread Hbefore Hlen Hg. unfold AdjustCounts.Run. rewrite Hread.
  rewrite fold_left_app. rewrite fold_AddFull_Add_all.
  change (Z.of_nat (length (StatCollector.orders_ (StatCollector.new 1))) - 1) with 0.
  destruct (Add_all_tally (map (fun r => (0, Count r)) before) 0 (StatCollector.new 1))
    as (stats' & Hrun & Hwf & _).
  - apply StatCollector_new_wf.
  - rewrite Forall_map. eapply Forall_impl; [exact Hbefore|].
    intros r Hr. cbn [fst snd]. split; [|exact Hr]. simpl. lia.
  - intros k s Hs. unfold StatCollector.new in Hs. cbn [StatCollector.orders_] in Hs.
    apply lookup_replicate in Hs as [-> _]. split; [simpl; lia|].
    intros j. unfold StatCollector.n_at. simpl.
    destruct (Z.to_nat (Z.of_nat j)) as [|[|[|[|[|x]]]]]; simpl; lia.
  - rewrite length_map. lia.
  - rewrite Hrun. cbn [fold_left rbind]. rewrite Hg.
    rewrite (proj2 (Add_zero_count_Err stats' Hwf)).
    rewrite fold_AddFull_Err. reflexivity.
Qed.

End UnigramZeroCount.

(** ** A run over a single N-gram *)

Section AdjustCountsSingleRecord.
Context `{Config}.

Import AdjustCounts.

Lemma last_words_1 (r : NGram) :
  1 <= Order r -> [word r (Order r - 1)] = last_words 1 r.
Proof.
  intros HN. unfold last_words, word, Order in *.
  destruct (words r) as [|w ws _] using rev_ind; [simpl in HN; lia|].
  rewrite length_app. simpl length.
  replace (Z.to_nat (Z.of_nat (length ws + 1) - 1)) with (length ws) by lia.
  replace (length ws + 1 - 1)%nat with (length ws) by lia.
  rewrite nth_middle, drop_app_length. reflexivity.
Qed.

(** The channels after the single turn of the loop and the statements that
    follow it. *)
Lemma single_record_channels (n : nat) (r : NGram) (cs' : CollapseStream.t) :
  Order r = Z.of_nat (S (S n)) -> 1 <= Count r -> Count r + 1 < two64 ->
  exists out,
    (let* st := foldM body [r] (initial n r) in finish cs' st) = Ok out /\
    forall i : nat, (i < S n)%nat ->
      exists s,
        lower out !! i = Some s /\
        sent s
        = (if (stop_from r n <=? S n - i)%nat
           then [Entry {| words := last_words (S i) r;
                          Count := if (stop_from r n =? S n - i)%nat
                                   then Count r else 1 |}]
           else [])
          ++ [Poison].
Proof.
  intros Hor Hc1 Hc2.
  pose proof (initial_wf n r) as Hwf0. rewrite <- Hor in Hwf0.
  pose proof (initial_same n r ltac:(lia)) as Hsame.
  assert (Hnz : nonzero_from (same_of r (initial n r)) (initial n r) = true).
  { apply nonzero_from_spec. rewrite Hsame. intros i s Hi _. simpl in Hi. lia. }
  cbn [foldM]. rewrite body_spec by (assumption || lia). cbn [rbind].
  set (st1 := spec_body r (initial n r)).
  assert (Hwf1 : wf (Order r) st1 = true) by (apply spec_body_wf; (assumption || lia)).
  assert (Hcounts1 : counts_within 1 (Count r + 1) st1 = true).
  { apply spec_body_counts; try (assumption || lia).
    intros i s Hi Hs. simpl in Hi. replace i with 0%nat in * by lia. simpl in Hs.
    injection Hs as <-. simpl. split; [lia|]. rewrite Hsame. intros Hne. lia. }
  destruct (finish_spec (Order r) (Count r + 1) cs' st1 Hwf1 Hcounts1 Hc2)
    as (out & Hfin & _ & _ & Hsent).
  exists out. split; [exact Hfin|].
  intros i Hi.
  assert (Hb : stop_of r (initial n r) = Z.of_nat (stop_from r n)).
  { unfold stop_of. rewrite Hsame, Hor. do 2 f_equal. lia. }
  pose proof (stop_from_le r n) as Hble.
  assert (Hlv : lower_valid st1
                = Order r - 1 - (if Z.of_nat (stop_from r n) =? 0 then 1
                                 else Z.of_nat (stop_from r n))).
  { unfold st1, spec_body. cbn [lower_valid]. rewrite Hb. reflexivity. }
  assert (Hstream : exists s0,
            streams (initial n r) !! i = Some s0 /\ sent s0 = [] /\
            (i = 0%nat -> gram s0 = {| words := [word r (Order r - 1)]; Count := 0 |})).
  { unfold initial. cbn [streams]. destruct i as [|i].
    - eexists. split; [reflexivity|]. split; [reflexivity|]. intros _. reflexivity.
    - rewrite list_lookup_insert_ne by lia.
      rewrite NGramStreams_Init_lookup by lia.
      eexists. split; [reflexivity|]. split; [reflexivity|]. intros Hz. lia. }
  destruct Hstream as (s0 & Hs0 & Hsent0 & Hgram0).
  assert (Hs1 : streams st1 !! i
                = Some (spec_stream r 1 0 (Z.of_nat (stop_from r n)) i s0)).
  { unfold st1, spec_body. cbn [streams]. rewrite list_lookup_imap, Hs0, Hsame, Hb.
    reflexivity. }
  destruct (Hsent i _ Hs1) as (s' & Hs' & Hsent').
  exists s'. split; [exact Hs'|]. rewrite Hsent', Hlv. clear Hsent' Hs' Hsent Hfin.
  unfold spec_stream. change (1 - 1) with 0.
  destruct (Z.ltb_spec (Z.of_nat i) 0); [lia|].
  destruct (Z.eqb_spec (Z.of_nat i) 0) as [Hi0|Hi0].
  - (* the unigram: opened by the initialization, incremented once *)
    assert (i = 0%nat) as -> by lia.
    cbn [set_Count gram sent words Count]. rewrite (Hgram0 eq_refl), Hsent0.
    cbn [words Count].
    destruct (Nat.leb_spec (stop_from r n) (S n - 0)); [|lia].
    destruct (Nat.eqb_spec (stop_from r n) (S n - 0)); [lia|].
    destruct (Z.leb_spec (Z.of_nat 0)
                (Order r - 1 - (if Z.of_nat (stop_from r n) =? 0 then 1
                                else Z.of_nat (stop_from r n)))) as [_|Hno].
    + rewrite last_words_1 by lia. reflexivity.
    + exfalso. destruct (Z.eqb_spec (Z.of_nat (stop_from r n)) 0); lia.
  - (* the higher orders: opened by the walk *)
    destruct (Z.leb_spec (Z.of_nat i) 0); [lia|].
    destruct (Z.ltb_spec (Z.of_nat (stop_from r n)) (Order r - 1 - Z.of_nat i)) as [Hlt|Hge].
    + cbn [gram sent]. rewrite Hsent0, last_words_drop.
      destruct (Nat.leb_spec (stop_from r n) (S n - i)); [|lia].
      destruct (Nat.eqb_spec (stop_from r n) (S n - i)); [lia|].
      destruct (Z.leb_spec (Z.of_nat i)
                  (Order r - 1 - (if Z.of_nat (stop_from r n) =? 0 then 1
                                  else Z.of_nat (stop_from r n)))) as [_|Hno];
        [reflexivity|].
      exfalso. destruct (Z.eqb_spec (Z.of_nat (stop_from r n)) 0); lia.
    + destruct (Z.eqb_spec (Z.of_nat (stop_from r n)) (Order r - 1 - Z.of_nat i)) as [Heq|Hne].
      * cbn [gram sent]. rewrite Hsent0, last_words_drop.
        destruct (Nat.leb_spec (stop_from r n) (S n - i)); [|lia].
        destruct (Nat.eqb_spec (stop_from r n) (S n - i)); [|lia].
        destruct (Z.leb_spec (Z.of_nat i)
                    (Order r - 1 - (if Z.of_nat (stop_from r n) =? 0 then 1
                                    else Z.of_nat (stop_from r n)))) as [_|Hno];
          [reflexivity|].
        exfalso. destruct (Z.eqb_spec (Z.of_nat (stop_from r n)) 0); lia.
      * rewrite Hsent0.
        destruct (Nat.leb_spec (stop_from r n) (S n - i)); [lia|].
        destruct (Z.leb_spec (Z.of_nat i)
                    (Order r - 1 - (if Z.of_nat (stop_from r n) =? 0 then 1
                                    else Z.of_nat (stop_from r n)))) as [Hyes|_];
          [|reflexivity].
        exfalso. destruct (Z.eqb_spec (Z.of_nat (stop_from r n)) 0); lia.
Qed.

(** X16: a run over a single N-gram [r].  Walking from the word before the
    last toward the first, let [b] be the offset of the first sentence-start
    marker met before the first word (0 if there is none).  Then every order
    [i + 1] whose record starts at or after [b] gets exactly one record, the
    last [i + 1] words of [r], with count 1 (with the raw count of [r] for
    the record that starts on the marker), followed by the end-of-data
    signal; the orders above get the signal only; [counts_] of each lower
    order is the number of records sent, and [counts_[N - 1]] is 1 when [r]
    has no marker after its first word. *)
Theorem Run_on_a_single_record (n : nat) (input : list Block) (r : NGram) :
  Forall (CollapseStream.exact (Z.of_nat (S (S n)))) input ->
  concat (map mem input) = [r] ->
  Order r = Z.of_nat (S (S n)) -> 1 <= Count r -> Count r + 1 < two64 ->
  exists out,
    Run (S (S n)) input = Ok out /\
    (forall i : nat, (i < S n)%nat ->
       exists s,
         lower out !! i = Some s /\
         sent s
         = (if (stop_from r n <=? S n - i)%nat
            then [Entry {| words := last_words (S i) r;
                           Count := if (stop_from r n =? S n - i)%nat
                                    then Count r else 1 |}]
            else [])
           ++ [Poison] /\
         counts_ out !! i = Some (if (stop_from r n <=? S n - i)%nat then 1 else 0)) /\
    (~ CollapseStream.interior_marker r -> counts_ out !! S n = Some 1).
Proof.
  intros Hex Hrec Hor Hc1 Hc2.
  destruct (Run_unfold n input r [] Hex Hrec) as (cs' & bs' & _ & _ & _ & Hrun).
  destruct (single_record_channels n r cs' Hor Hc1 Hc2) as (out & Hfin & Hch).
  destruct (Run_accounting n input (Count r) Hex)
    as (out' & Hrun' & _ & _ & _ & _ & Hacc & top & _ & Htop & _ & Hclean).
  { rewrite Hrec. discriminate. }
  { rewrite Hrec. repeat constructor; (assumption || lia). }
  { rewrite Hrec. simpl length. lia. }
  assert (out' = out) as -> by (rewrite Hrun, Hfin in Hrun'; congruence).
  exists out. split; [exact Hrun'|]. split.
  - intros i Hi. destruct (Hch i Hi) as (s & Hs & Hsent).
    exists s. split; [exact Hs|]. split; [exact Hsent|].
    destruct (Hacc i Hi) as (s' & es & Hs' & Hsent' & _ & _ & Hcount & _).
    assert (s' = s) as -> by congruence.
    rewrite Hcount. f_equal. rewrite Hsent in Hsent'.
    apply app_inv_tail in Hsent'.
    destruct (stop_from r n <=? S n - i)%nat.
    + destruct es as [|g [|g' es]]; try discriminate. reflexivity.
    + destruct es; [reflexivity|discriminate].
  - intros Hnone. rewrite Htop, Hclean.
    + rewrite Hrec. reflexivity.
    + rewrite Hrec. repeat constructor. exact Hnone.
Qed.

End AdjustCountsSingleRecord.

(** ** The adjusted counts of N-grams without interior marker *)

Lemma common_prefix_take (a : list WordIndex) :
  forall (b : list WordIndex) (k : nat),
    common_prefix a (take k b) = (k `min` common_prefix a b)%nat.
Proof.
  induction a as [|x a IH]; intros b k; [simpl; lia|].
  destruct b as [|y b]; [rewrite take_nil; simpl; lia|].
  destruct k as [|k]; [reflexivity|].
  simpl. destruct (x =? y); [rewrite IH|]; lia.
Qed.

(** Against the last [k] words of [prev], an N-gram matches as it does
    against [prev], up to [k] words. *)
Lemma matching_trailing_last_words (r prev g : NGram) (k : nat) :
  words g = last_words k prev ->
  matching_trailing r g = Z.min (Z.of_nat k) (matching_trailing r prev).
Proof.
  intros Hw. unfold matching_trailing. rewrite Hw. unfold last_words.
  rewrite <- firstn_rev, common_prefix_take. lia.
Qed.

Section AdjustCountsAdjusted.
Context `{Config}.

Import AdjustCounts.

(** One turn of the loop on an N-gram without interior marker, all the lower
    orders being open: what becomes of the stream of order [i + 1]. *)
Lemma spec_body_clean (prev r : NGram) (st : state) (i : nat) (s : NGramStream) :
  2 <= Order r -> wf (Order r) st = true -> Order prev = Order r ->
  lower_valid st = Order r - 2 ->
  (forall (j : nat) s, streams st !! j = Some s -> words (gram s) = last_words (S j) prev) ->
  ~ CollapseStream.interior_marker r ->
  streams st !! i = Some s ->
  lower_valid (spec_body r st) = Order r - 2 /\
  streams (spec_body r st) !! i
  = Some (if shared r prev <=? Z.of_nat i then
            {| gram := {| words := last_words (S i) r; Count := 1 |};
               sent := sent s ++ [Entry (gram s)] |}
          else if shared r prev =? Z.of_nat i + 1 then
            set_Count s (incr64 (Count (gram s)))
          else s).
Proof.
  intros HN Hwf Hprev Hlv Hsuf Hclean Hs.
  pose proof (same_of_bounds r st Hwf) as Hsame.
  pose proof (wf_spec (Order r) st) as [Hshape _].
  destruct (Hshape Hwf) as (Hlen & _).
  pose proof (lookup_lt_Some _ _ _ Hs) as Hi.
  assert (Hsh : same_of r st = shared r prev).
  { unfold same_of, shared.
    destruct (lookup_lt_is_Some_2 (streams st) (Z.to_nat (lower_valid st)) ltac:(lia))
      as [sl Hsl].
    rewrite Hsl, (matching_trailing_last_words r prev (gram sl) _ (Hsuf _ _ Hsl)).
    f_equal. lia. }
  assert (Hb : stop_of r st = 0).
  { unfold stop_of. rewrite stop_from_clean; [reflexivity|exact Hclean|].
    unfold Order in *. lia. }
  unfold spec_body. cbn [lower_valid streams]. rewrite Hb, Hsh. cbn [Z.eqb].
  split; [lia|].
  rewrite list_lookup_imap, Hs. cbn [fmap option_fmap option_map]. f_equal.
  rewrite Hsh in Hsame. unfold spec_stream.
  destruct (Z.ltb_spec (Z.of_nat i) (shared r prev - 1)).
  { destruct (Z.leb_spec (shared r prev) (Z.of_nat i)); [lia|].
    destruct (Z.eqb_spec (shared r prev) (Z.of_nat i + 1)); [lia|reflexivity]. }
  destruct (Z.eqb_spec (Z.of_nat i) (shared r prev - 1)).
  { destruct (Z.leb_spec (shared r prev) (Z.of_nat i)); [lia|].
    destruct (Z.eqb_spec (shared r prev) (Z.of_nat i + 1)); [reflexivity|lia]. }
  destruct (Z.leb_spec (shared r prev) (Z.of_nat i)); [|lia].
  destruct (Z.leb_spec (Z.of_nat i) (lower_valid st)); [|lia].
  destruct (Z.ltb_spec 0 (Order r - 1 - Z.of_nat i)); [|lia].
  rewrite last_words_drop. reflexivity.
Qed.

(** The loop over further N-grams without interior marker: what each channel
    will have carried once its open record is published. *)
Lemma foldM_body_adjusted (N : Z) :
  2 <= N ->
  forall (rest : list NGram) (M : Z) (st : state) (prev : NGram),
    wf N st = true -> counts_within 1 M st = true ->
    lower_valid st = N - 2 -> Order prev = N ->
    (forall (i : nat) s, streams st !! i = Some s ->
                         words (gram s) = last_words (S i) prev) ->
    Forall (fun r => (Order r = N /\ 1 <= Count r <= M) /\
                     ~ CollapseStream.interior_marker r) rest ->
    M + Z.of_nat (length rest) < two64 ->
    exists st',
      foldM body rest st = Ok st' /\
      wf N st' = true /\
      counts_within 1 (M + Z.of_nat (length rest)) st' = true /\
      lower_valid st' = N - 2 /\
      forall (i : nat) s, streams st !! i = Some s ->
        exists s',
          streams st' !! i = Some s' /\
          sent s' ++ [Entry (gram s')]
          = sent s ++ map Entry (adjusted_records i (Count (gram s)) prev rest).
Proof.
  intros HN. induction rest as [|r rest IH];
    intros M st prev Hwf Hcounts Hlv Hprev Hsuf Hrec HM.
  - exists st. simpl. rewrite Z.add_0_r. repeat split; try assumption.
    intros i s Hs. exists s. split; [exact Hs|]. do 2 f_equal.
    rewrite <- (Hsuf i s Hs). destruct (gram s). reflexivity.
  - apply Forall_cons in Hrec as [[[Hr Hc] Hclean] Hrest].
    revert Hprev. subst N. intros Hprev.
    pose proof Hcounts as Hcounts'. rewrite counts_within_spec in Hcounts'.
    simpl length in HM.
    assert (Hnz : nonzero_from (same_of r st) st = true).
    { apply nonzero_from_spec. intros i s Hi Hs. apply (Hcounts' i s); [lia|exact Hs]. }
    simpl foldM. rewrite body_spec by (assumption || lia). cbn [rbind].
    assert (Hlv1 : lower_valid (spec_body r st) = Order r - 2).
    { pose proof (wf_spec (Order r) st) as [Hshape _].
      destruct (Hshape Hwf) as (Hlen & _).
      destruct (lookup_lt_is_Some_2 (streams st) 0%nat ltac:(lia)) as [s0 Hs0].
      exact (proj1 (spec_body_clean prev r st 0 s0 HN Hwf Hprev Hlv Hsuf Hclean Hs0)). }
    assert (Hwf1 : wf (Order r) (spec_body r st) = true)
      by (apply spec_body_wf; (assumption || lia)).
    destruct (IH (M + 1) (spec_body r st) r) as (st' & Hrun & Hwf' & Hcounts'' & Hlv' & Hch);
      try assumption; try lia.
    + apply spec_body_counts; try (assumption || lia).
      intros i s Hi Hs. pose proof (Hcounts' i s Hi Hs). split; [lia|intros _; lia].
    + destruct (spec_body_suffixes prev r st HN Hwf) as [Hsuf1 _].
      { intros i s _ Hs. exact (Hsuf i s Hs). }
      intros i s Hs. apply (Hsuf1 i s); [|exact Hs].
      pose proof (lookup_lt_Some _ _ _ Hs) as Hi.
      pose proof (wf_spec (Order r) (spec_body r st)) as [Hshape _].
      destruct (Hshape Hwf1) as (Hlen & _). lia.
    + eapply Forall_impl; [exact Hrest|]. cbn beta.
      intros r' [[Hr' Hc'] Hcl']. split; [split; [exact Hr'|lia]|exact Hcl'].
    + exists st'. split; [exact Hrun|]. split; [exact Hwf'|].
      split.
      { replace (M + Z.of_nat (length (r :: rest)))
          with (M + 1 + Z.of_nat (length rest)) by (simpl length; lia).
        exact Hcounts''. }
      split; [exact Hlv'|].
      intros i s Hs.
      destruct (spec_body_clean prev r st i s HN Hwf Hprev Hlv Hsuf Hclean Hs) as [_ Hs1].
      destruct (Hch i _ Hs1) as (s' & Hs' & Hsent).
      exists s'. split; [exact Hs'|]. rewrite Hsent. clear Hsent.
      pose proof (lookup_lt_Some _ _ _ Hs) as Hi.
      pose proof (wf_spec (Order r) st) as [Hshape _].
      destruct (Hshape Hwf) as (Hlen & _).
      pose proof (Hcounts' i s ltac:(lia) Hs) as Hci.
      cbn [adjusted_records].
      destruct (Z.leb_spec (shared r prev) (Z.of_nat i)).
      * cbn [gram sent Count map]. rewrite <- app_assoc. cbn [app]. do 3 f_equal.
        rewrite <- (Hsuf i s Hs). destruct (gram s). reflexivity.
      * destruct (Z.eqb_spec (shared r prev) (Z.of_nat i + 1)); [|reflexivity].
        cbn [set_Count gram sent Count]. rewrite incr64_small by lia. reflexivity.
Qed.

(** The streams after the first turn of the loop, on an N-gram without
    interior marker: every lower order is open with count 1 and nothing has
    been sent. *)
Lemma first_turn_clean (n : nat) (full : NGram) (i : nat) :
  Order full = Z.of_nat (S (S n)) -> ~ CollapseStream.interior_marker full ->
  (i < S n)%nat ->
  lower_valid (spec_body full (initial n full)) = Z.of_nat n /\
  exists s1,
    streams (spec_body full (initial n full)) !! i = Some s1 /\
    sent s1 = [] /\ Count (gram s1) = 1.
Proof.
  intros Hor Hclean Hi.
  pose proof (initial_same n full ltac:(lia)) as Hsame.
  assert (Hb : stop_of full (initial n full) = 0).
  { unfold stop_of. rewrite stop_from_clean; [reflexivity|exact Hclean|].
    unfold Order in *. lia. }
  unfold spec_body. cbn [lower_valid streams]. rewrite Hb, Hsame. cbn [Z.eqb].
  split; [lia|].
  rewrite list_lookup_imap. unfold initial. cbn [streams lower_valid].
  destruct i as [|i].
  - cbn. eexists. split; [reflexivity|]. split; reflexivity.
  - rewrite list_lookup_insert_ne by lia.
    rewrite NGramStreams_Init_lookup by lia. cbn [fmap option_fmap option_map].
    unfold spec_stream. change (1 - 1) with 0.
    destruct (Z.ltb_spec (Z.of_nat (S i)) 0); [lia|].
    destruct (Z.eqb_spec (Z.of_nat (S i)) 0); [lia|].
    destruct (Z.leb_spec (Z.of_nat (S i)) 0); [lia|].
    destruct (Z.ltb_spec 0 (Order full - 1 - Z.of_nat (S i))); [|lia].
    eexists. split; [reflexivity|]. split; reflexivity.
Qed.

(** X17: what the adjusted counts are.  On the general path, if no N-gram
    has the sentence-start marker after its first word, the channel of every
    order [i + 1] below N carries exactly [adjusted_records]: one record for
    each stretch of consecutive N-grams that keep the same last [i + 1]
    words, holding these words, and whose count is the number of times the
    word in front of them changed along the stretch, the first N-gram
    included (for order N - 1, the number of N-grams of the stretch);
    followed by the end-of-data signal. *)
Theorem Run_publishes_adjusted_records (n : nat) (input : list Block)
    (full : NGram) (rest : list NGram) (B : Z) :
  Forall (CollapseStream.exact (Z.of_nat (S (S n)))) input ->
  concat (map mem input) = full :: rest ->
  Forall (fun r => (Order r = Z.of_nat (S (S n)) /\ 1 <= Count r <= B) /\
                   ~ CollapseStream.interior_marker r) (full :: rest) ->
  B + Z.of_nat (length (full :: rest)) < two64 ->
  exists out,
    Run (S (S n)) input = Ok out /\
    forall i : nat, (i < S n)%nat ->
      exists s,
        lower out !! i = Some s /\
        sent s = map Entry (adjusted_records i 1 full rest) ++ [Poison].
Proof.
  intros Hex Hrecords Hrec HB.
  destruct (Run_unfold n input full rest Hex Hrecords) as (cs' & bs' & _ & _ & _ & Hrun).
  apply Forall_cons in Hrec as [[[Hr Hcr] Hclean] Hrest].
  pose proof (initial_wf n full) as Hwf0. rewrite <- Hr in Hwf0.
  pose proof (initial_same n full ltac:(lia)) as Hsame.
  simpl length in HB.
  assert (Hnz : nonzero_from (same_of full (initial n full)) (initial n full) = true).
  { apply nonzero_from_spec. rewrite Hsame. intros i s Hi _. simpl in Hi. lia. }
  set (st1 := spec_body full (initial n full)).
  assert (Hwf1 : wf (Z.of_nat (S (S n))) st1 = true).
  { rewrite <- Hr. apply spec_body_wf; (assumption || lia). }
  assert (Hlen1 : length (streams st1) = S n).
  { apply wf_spec in Hwf1 as (Hlen & _). lia. }
  assert (Hlv1 : lower_valid st1 = Z.of_nat (S (S n)) - 2).
  { destruct (first_turn_clean n full 0 Hr Hclean ltac:(lia)) as [Hlv _].
    unfold st1. rewrite Hlv. lia. }
  destruct (foldM_body_adjusted (Z.of_nat (S (S n))) ltac:(lia) rest (B + 1) st1 full)
    as (st' & Hloop & Hwf' & Hcounts' & Hlv' & Hch); try assumption; try lia.
  - apply spec_body_counts; try (assumption || lia).
    intros i s Hi Hs. simpl in Hi. replace i with 0%nat in * by lia. simpl in Hs.
    injection Hs as <-. simpl. split; [lia|]. rewrite Hsame. intros Hne'. lia.
  - destruct (spec_body_suffixes full full (initial n full) ltac:(lia) Hwf0) as [Hsuf1 _].
    { destruct (initial_accounted n [full] full ltac:(lia) ltac:(left)) as [Hacc _].
      intros i s Hi Hs. destruct (Hacc i s Hs) as (es & _ & _ & _ & Hw & _).
      destruct (Hw Hi) as (r0 & Hr0 & Hwr0).
      apply list_elem_of_singleton in Hr0. subst r0. exact Hwr0. }
    intros i s Hs. apply (Hsuf1 i s); [|exact Hs].
    pose proof (lookup_lt_Some _ _ _ Hs) as Hi. fold st1. lia.
  - eapply Forall_impl; [exact Hrest|]. cbn beta.
    intros r' [[Hr' Hc'] Hcl']. split; [split; [exact Hr'|lia]|exact Hcl'].
  - destruct (finish_spec (Z.of_nat (S (S n))) _ cs' st' Hwf' Hcounts' ltac:(lia))
      as (out & Hfin & _ & _ & Hsent).
    exists out. split.
    { rewrite Hrun. cbn [foldM]. rewrite body_spec by (assumption || lia). cbn [rbind].
      fold st1. rewrite Hloop. exact Hfin. }
    intros i Hi.
    destruct (first_turn_clean n full i Hr Hclean Hi) as (_ & s1 & Hs1 & Hsent1 & Hc1).
    fold st1 in Hs1.
    destruct (Hch i s1 Hs1) as (s' & Hs' & Hadj).
    destruct (Hsent i s' Hs') as (s'' & Hs'' & Hsent'').
    exists s''. split; [exact Hs''|]. rewrite Hsent''.
    destruct (Z.leb_spec (Z.of_nat i) (lower_valid st')); [|lia].
    rewrite app_assoc, Hadj, Hsent1, Hc1. reflexivity.
Qed.

End AdjustCountsAdjusted.

(** ** Concrete runs

    The statements above hold for every [Config]; the runs below take the
    values of the kenlm sources. *)

#[local] Existing Instance kenlm_config.

(** C7: the claim is that [Add] with [count = 0] touches no bucket and stays
    inside the four buckets.  The code evaluates [stat.n[count - 1]] whenever
    [count < 5]; for [count = 0] the unsigned index is [2^64 - 1], outside the
    array.  [Run] reaches it through [AddFull] on a record whose raw count is
    zero. *)
Theorem StatCollector_Add_zero_count_out_of_bounds :
  decr64 0 = 18446744073709551615 /\
  StatCollector.Add 0 0 (StatCollector.new 2) = Err OutOfBounds /\
  StatCollector.AddFull 0 (StatCollector.new 2) = Err OutOfBounds /\
  AdjustCounts.Run 1 [zero_count_block] = Err OutOfBounds.
Proof. repeat split; vm_compute; reflexivity. Qed.


(** C3, as stated, fails: the stream over a block holding [(w, <s>, x)]
    yields that record, whose marker is at word-position 1. *)
Lemma CollapseStream_yields_marker_counterexample :
  exists cs g,
    CollapseStream.yields 3 [marker_block] = Ok (cs, [g]) /\
    CollapseStream.deref (CollapseStream.new 3 [marker_block]) = g /\
    CollapseStream.interior_marker g.
Proof.
  eexists _, _. split; [vm_compute; reflexivity|]. split; [reflexivity|].
  exists 1%nat. split; [lia|reflexivity].
Qed.

Lemma CollapseStream_downstream_without_marker_witness :
  0 <= 3 /\ Forall (CollapseStream.exact 3) [sample_block; marker_block] /\
  exists cs',
    CollapseStream.yields 3 [sample_block; marker_block]
      = Ok (cs', concat (map mem [sample_block; marker_block])) /\
    CollapseStream.valid cs' = false /\
    length (passed (CollapseStream.block_ cs')) = 2%nat /\
    forall b' g,
      b' ∈ passed (CollapseStream.block_ cs') ->
      g ∈ CollapseStream.valid_region 3 b' -> CollapseStream.bos_at_1 g = false.
Proof.
  assert (Hex : Forall (CollapseStream.exact 3) [sample_block; marker_block])
    by (repeat constructor).
  split; [lia|]. split; [exact Hex|].
  exact (CollapseStream_downstream_without_marker 3 [sample_block; marker_block]
           ltac:(lia) Hex).
Defined.

(** C4, as stated, fails: over a block of k = 1 record of which m = 1 has the
    marker at word-position 1 the stream yields one record, not k - m = 0. *)
Lemma CollapseStream_yield_count_counterexample :
  exists cs seen,
    CollapseStream.yields 3 [marker_block] = Ok (cs, seen) /\
    length (CollapseStream.removed (mem marker_block)) = 1%nat /\
    length seen = 1%nat /\
    length seen
      <> (length (mem marker_block)
          - length (CollapseStream.removed (mem marker_block)))%nat.
Proof.
  eexists _, _. split; [vm_compute; reflexivity|].
  repeat split. vm_compute. discriminate.
Qed.

Lemma CollapseStream_block_compacted_witness :
  0 <= 3 /\ CollapseStream.exact 3 sample_block /\
  exists cs' b',
    CollapseStream.yields 3 [sample_block] = Ok (cs', mem sample_block) /\
    CollapseStream.valid cs' = false /\
    passed (CollapseStream.block_ cs') = [b'] /\
    ValidSize b' = 80 - 2 * 20 /\
    CollapseStream.valid_region 3 b'
      ≡ₚ CollapseStream.survivors (mem sample_block) /\
    length (CollapseStream.valid_region 3 b') = 2%nat.
Proof.
  split; [lia|]. split; [reflexivity|].
  exact (CollapseStream_block_compacted 3 sample_block ltac:(lia) eq_refl).
Defined.

(** C9: on the empty-input path no end-of-data signal is sent.  The claim
    is that every lower-order channel is poisoned exactly once on every path;
    with an empty N-gram stream [Run] returns right after [Complete], and the
    channels of the unigrams and of the bigrams carry nothing at all. *)
Theorem empty_path_sends_no_poison :
  exists out,
    AdjustCounts.Run 3 [ empty_block ] = Ok out /\
    map sent (AdjustCounts.lower out) = [ []; [] ].
Proof. eexists. split; vm_compute; reflexivity. Qed.

Lemma Run_on_empty_stream_witness :
  Forall (fun b => ValidSize b = 0) [ empty_block ] /\
  exists out,
    AdjustCounts.Run 3 [ empty_block ] = Ok out /\
    AdjustCounts.counts_ out = [0; 0; 0] /\
    Forall (fun s => sent s = []) (AdjustCounts.lower out).
Proof.
  assert (Hempty : Forall (fun b => ValidSize b = 0) [ empty_block ])
    by (repeat constructor).
  split; [exact Hempty|].
  destruct (Run_on_empty_stream 1 [ empty_block ] Hempty)
    as (out & Hrun & Hcounts & _ & _ & _ & Hsent & _).
  exists out. auto.
Defined.


Lemma body_adjusts_and_finalizes_witness :
  exists st st' s',
    foldM AdjustCounts.body (take 2 the_cat) (AdjustCounts.initial 1 first_trigram) = Ok st /\
    AdjustCounts.body shares_two st = Ok st' /\
    AdjustCounts.streams st' !! 1%nat = Some s' /\
    words (gram s') = [10; 11] /\ Count (gram s') = 3.
Proof.
  destruct (body_adjusts_and_finalizes 1 first_trigram (tail the_cat) 2 2 shares_two)
    as (st & Hrun & st' & Hbody & Hinc & _).
  - repeat constructor; vm_compute; discriminate.
  - vm_compute. reflexivity.
  - reflexivity.
  - exists st, st'. vm_compute in Hrun. injection Hrun as <-.
    destruct (Hinc eq_refl) as (s & s' & Hs & Hs' & Hw & _ & Hc & _).
    vm_compute in Hs. injection Hs as <-.
    exists s'. repeat split; assumption.
Defined.

Lemma body_opens_up_to_marker_witness :
  exists st st',
    foldM AdjustCounts.body (take 1 marker_run) (AdjustCounts.initial 1 first_trigram) = Ok st /\
    AdjustCounts.body with_marker st = Ok st' /\
    AdjustCounts.lower_valid st' = 1 /\
    (exists s', AdjustCounts.streams st' !! 0%nat = Some s' /\
                gram s' = {| words := [12]; Count := 1 |}) /\
    (exists s', AdjustCounts.streams st' !! 1%nat = Some s' /\
                gram s' = {| words := [1; 12]; Count := 4 |}).
Proof.
  destruct (body_opens_up_to_marker 1 first_trigram (tail marker_run) 4 1 with_marker)
    as (st & Hrun & st' & Hbody & _ & _ & Hopen & Hmarker & _).
  - repeat constructor; vm_compute; discriminate.
  - vm_compute. reflexivity.
  - reflexivity.
  - exists st, st'. vm_compute in Hrun. injection Hrun as <-.
    destruct (Hmarker eq_refl) as (_ & Hlv & Hrec & _).
    repeat split; try assumption.
    exact (Hopen 2%nat ltac:(vm_compute; split; [reflexivity|discriminate])).
Defined.

Lemma lower_valid_stays_on_a_stream_witness :
  exists st0 st',
    AdjustCounts.initialize first_trigram (NGramStreams_Init 2) (StatCollector.new 3)
    = Ok st0 /\
    foldM AdjustCounts.body (take 2 the_cat) st0 = Ok st' /\
    0 <= AdjustCounts.lower_valid st' <= 1.
Proof.
  destruct (lower_valid_stays_on_a_stream 1 first_trigram (tail the_cat) 2 1)
    as (st0 & st' & Hinit & Hrun & Hlv & _).
  - repeat constructor; vm_compute; discriminate.
  - vm_compute. reflexivity.
  - exists st0, st'. auto.
Defined.

(** ** The further properties on concrete inputs *)

Lemma StatCollector_Add_touches_one_bucket_witness :
  exists stats' stat',
    StatCollector.Add 1 3 C5_stats = Ok stats' /\
    StatCollector.orders_ stats' !! 1%nat = Some stat' /\
    StatCollector.count stat' = 10 /\
    StatCollector.n_at stat' 2 = 4 /\
    StatCollector.orders_ stats' !! 0%nat = StatCollector.orders_ C5_stats !! 0%nat.
Proof.
  destruct (StatCollector_Add_touches_one_bucket C5_stats 1 3
              {| StatCollector.n := [0; 0; 3; 1]; StatCollector.count := 9 |}
              eq_refl eq_refl ltac:(vm_compute; split; [discriminate|reflexivity]))
    as (stats' & stat' & Hadd & _ & Hs & Hc & _ & Hb & Hframe).
  exists stats', stat'. split; [exact Hadd|]. split; [exact Hs|].
  split; [exact Hc|]. split; [exact (Hb 2%nat)|].
  apply (Hframe 0%nat). discriminate.
Defined.

Lemma StatCollector_tallies_calls_witness :
  exists stats' s',
    Add_all sample_calls (StatCollector.new 2) = Ok stats' /\
    StatCollector.orders_ stats' !! 0%nat = Some s' /\
    StatCollector.count s' = 3 /\ StatCollector.n_at s' 0 = 2.
Proof.
  destruct (StatCollector_tallies_calls 2 sample_calls) as (stats' & Hrun & _ & Hslots).
  - repeat constructor; vm_compute; discriminate.
  - vm_compute. reflexivity.
  - destruct (Hslots 0%nat ltac:(lia)) as (s' & Hs & Hc & Hb & _).
    exists stats', s'. split; [exact Hrun|]. split; [exact Hs|].
    split; [exact Hc|exact (Hb 0%nat)].
Defined.

Lemma StatCollector_Complete_no_singleton_witness :
  exists d,
    (StatCollector.Complete no_singleton_stats).2 !! 0%nat = Some d /\
    StatCollector.amount d !! 1%nat = Some S754_nan.
Proof.
  destruct (StatCollector_Complete_no_singleton no_singleton_stats 0
              {| StatCollector.n := [0; 5; 2; 1]; StatCollector.count := 8 |}
              eq_refl eq_refl) as (d & Hd & _ & _ & _ & Hnan & _).
  exists d. split; [exact Hd|exact Hnan].
Defined.

Lemma Run_single_order_witness :
  exists out,
    AdjustCounts.Run 1 unigram_chain = Ok out /\
    AdjustCounts.counts_ out = [3] /\
    AdjustCounts.ngrams out = unigram_chain.
Proof.
  destruct (Run_single_order unigram_chain) as (out & Hrun & Hc & _ & _ & Hn).
  - repeat constructor; vm_compute; discriminate.
  - vm_compute. reflexivity.
  - exists out. split; [exact Hrun|]. split; [exact Hc|exact Hn].
Defined.

Lemma UpdateCopyFrom_last_without_marker_witness :
  exists live : nat,
    (0 <= live <= 4)%nat /\
    CollapseStream.copy_from_ (CollapseStream.UpdateCopyFrom at_start_of_sample)
    = Z.of_nat live - 1.
Proof.
  destruct (UpdateCopyFrom_last_without_marker at_start_of_sample sample_block 0 4
              eq_refl eq_refl eq_refl ltac:(simpl; lia))
    as (live & Hr & Heq & _).
  exists live. split; [exact Hr|]. rewrite Heq. reflexivity.
Defined.

Lemma CollapseStream_new_on_first_record_witness :
  CollapseStream.valid (CollapseStream.new 3 [ empty_block; sample_block ]) = true
  <-> concat (map mem [ empty_block; sample_block ]) <> [].
Proof.
  apply (CollapseStream_new_on_first_record 3 [ empty_block; sample_block ]).
  - lia.
  - repeat constructor.
Defined.

Lemma CollapseStream_leaves_clean_blocks_witness :
  exists cs',
    CollapseStream.yields 3 [ clean_block; sample_block ]
    = Ok (cs', mem clean_block ++ mem sample_block) /\
    Forall2 (fun b b' => Forall (fun g => CollapseStream.bos_at_1 g = false) (mem b) -> b' = b)
            [ clean_block; sample_block ]
            (passed (CollapseStream.block_ cs')).
Proof.
  destruct (CollapseStream_leaves_clean_blocks 3 [ clean_block; sample_block ])
    as (cs' & Hy & Hc & _).
  - lia.
  - repeat constructor.
  - exists cs'. split; [exact Hy|exact Hc].
Defined.

Lemma Run_channels_carry_suffixes_witness :
  exists out,
    AdjustCounts.Run 3 [ sample_block ] = Ok out /\
    length (AdjustCounts.lower out) = 2%nat.
Proof.
  destruct (Run_channels_carry_suffixes 1 [ sample_block ] 4) as (out & Hrun & Hlen & _).
  - repeat constructor.
  - discriminate.
  - repeat constructor; vm_compute; discriminate.
  - vm_compute. reflexivity.
  - exists out. split; [exact Hrun|exact Hlen].
Defined.

Lemma Run_counts_what_it_sends_witness :
  exists out s es,
    AdjustCounts.Run 3 [ sample_block ] = Ok out /\
    AdjustCounts.lower out !! 0%nat = Some s /\
    sent s = map Entry es ++ [Poison] /\
    AdjustCounts.counts_ out !! 0%nat = Some (Z.of_nat (length es)).
Proof.
  destruct (Run_counts_what_it_sends 1 [ sample_block ] 4) as (out & Hrun & _ & _ & Hch).
  - repeat constructor.
  - discriminate.
  - repeat constructor; vm_compute; discriminate.
  - vm_compute. reflexivity.
  - destruct (Hch 0%nat ltac:(lia)) as (s & es & Hs & Hsent & Hc & _).
    exists out, s, es. repeat split; assumption.
Defined.


Lemma Run_hands_on_compacted_chain_witness :
  exists out b',
    AdjustCounts.Run 3 [ sample_block ] = Ok out /\
    AdjustCounts.ngrams out !! 0%nat = Some b' /\
    ValidSize b' = 40.
Proof.
  destruct (Run_hands_on_compacted_chain 1 [ sample_block ] 4) as (out & Hrun & _ & Hb).
  - repeat constructor.
  - discriminate.
  - repeat constructor; vm_compute; discriminate.
  - vm_compute. reflexivity.
  - destruct (Hb 0%nat sample_block eq_refl) as (b' & Hb' & Hsize & _).
    exists out, b'. split; [exact Hrun|]. split; [exact Hb'|exact Hsize].
Defined.

Lemma FindDifference_of_a_suffix_witness :
  FindDifference C6_full C6_full = -1 /\
  (FindDifference C6_full C6_lower = Order C6_full - 1 - Order C6_lower
   <-> words C6_lower `suffix_of` words C6_full).
Proof.
  split.
  - apply (FindDifference_of_a_suffix C6_full C6_full); [unfold Order; lia|reflexivity].
  - apply (FindDifference_of_a_suffix C6_full C6_lower). unfold Order. simpl. lia.
Defined.

Lemma open_records_are_suffixes_witness :
  exists st',
    foldM AdjustCounts.body (take 3 the_cat) (AdjustCounts.initial 1 first_trigram) = Ok st' /\
    (AdjustCounts.lower_valid st' = 1 \/
     word shares_two (2 - AdjustCounts.lower_valid st') = kBOS).
Proof.
  destruct (open_records_are_suffixes 1 first_trigram (tail the_cat) 2 2 shares_two)
    as (st' & Hrun & _ & Hreach).
  - repeat constructor; vm_compute; discriminate.
  - vm_compute. reflexivity.
  - reflexivity.
  - exists st'. split; [exact Hrun|exact Hreach].
Defined.

Lemma Add_with_zero_count_is_out_of_bounds_witness :
  StatCollector.Add 1 0 C5_stats = Err OutOfBounds /\
  StatCollector.AddFull 0 C5_stats = Err OutOfBounds.
Proof.
  apply (Add_with_zero_count_is_out_of_bounds C5_stats 1).
  repeat constructor.
Defined.

Lemma single_order_run_stops_at_zero_count_witness :
  AdjustCounts.Run 1 zero_count_chain = Err OutOfBounds.
Proof.
  apply (single_order_run_stops_at_zero_count zero_count_chain
           [ {| words := [5]; Count := 1 |}; {| words := [6]; Count := 3 |};
             {| words := [7]; Count := 1 |} ]
           [ {| words := [9]; Count := 2 |} ]
           {| words := [5]; Count := 0 |}).
  - reflexivity.
  - repeat constructor; vm_compute; discriminate.
  - vm_compute. reflexivity.
  - reflexivity.
Defined.

Lemma Run_on_a_single_record_witness :
  exists out s,
    AdjustCounts.Run 3 [ marker_block ] = Ok out /\
    AdjustCounts.lower out !! 1%nat = Some s /\
    sent s = [ Entry {| words := [1; 7]; Count := 2 |}; Poison ] /\
    AdjustCounts.counts_ out !! 1%nat = Some 1.
Proof.
  destruct (Run_on_a_single_record 1 [ marker_block ] {| words := [5; 1; 7]; Count := 2 |})
    as (out & Hrun & Hch & _).
  - repeat constructor.
  - reflexivity.
  - reflexivity.
  - simpl. lia.
  - vm_compute. reflexivity.
  - destruct (Hch 1%nat ltac:(lia)) as (s & Hs & Hsent & Hc).
    exists out, s. split; [exact Hrun|]. split; [exact Hs|].
    split; [exact Hsent|exact Hc].
Defined.

Lemma Run_publishes_adjusted_records_witness :
  exists out s,
    AdjustCounts.Run 3 [ clean_block ] = Ok out /\
    AdjustCounts.lower out !! 1%nat = Some s /\
    sent s = [ Entry {| words := [6; 7]; Count := 2 |};
               Entry {| words := [8; 9]; Count := 1 |}; Poison ].
Proof.
  destruct (Run_publishes_adjusted_records 1 [ clean_block ]
              {| words := [1; 6; 7]; Count := 2 |}
              [ {| words := [5; 6; 7]; Count := 1 |}; {| words := [5; 8; 9]; Count := 1 |} ]
              2)
    as (out & Hrun & Hch).
  - repeat constructor.
  - reflexivity.
  - repeat constructor; try (vm_compute; discriminate);
      intros (i & Hi & Hw); destruct i as [|[|[|i]]]; simpl in Hw; try lia; discriminate.
  - vm_compute. reflexivity.
  - destruct (Hch 1%nat ltac:(lia)) as (s & Hs & Hsent).
    exists out, s. split; [exact Hrun|]. split; [exact Hs|exact Hsent].
Defined.
